(** * Skyline org-compare: reconciliation, line diff, auto-wiring, manifest

    A shallow embedding of the computational core of the org-compare
    feature. Three classes are modelled:

    - [MetadataService], the class of
      [extension/src/modules/s/orgCompare/services/metadataService.ts];
    - [OrgCompare], the Lightning component [orgCompare.ts] in the text that
      hands its diff to the side-by-side [DiffViewer]
      ([generateDiffContent] fills [diffViewerContent]);
    - [OrgCompareInline], the other text of the same component, which
      follows the service class in [metadataService.ts] and fills
      [diffContent.diffLines] instead.

    JavaScript objects are references into a store: an array of items is a
    list of references, [Set<MetadataItem>] compares references, and
    [item.status = ...] is a write to the store. Strings are sequences of
    characters; the operations used ([split] on one character, [startsWith],
    concatenation, equality) do not depend on the encoding. *)

From Stdlib Require Import Ascii String.
From stdpp Require Import base option list strings gmap functions.

Local Open Scope string_scope.
Local Open Scope list_scope.

(** ** Strings as JavaScript uses them *)

(** A string in a condition is true when it is not empty. *)
Definition truthy (s : string) : bool := negb (String.eqb s "").

(** [x || ''] for an optional string. *)
Definition orEmpty (o : option string) : string := default "" o.

(** [s.split(c)] for a one-character separator [c]; the empty string splits
    into one empty piece. *)
Fixpoint split (sep : ascii) (s : string) : list string :=
  match s with
  | EmptyString => [""]
  | String c s' =>
      if Ascii.eqb c sep then "" :: split sep s'
      else match split sep s' with
           | [] => [String c ""]
           | piece :: pieces => String c piece :: pieces
           end
  end.

(** [s.startsWith(p)] *)
Definition startsWith (s p : string) : bool := String.prefix p s.

Definition newline : ascii := "010"%char.
Definition dot : ascii := "."%char.

(** ** Data model *)

Inductive Status := Added | Removed | Changed | Unchanged.

#[global] Instance Status_eq_dec : EqDecision Status.
Proof. solve_decision. Defined.

(** [interface MetadataItem]; optional properties are options. *)
Record MetadataItem := {
  type : string;
  name : string;
  fullName : string;
  lastModifiedDate : option string;
  lastModifiedBy : option string;
  status : option Status;
  sourceValue : option string;
  targetValue : option string;
  diff : option string;
  selected : option bool;
  statusBadgeClass : option string;
  lastModified : option string
}.

(** A reference to an item, and the store that holds the items. *)
Definition ref := nat.
Abbreviation store := (ref → MetadataItem).

(** [interface MetadataComparison]: four arrays of item references. *)
Record MetadataComparison := {
  added : list ref;
  removed : list ref;
  changed : list ref;
  unchanged : list ref
}.

(** [[...r.added, ...r.removed, ...r.changed, ...r.unchanged]] *)
Definition allItems (r : MetadataComparison) : list ref :=
  added r ++ removed r ++ changed r ++ unchanged r.

Inductive ConfigType := org | git.

Record SourceTargetConfig := {
  cfg_type : ConfigType;
  orgAlias : option string;
  gitBranch : option string
}.

(** ** Reconciliation: [compareMetadata]

    The service class and the component share the body of [compareMetadata]
    and differ in the private [hasChanges] it calls, which is a parameter
    here. *)

(** [item.status = s; item.statusBadgeClass = badge] *)
Definition mark (s : option Status) (badge : option string) (it : MetadataItem) : MetadataItem :=
  {| type := type it;
     name := name it;
     fullName := fullName it;
     lastModifiedDate := lastModifiedDate it;
     lastModifiedBy := lastModifiedBy it;
     status := s;
     sourceValue := sourceValue it;
     targetValue := targetValue it;
     diff := diff it;
     selected := selected it;
     statusBadgeClass := badge;
     lastModified := lastModified it |}.

Definition setStatus (s : Status) (badge : string) (σ : store) (item : ref) : store :=
  <[item := mark (Some s) (Some badge) (σ item)]> σ.

(** [items.forEach(item => m.set(item.fullName, item))] on a new [Map]: a
    later item replaces an earlier one that has the same [fullName]. *)
Definition indexByFullName (σ : store) (items : list ref) : gmap string ref :=
  foldl (λ m item, <[fullName (σ item) := item]> m) ∅ items.

(** How a call ends. No statement of the modelled methods throws. *)
Inductive Outcome (A : Type) :=
  | Returned (a : A)
  | Thrown (error : string).
Arguments Returned {A} a.
Arguments Thrown {A} error.

Section Reconcile.

Variable hasChanges : store → ref → ref → bool.

(** First loop: source items whose key the target map lacks. *)
Definition findAdded (targetMap : gmap string ref)
    (acc : store * list ref) (item : ref) : store * list ref :=
  let '(σ, added) := acc in
  match targetMap !! fullName (σ item) with
  | Some _ => acc
  | None => (setStatus Added "status-badge-added" σ item, added ++ [item])
  end.

(** Second loop: target items whose key the source map lacks. *)
Definition findRemoved (sourceMap : gmap string ref)
    (acc : store * list ref) (item : ref) : store * list ref :=
  let '(σ, removed) := acc in
  match sourceMap !! fullName (σ item) with
  | Some _ => acc
  | None => (setStatus Removed "status-badge-removed" σ item, removed ++ [item])
  end.

(** Third loop: source items whose key the target map has. The component
    also starts [retrieveMetadataContent] for a changed item; that method is
    [async] and writes only after its first [await], so not before
    [compareMetadata] has returned. *)
Definition findChanged (targetMap : gmap string ref)
    (acc : store * list ref * list ref) (sourceItem : ref) : store * list ref * list ref :=
  let '(σ, changed, unchanged) := acc in
  match targetMap !! fullName (σ sourceItem) with
  | Some targetItem =>
      if hasChanges σ sourceItem targetItem
      then (setStatus Changed "status-badge-changed" σ sourceItem,
            changed ++ [sourceItem], unchanged)
      else (setStatus Unchanged "status-badge-unchanged" σ sourceItem,
            changed, unchanged ++ [sourceItem])
  | None => acc
  end.

Definition compareMetadataWith (σ : store) (source target : list ref)
    : store * MetadataComparison :=
  let sourceMap := indexByFullName σ source in
  let targetMap := indexByFullName σ target in
  let '(σ1, added) := foldl (findAdded targetMap) (σ, []) source in
  let '(σ2, removed) := foldl (findRemoved sourceMap) (σ1, []) target in
  let '(σ3, changed, unchanged) := foldl (findChanged targetMap) (σ2, [], []) source in
  (σ3, {| added := added; removed := removed;
          changed := changed; unchanged := unchanged |}).

End Reconcile.

(** ** Dependency auto-wiring: [autoWireDependencies] *)

Inductive AutoWire :=
  lwcFolder | apexMeta | objectFields | objectLayouts | fieldParentObject.

(** [interface MetadataTypeConfig]; [autoWire] is [None] when the property
    is [null] or missing. *)
Record MetadataTypeConfig := {
  mt_type : string;
  displayName : string;
  icon : option string;
  autoWire : option AutoWire
}.

Definition METADATA_TYPES : list MetadataTypeConfig := [
  {| mt_type := "ApexClass"; displayName := "Apex Class";
     icon := Some "utility:code"; autoWire := Some apexMeta |};
  {| mt_type := "ApexTrigger"; displayName := "Apex Trigger";
     icon := Some "utility:code"; autoWire := Some apexMeta |};
  {| mt_type := "ApexPage"; displayName := "Visualforce Page";
     icon := Some "utility:page"; autoWire := Some apexMeta |};
  {| mt_type := "ApexComponent"; displayName := "Apex Component";
     icon := Some "utility:component"; autoWire := Some apexMeta |};
  {| mt_type := "CustomObject"; displayName := "Custom Object";
     icon := Some "standard:custom_object"; autoWire := Some objectFields |};
  {| mt_type := "CustomField"; displayName := "Custom Field";
     icon := Some "standard:custom_object"; autoWire := Some fieldParentObject |};
  {| mt_type := "Layout"; displayName := "Layout";
     icon := Some "utility:layout"; autoWire := Some objectLayouts |};
  {| mt_type := "LightningComponentBundle"; displayName := "LWC";
     icon := Some "utility:lightning"; autoWire := Some lwcFolder |};
  {| mt_type := "Profile"; displayName := "Profile";
     icon := Some "standard:profile"; autoWire := None |};
  {| mt_type := "PermissionSet"; displayName := "Permission Set";
     icon := Some "standard:avatar"; autoWire := None |}
].

(** [set.add(r)] on a [Set] of references kept in insertion order. *)
Definition setAdd (s : list ref) (r : ref) : list ref :=
  if decide (r ∈ s) then s else s ++ [r].

(** [Array.prototype.find] as an optional element. *)
Definition optList {A} (o : option A) : list A :=
  match o with Some a => [a] | None => [] end.

Section AutoWire.

Variable table : list MetadataTypeConfig.
Variable σ : store.
Variable comparisonResult : option MetadataComparison.

(** [METADATA_TYPES.find(t => t.type === item.type)] *)
Definition typeConfigOf (item : ref) : option MetadataTypeConfig :=
  List.find (λ t, String.eqb (mt_type t) (type (σ item))) table.

(** What one [case] of the [switch] hands to [autoWiredItems.add], in the
    order of the calls. *)
Definition related (rule : AutoWire) (item : ref) : list ref :=
  match comparisonResult with
  | None => []
  | Some result =>
      let all := allItems result in
      match rule with
      | lwcFolder =>
          let componentName := name (σ item) in
          List.filter (λ i, String.eqb (type (σ i)) "LightningComponentBundle"
                            && startsWith (name (σ i)) (componentName +:+ "/")) all
      | apexMeta =>
          optList (List.find (λ i, String.eqb (type (σ i)) (type (σ item))
                                   && String.eqb (name (σ i)) (name (σ item) +:+ "-meta")) all)
      | objectFields =>
          let objectName := name (σ item) in
          List.filter (λ i, (String.eqb (type (σ i)) "CustomField"
                             || String.eqb (type (σ i)) "Layout")
                            && startsWith (name (σ i)) (objectName +:+ ".")) all
      | fieldParentObject =>
          let fieldNameParts := split dot (name (σ item)) in
          if Nat.ltb 1 (length fieldNameParts) then
            let objectName := default "" (fieldNameParts !! 0) in
            optList (List.find (λ i, String.eqb (type (σ i)) "CustomObject"
                                     && String.eqb (name (σ i)) objectName) all)
          else []
      | objectLayouts => []
      end
  end.

(** The items one selected item brings besides itself. *)
Definition candidates (item : ref) : list ref :=
  match typeConfigOf item with
  | None => []
  | Some typeConfig =>
      match autoWire typeConfig with
      | None => []
      | Some rule => related rule item
      end
  end.

(** The callback of [selectedItems.forEach]. *)
Definition wire (autoWiredItems : list ref) (item : ref) : list ref :=
  foldl setAdd (setAdd autoWiredItems item) (candidates item).

Definition autoWireDependenciesWith (selectedItems : list ref) : list ref :=
  foldl wire [] selectedItems.

End AutoWire.

(** ** Manifest: [generatePackageXml]

    The three classes carry the same text of this method. *)

Definition nl : string := String newline "".
Definition dq : string := String "034"%char "".

(** [metadataTypes.has(t)] on a [Map<string, string[]>] kept in insertion
    order. *)
Fixpoint hasType (m : list (string * list string)) (t : string) : bool :=
  match m with
  | [] => false
  | (t', _) :: m' => String.eqb t' t || hasType m' t
  end.

(** [metadataTypes.get(t)!.push(n)]; the key is there when this is called. *)
Fixpoint pushName (m : list (string * list string)) (t n : string)
    : list (string * list string) :=
  match m with
  | [] => []
  | (t', names) :: m' =>
      if String.eqb t' t then (t', names ++ [n]) :: m'
      else (t', names) :: pushName m' t n
  end.

(** The callback of the first [items.forEach]. *)
Definition collect (σ : store) (m : list (string * list string)) (item : ref)
    : list (string * list string) :=
  let m1 := if hasType m (type (σ item)) then m else m ++ [(type (σ item), [])] in
  pushName m1 (type (σ item)) (name (σ item)).

Definition groupByType (σ : store) (items : list ref) : list (string * list string) :=
  foldl (collect σ) [] items.

Definition memberLine (n : string) : string :=
  "    <members>" +:+ n +:+ "</members>" +:+ nl.

(** The callback of [metadataTypes.forEach]. *)
Definition appendTypes (packageXml : string) (entry : string * list string) : string :=
  let '(t, names) := entry in
  let packageXml := packageXml +:+ "  <types>" +:+ nl in
  let packageXml := foldl (λ acc n, acc +:+ memberLine n) packageXml names in
  let packageXml := packageXml +:+ "    <name>" +:+ t +:+ "</name>" +:+ nl in
  packageXml +:+ "  </types>" +:+ nl.

Definition xmlHeader : string :=
  ("<?xml version=" +:+ dq +:+ "1.0" +:+ dq +:+ " encoding=" +:+ dq +:+ "UTF-8" +:+ dq +:+ "?>" +:+ nl)
  +:+ ("<Package xmlns=" +:+ dq +:+ "http://soap.sforce.com/2006/04/metadata" +:+ dq +:+ ">" +:+ nl).

Definition xmlFooter : string :=
  ("  <version>58.0</version>" +:+ nl) +:+ "</Package>".

Definition generatePackageXml (σ : store) (items : list ref) : string :=
  let metadataTypes := groupByType σ items in
  let packageXml := "<?xml version=" +:+ dq +:+ "1.0" +:+ dq +:+ " encoding="
                    +:+ dq +:+ "UTF-8" +:+ dq +:+ "?>" +:+ nl in
  let packageXml := packageXml +:+ "<Package xmlns=" +:+ dq
                    +:+ "http://soap.sforce.com/2006/04/metadata" +:+ dq +:+ ">" +:+ nl in
  let packageXml := foldl appendTypes packageXml metadataTypes in
  let packageXml := packageXml +:+ "  <version>58.0</version>" +:+ nl in
  packageXml +:+ "</Package>".

Module MetadataService.

(** "Simple comparison - in real implementation, this would compare actual
    content" *)
Definition hasChanges (σ : store) (sourceItem targetItem : ref) : bool :=
  bool_decide (lastModifiedDate (σ sourceItem) ≠ lastModifiedDate (σ targetItem)).

Definition compareMetadata : store → list ref → list ref → store * MetadataComparison :=
  compareMetadataWith hasChanges.

Definition compareMetadata_call (σ : store) (source target : list ref)
    : Outcome (store * MetadataComparison) :=
  Returned (compareMetadata σ source target).

End MetadataService.

Module OrgCompare.

(** [DiffLine] and [DiffContent] of [diffViewer.ts]. *)
Record DiffLine := {
  lineNumber : nat;
  content : string;
  line_type : Status
}.

Record DiffViewerContent := {
  sourceLines : list DiffLine;
  targetLines : list DiffLine
}.

(** The fields of the component that the modelled methods touch. *)
Record State := {
  sourceConfig : SourceTargetConfig;
  targetConfig : SourceTargetConfig;
  comparisonResult : option MetadataComparison;
  selectedDiffItem : option ref;
  diffViewerContent : DiffViewerContent;
  sourceDiffLabel : string;
  targetDiffLabel : string
}.

(** [c.type === 'org' ? (c.orgAlias || orgDefault) : (c.gitBranch || gitDefault)] *)
Definition diffLabel (c : SourceTargetConfig) (orgDefault gitDefault : string) : string :=
  match cfg_type c with
  | org => match orgAlias c with
           | Some a => if truthy a then a else orgDefault
           | None => orgDefault
           end
  | git => match gitBranch c with
           | Some b => if truthy b then b else gitDefault
           | None => gitDefault
           end
  end.

(** The [type] the loop of [generateDiffContent] computes: a line that only
    the source has is added, a line that only the target has is removed. *)
Definition lineType (sourceLine targetLine : string) : Status :=
  if negb (String.eqb sourceLine targetLine) then
    if truthy sourceLine && negb (truthy targetLine) then Added
    else if negb (truthy sourceLine) && truthy targetLine then Removed
    else Changed
  else Unchanged.

(** Body of the [for] loop of [generateDiffContent] at index [i]: the row
    pushed to [sourceDiffLines] and the row pushed to [targetDiffLines]. *)
Definition diffRow (srcLines tgtLines : list string) (i : nat) : DiffLine * DiffLine :=
  let sourceLine := orEmpty (srcLines !! i) in
  let targetLine := orEmpty (tgtLines !! i) in
  let ty := lineType sourceLine targetLine in
  ({| lineNumber := i + 1; content := sourceLine; line_type := ty |},
   {| lineNumber := i + 1; content := targetLine; line_type := ty |}).

Definition generateDiffContent (σ : store) (this : State) : State :=
  match selectedDiffItem this with
  | None => this
  | Some item =>
      let sourceContent := orEmpty (sourceValue (σ item)) in
      let targetContent := orEmpty (targetValue (σ item)) in
      let srcLines := split newline sourceContent in
      let tgtLines := split newline targetContent in
      let maxLines := Nat.max (length srcLines) (length tgtLines) in
      let rows := map (diffRow srcLines tgtLines) (seq 0 maxLines) in
      {| sourceConfig := sourceConfig this;
         targetConfig := targetConfig this;
         comparisonResult := comparisonResult this;
         selectedDiffItem := selectedDiffItem this;
         diffViewerContent :=
           {| sourceLines := map fst rows; targetLines := map snd rows |};
         sourceDiffLabel :=
           diffLabel (sourceConfig this) "Source Org" "Source Branch";
         targetDiffLabel :=
           diffLabel (targetConfig this) "Target Org" "Target Branch" |}
  end.

Definition hasChanges (σ : store) (source target : ref) : bool :=
  bool_decide (sourceValue (σ source) ≠ sourceValue (σ target)).

Definition compareMetadata : store → list ref → list ref → store * MetadataComparison :=
  compareMetadataWith hasChanges.

Definition compareMetadata_call (σ : store) (source target : list ref)
    : Outcome (store * MetadataComparison) :=
  Returned (compareMetadata σ source target).

Definition autoWireDependencies (σ : store) (this : State) (selectedItems : list ref)
    : list ref :=
  autoWireDependenciesWith METADATA_TYPES σ (comparisonResult this) selectedItems.

End OrgCompare.

Module OrgCompareInline.

Record DiffLine := {
  lineNumber : nat;
  sourceContent : string;
  targetContent : string;
  line_type : Status;
  diffLineClass : string
}.

Record DiffContent := { diffLines : list DiffLine }.

Record State := {
  comparisonResult : option MetadataComparison;
  selectedDiffItem : option ref;
  diffContent : option DiffContent
}.

Definition lineClass (t : Status) : string :=
  match t with
  | Added => "diff-line-added"
  | Removed => "diff-line-removed"
  | Changed => "diff-line-changed"
  | Unchanged => "diff-line-unchanged"
  end.

(** The [type] the loop of [generateDiffContent] computes here: a line that
    only the source has is removed, a line that only the target has is
    added. *)
Definition lineType (sourceLine targetLine : string) : Status :=
  if negb (String.eqb sourceLine targetLine) then
    if truthy sourceLine && negb (truthy targetLine) then Removed
    else if negb (truthy sourceLine) && truthy targetLine then Added
    else Changed
  else Unchanged.

(** Body of the [for] loop of [generateDiffContent] at index [i]. *)
Definition diffRow (srcLines tgtLines : list string) (i : nat) : DiffLine :=
  let sourceLine := orEmpty (srcLines !! i) in
  let targetLine := orEmpty (tgtLines !! i) in
  let ty := lineType sourceLine targetLine in
  {| lineNumber := i + 1;
     sourceContent := sourceLine;
     targetContent := targetLine;
     line_type := ty;
     diffLineClass := lineClass ty |}.

Definition generateDiffContent (σ : store) (this : State) : State :=
  match selectedDiffItem this with
  | None => this
  | Some item =>
      let sourceContent := orEmpty (sourceValue (σ item)) in
      let targetContent := orEmpty (targetValue (σ item)) in
      let srcLines := split newline sourceContent in
      let tgtLines := split newline targetContent in
      let maxLines := Nat.max (length srcLines) (length tgtLines) in
      {| comparisonResult := comparisonResult this;
         selectedDiffItem := selectedDiffItem this;
         diffContent :=
           Some {| diffLines := map (diffRow srcLines tgtLines) (seq 0 maxLines) |} |}
  end.

Definition autoWireDependencies (σ : store) (this : State) (selectedItems : list ref)
    : list ref :=
  autoWireDependenciesWith METADATA_TYPES σ (comparisonResult this) selectedItems.

End OrgCompareInline.


(** ** Definitions used to state the properties *)

(** Number of occurrences of a character. *)
Fixpoint countChar (c : ascii) (s : string) : nat :=
  match s with
  | EmptyString => 0
  | String c' s' => (if Ascii.eqb c' c then 1 else 0) + countChar c s'
  end.

(** The pieces put back together with the separator between them. *)
Fixpoint join (sep : ascii) (pieces : list string) : string :=
  match pieces with
  | [] => ""
  | [p] => p
  | p :: rest => p +:+ String sep (join sep rest)
  end.

(** The label of a row as section 4.2 of the specification words it: equal
    lines are unchanged, an empty left line against a non-empty right line is
    added, a non-empty left line against an empty right line is removed, and
    anything else is changed. *)
Definition specLineType (leftLine rightLine : string) : Status :=
  if decide (leftLine = rightLine) then Unchanged
  else if decide (leftLine = "" ∧ rightLine ≠ "") then Added
  else if decide (leftLine ≠ "" ∧ rightLine = "") then Removed
  else Changed.

(** A blank item of a given type and name with optional content. *)
Definition item (t n : string) (v w : option string) : MetadataItem :=
  {| type := t; name := n; fullName := t +:+ "/" +:+ n;
     lastModifiedDate := None; lastModifiedBy := None; status := None;
     sourceValue := v; targetValue := w; diff := None; selected := None;
     statusBadgeClass := None; lastModified := None |}.

Definition dated (d : string) (it : MetadataItem) : MetadataItem :=
  {| type := type it; name := name it; fullName := fullName it;
     lastModifiedDate := Some d; lastModifiedBy := lastModifiedBy it;
     status := status it; sourceValue := sourceValue it;
     targetValue := targetValue it; diff := diff it; selected := selected it;
     statusBadgeClass := statusBadgeClass it; lastModified := lastModified it |}.

(** A store for the examples: two fields of an object and the object, two
    classes of the same name with different content, a class whose two
    sides differ line by line, a profile, and two classes of the same name
    and content modified at different dates. *)
Definition exampleStore : store := λ r,
  match r with
  | 0 => item "CustomField" "Account.Phone" None None
  | 1 => item "CustomObject" "Account" None None
  | 2 => item "CustomField" "Account.Name" None None
  | 3 => item "ApexClass" "Foo" (Some "X") None
  | 4 => item "ApexClass" "Foo" (Some "Y") None
  | 5 => item "ApexClass" "Bar" (Some ("a" +:+ nl +:+ "b" +:+ nl +:+ "c"))
                                (Some ("a" +:+ nl +:+ "x"))
  | 6 => item "Profile" "Admin" None None
  | 7 => dated "2024-01-01" (item "ApexClass" "Baz" (Some "X") None)
  | _ => dated "2024-02-02" (item "ApexClass" "Baz" (Some "X") None)
  end.

Definition exampleView (result : option MetadataComparison) (selection : option ref)
    : OrgCompare.State :=
  {| OrgCompare.sourceConfig := {| cfg_type := org; orgAlias := None; gitBranch := None |};
     OrgCompare.targetConfig := {| cfg_type := org; orgAlias := None; gitBranch := None |};
     OrgCompare.comparisonResult := result;
     OrgCompare.selectedDiffItem := selection;
     OrgCompare.diffViewerContent :=
       {| OrgCompare.sourceLines := []; OrgCompare.targetLines := [] |};
     OrgCompare.sourceDiffLabel := "";
     OrgCompare.targetDiffLabel := "" |}.

Definition exampleInline (result : option MetadataComparison) (selection : option ref)
    : OrgCompareInline.State :=
  {| OrgCompareInline.comparisonResult := result;
     OrgCompareInline.selectedDiffItem := selection;
     OrgCompareInline.diffContent := None |}.

(** The strings of a list one after the other. *)
Definition concatStr (l : list string) : string := foldr String.append "" l.

(** One [<types>] element: a member line per listed name, then the type. *)
Definition typesBlock (entry : string * list string) : string :=
  ("  <types>" +:+ nl)
  +:+ concatStr (map memberLine entry.2)
  +:+ ("    <name>" +:+ entry.1 +:+ "</name>" +:+ nl)
  +:+ ("  </types>" +:+ nl).

(** The distinct elements of a list in the order of their first occurrence. *)
Definition firstSeen (l : list string) : list string :=
  foldl (λ seen t, if decide (t ∈ seen) then seen else seen ++ [t]) [] l.

(** The names of the items of type [t], in the order of the items. *)
Definition namesOfType (σ : store) (t : string) (items : list ref) : list string :=
  map (λ r, name (σ r)) (List.filter (λ r, String.eqb (type (σ r)) t) items).

(** The members a grouped manifest lists under type [t]. *)
Definition membersOf (m : list (string * list string)) (t : string) : list string :=
  match List.find (λ e, String.eqb e.1 t) m with
  | Some e => e.2
  | None => []
  end.

(** The number of positions of [hay] at which [needle] starts. *)
Fixpoint occurrences (needle hay : string) : nat :=
  match hay with
  | EmptyString => 0
  | String _ rest =>
      (if String.prefix needle hay then 1 else 0) + occurrences needle rest
  end.

(** A comparison whose universe is the two fields, the object and the
    profile of [exampleStore]. *)
Definition exampleResult : MetadataComparison :=
  {| added := [0; 1]; removed := [2]; changed := []; unchanged := [6] |}.

(** The keys of a list of items. *)
Definition keys (σ : store) (items : list ref) : list string :=
  map (λ r, fullName (σ r)) items.

(** [σ'] differs from [σ] in the [status] and [statusBadgeClass] of items
    only. *)
Definition sameButStatus (σ σ' : store) : Prop :=
  ∀ r, ∃ s badge, σ' r = mark s badge (σ r).

(** The item a key map built from [items] holds for key [k]: the last one. *)
Definition lastWithKey (σ : store) (items : list ref) (k : string) : option ref :=
  list.last (List.filter (λ r, String.eqb (fullName (σ r)) k) items).

(** The key of [r] is not a key of [other]. *)
Definition onlyIn (σ : store) (other : list ref) (r : ref) : bool :=
  bool_decide (fullName (σ r) ∉ keys σ other).

(** The key of [r] is a key of [target] and [hasChanges] holds, or does not
    hold, of [r] and the target item kept under that key. *)
Definition differs (hasChanges : store → ref → ref → bool)
    (σ : store) (target : list ref) (r : ref) : bool :=
  match lastWithKey σ target (fullName (σ r)) with
  | Some t => hasChanges σ r t
  | None => false
  end.

Definition agrees (hasChanges : store → ref → ref → bool)
    (σ : store) (target : list ref) (r : ref) : bool :=
  match lastWithKey σ target (fullName (σ r)) with
  | Some t => negb (hasChanges σ r t)
  | None => false
  end.

(** * Further definitions

    The rest of the modelled code, and what is needed to state its
    properties. *)

(** ** What [compareMetadata] leaves in the store *)

(** [out.1] is [σ] with, for every item of a list of [out.2], the status and
    badge class of that list, and nothing else changed. *)
Definition statusWritten (σ : store) (out : store * MetadataComparison) : Prop :=
  ∀ r,
    (r ∈ added out.2 →
       out.1 r = mark (Some Added) (Some "status-badge-added") (σ r))
    ∧ (r ∈ removed out.2 →
       out.1 r = mark (Some Removed) (Some "status-badge-removed") (σ r))
    ∧ (r ∈ changed out.2 →
       out.1 r = mark (Some Changed) (Some "status-badge-changed") (σ r))
    ∧ (r ∈ unchanged out.2 →
       out.1 r = mark (Some Unchanged) (Some "status-badge-unchanged") (σ r))
    ∧ (r ∉ allItems out.2 → out.1 r = σ r).

(** ** [compareMetadata] and [generateDiff] of the inline text of the
    component ([metadataService.ts], after the service class) *)

(** [item.status = s] *)
Definition withStatus (s : Status) (it : MetadataItem) : MetadataItem :=
  {| type := type it; name := name it; fullName := fullName it;
     lastModifiedDate := lastModifiedDate it; lastModifiedBy := lastModifiedBy it;
     status := Some s; sourceValue := sourceValue it;
     targetValue := targetValue it; diff := diff it; selected := selected it;
     statusBadgeClass := statusBadgeClass it; lastModified := lastModified it |}.

(** [item.targetValue = v] *)
Definition withTargetValue (v : option string) (it : MetadataItem) : MetadataItem :=
  {| type := type it; name := name it; fullName := fullName it;
     lastModifiedDate := lastModifiedDate it; lastModifiedBy := lastModifiedBy it;
     status := status it; sourceValue := sourceValue it;
     targetValue := v; diff := diff it; selected := selected it;
     statusBadgeClass := statusBadgeClass it; lastModified := lastModified it |}.

(** [item.diff = d] *)
Definition withDiff (d : string) (it : MetadataItem) : MetadataItem :=
  {| type := type it; name := name it; fullName := fullName it;
     lastModifiedDate := lastModifiedDate it; lastModifiedBy := lastModifiedBy it;
     status := status it; sourceValue := sourceValue it;
     targetValue := targetValue it; diff := Some d; selected := selected it;
     statusBadgeClass := statusBadgeClass it; lastModified := lastModified it |}.

(** A [Map<string, MetadataItem>] with its iteration order: [set] on a key
    that is present replaces the value where the key stands, [set] on a new
    key appends. *)
Fixpoint omapSet (m : list (string * ref)) (k : string) (v : ref) : list (string * ref) :=
  match m with
  | [] => [(k, v)]
  | (k', v') :: m' =>
      if String.eqb k' k then (k', v) :: m' else (k', v') :: omapSet m' k v
  end.

Definition omapGet (m : list (string * ref)) (k : string) : option ref :=
  match List.find (λ e, String.eqb e.1 k) m with
  | Some e => Some e.2
  | None => None
  end.

(** [items.forEach(item => m.set(item.fullName, item))] *)
Definition orderedIndex (σ : store) (items : list ref) : list (string * ref) :=
  foldl (λ m item, omapSet m (fullName (σ item)) item) [] items.

Module OrgCompareInlineReconcile.

(** A truthy optional string: defined and not empty. *)
Definition present (o : option string) : bool :=
  match o with Some s => truthy s | None => false end.

Definition generateDiff (sourceValue targetValue : option string) : string :=
  if negb (present sourceValue) || negb (present targetValue)
  then "Content not available for comparison"
  else if bool_decide (sourceValue = targetValue) then "No changes"
  else "Content has changed".

Definition hasChanges (σ : store) (source target : ref) : bool :=
  bool_decide (sourceValue (σ source) ≠ sourceValue (σ target)).

(** Body of [for (const [key, sourceItem] of sourceMap)]. *)
Definition classifySource (targetMap : list (string * ref))
    (acc : store * list ref * list ref * list ref) (entry : string * ref)
    : store * list ref * list ref * list ref :=
  let '(σ, added, changed, unchanged) := acc in
  let '(key, sourceItem) := entry in
  match omapGet targetMap key with
  | None =>
      (<[sourceItem := withStatus Added (σ sourceItem)]> σ,
       added ++ [sourceItem], changed, unchanged)
  | Some targetItem =>
      if hasChanges σ sourceItem targetItem then
        let σ1 := <[sourceItem := withStatus Changed (σ sourceItem)]> σ in
        let σ2 := <[sourceItem :=
                     withTargetValue (sourceValue (σ1 targetItem)) (σ1 sourceItem)]> σ1 in
        let σ3 := <[sourceItem :=
                     withDiff (generateDiff (sourceValue (σ2 sourceItem))
                                            (sourceValue (σ2 targetItem)))
                              (σ2 sourceItem)]> σ2 in
        (σ3, added, changed ++ [sourceItem], unchanged)
      else
        (<[sourceItem := withStatus Unchanged (σ sourceItem)]> σ,
         added, changed, unchanged ++ [sourceItem])
  end.

(** Body of [for (const [key, targetItem] of targetMap)]. *)
Definition classifyTarget (sourceMap : list (string * ref))
    (acc : store * list ref) (entry : string * ref) : store * list ref :=
  let '(σ, removed) := acc in
  let '(key, targetItem) := entry in
  match omapGet sourceMap key with
  | Some _ => acc
  | None => (<[targetItem := withStatus Removed (σ targetItem)]> σ, removed ++ [targetItem])
  end.

Definition compareMetadata (σ : store) (source target : list ref)
    : store * MetadataComparison :=
  let sourceMap := orderedIndex σ source in
  let targetMap := orderedIndex σ target in
  let '(σ1, added, changed, unchanged) :=
    foldl (classifySource targetMap) (σ, [], [], []) sourceMap in
  let '(σ2, removed) := foldl (classifyTarget sourceMap) (σ1, []) targetMap in
  (σ2, {| added := added; removed := removed;
          changed := changed; unchanged := unchanged |}).

End OrgCompareInlineReconcile.

(** The items a key map built from [items] iterates over: one per key, in
    the order in which the keys first occur. *)
Definition lastPerKey (σ : store) (items : list ref) : list ref :=
  map snd (orderedIndex σ items).

(** What the inline [compareMetadata] writes to a changed item whose target
    item is [t]: the status, the target's content as [targetValue], and the
    summary of [generateDiff]. *)
Definition changedWrite (σ : store) (r t : ref) (it : MetadataItem) : MetadataItem :=
  withDiff (OrgCompareInlineReconcile.generateDiff (sourceValue (σ r)) (sourceValue (σ t)))
    (withTargetValue (sourceValue (σ t)) (withStatus Changed it)).

(** What it writes to an item of the source map. *)
Definition sourceWrite (σ : store) (target : list ref) (r : ref) (it : MetadataItem)
    : MetadataItem :=
  match lastWithKey σ target (fullName (σ r)) with
  | None => withStatus Added it
  | Some t =>
      if OrgCompareInlineReconcile.hasChanges σ r t then changedWrite σ r t it
      else withStatus Unchanged it
  end.

(** [σ'] has the keys and the content of [σ]. *)
Definition sameContent (σ σ' : store) : Prop :=
  ∀ r, fullName (σ' r) = fullName (σ r) ∧ sourceValue (σ' r) = sourceValue (σ r).

(** ** [populateItemProperties] (the same text in both texts of the
    component) *)

(** [item.statusBadgeClass = c] *)
Definition withBadge (c : string) (it : MetadataItem) : MetadataItem :=
  {| type := type it; name := name it; fullName := fullName it;
     lastModifiedDate := lastModifiedDate it; lastModifiedBy := lastModifiedBy it;
     status := status it; sourceValue := sourceValue it;
     targetValue := targetValue it; diff := diff it; selected := selected it;
     statusBadgeClass := Some c; lastModified := lastModified it |}.

(** [item.lastModified = v] *)
Definition withLastModified (v : string) (it : MetadataItem) : MetadataItem :=
  {| type := type it; name := name it; fullName := fullName it;
     lastModifiedDate := lastModifiedDate it; lastModifiedBy := lastModifiedBy it;
     status := status it; sourceValue := sourceValue it;
     targetValue := targetValue it; diff := diff it; selected := selected it;
     statusBadgeClass := statusBadgeClass it; lastModified := Some v |}.

(** [item.selected = b] *)
Definition withSelected (b : bool) (it : MetadataItem) : MetadataItem :=
  {| type := type it; name := name it; fullName := fullName it;
     lastModifiedDate := lastModifiedDate it; lastModifiedBy := lastModifiedBy it;
     status := status it; sourceValue := sourceValue it;
     targetValue := targetValue it; diff := diff it; selected := Some b;
     statusBadgeClass := statusBadgeClass it; lastModified := lastModified it |}.

Definition badgeOf (s : Status) : string :=
  match s with
  | Added => "status-badge-added"
  | Removed => "status-badge-removed"
  | Changed => "status-badge-changed"
  | Unchanged => "status-badge-unchanged"
  end.

(** [x || fallback] for an optional string. *)
Definition orElse (o : option string) (fallback : string) : string :=
  match o with
  | Some s => if truthy s then s else fallback
  | None => fallback
  end.

(** The callback of [allItems.forEach] in [populateItemProperties]: the
    [switch] on the status, then [lastModified]. *)
Definition populateItem (it : MetadataItem) : MetadataItem :=
  let it1 := match status it with
             | Some s => withBadge (badgeOf s) it
             | None => it
             end in
  withLastModified (orElse (lastModifiedDate it1) "Unknown") it1.

Definition populateItemProperties (σ : store)
    (comparisonResult : option MetadataComparison) : store :=
  match comparisonResult with
  | None => σ
  | Some result =>
      foldl (λ σ0 item, <[item := populateItem (σ0 item)]> σ0) σ (allItems result)
  end.

(** ** Selection of items (the same text in both texts of the component,
    apart from how the event's item name is read) *)

Module Selection.

Record State := {
  comparisonResult : option MetadataComparison;
  selectedItems : list ref;
  selectAll : bool
}.

(** [item.selected] in a condition. *)
Definition isSelected (σ : store) (item : ref) : bool :=
  match selected (σ item) with Some b => b | None => false end.

Definition updateSelectedItems (σ : store) (this : State) : State :=
  match comparisonResult this with
  | None =>
      {| comparisonResult := comparisonResult this;
         selectedItems := [];
         selectAll := selectAll this |}
  | Some result =>
      {| comparisonResult := comparisonResult this;
         selectedItems := List.filter (isSelected σ) (allItems result);
         selectAll := selectAll this |}
  end.

Definition updateSelectAllState (σ : store) (this : State) : State :=
  match comparisonResult this with
  | None =>
      {| comparisonResult := comparisonResult this;
         selectedItems := selectedItems this;
         selectAll := false |}
  | Some result =>
      {| comparisonResult := comparisonResult this;
         selectedItems := selectedItems this;
         selectAll := Nat.ltb 0 (length (allItems result))
                      && forallb (isSelected σ) (allItems result) |}
  end.

(** [items.forEach(item => item.selected = b)] *)
Definition selectEach (b : bool) (σ : store) (items : list ref) : store :=
  foldl (λ σ0 item, <[item := withSelected b (σ0 item)]> σ0) σ items.

(** [handleSelectAll] for an event whose target has [checked]. *)
Definition handleSelectAll (checked : bool) (σ : store) (this : State) : store * State :=
  let this1 := {| comparisonResult := comparisonResult this;
                  selectedItems := selectedItems this;
                  selectAll := checked |} in
  let σ1 := match comparisonResult this1 with
            | Some result =>
                let σa := selectEach (selectAll this1) σ (added result) in
                let σb := selectEach (selectAll this1) σa (removed result) in
                let σc := selectEach (selectAll this1) σb (changed result) in
                selectEach (selectAll this1) σc (unchanged result)
            | None => σ
            end in
  (σ1, updateSelectedItems σ1 this1).

(** [handleItemSelect] for an event whose target carries the item name
    [itemName] (absent when the attribute is missing) and [checked]. *)
Definition handleItemSelect (itemName : option string) (checked : bool)
    (σ : store) (this : State) : store * State :=
  let σ1 :=
    match comparisonResult this, itemName with
    | Some result, Some n =>
        if truthy n then
          match List.find (λ i, String.eqb (fullName (σ i)) n) (allItems result) with
          | Some item => <[item := withSelected checked (σ item)]> σ
          | None => σ
          end
        else σ
    | _, _ => σ
    end in
  (σ1, updateSelectAllState σ1 (updateSelectedItems σ1 this)).

End Selection.

(** ** The list shown under the status tabs ([filteredComparisonResult] of
    the component with the side-by-side viewer) *)

Inductive CurrentFilter := FilterAll | FilterAdded | FilterRemoved | FilterChanged | FilterUnchanged.

Definition filteredComparisonResult (comparisonResult : option MetadataComparison)
    (currentFilter : CurrentFilter) : list ref :=
  match comparisonResult with
  | None => []
  | Some result =>
      match currentFilter with
      | FilterAdded => added result
      | FilterRemoved => removed result
      | FilterChanged => changed result
      | FilterUnchanged => unchanged result
      | FilterAll => allItems result
      end
  end.


(** ** The filter of the inline text of the component: [filterItems],
    [matchesSearchTerm], [filteredComparisonResult] and the handlers that
    set [filter.status] *)

(** [hay.includes(needle)] *)
Fixpoint includes (hay needle : string) : bool :=
  String.prefix needle hay
  || match hay with
     | EmptyString => false
     | String _ rest => includes rest needle
     end.

Module ResultFilter.

(** [interface CompareFilter] *)
Record CompareFilter := {
  metadataTypes : list string;
  statuses : list Status;
  searchTerm : string
}.

Section Filtering.

(** [String.prototype.toLowerCase] *)
Variable toLowerCase : string → string.

Variable filter : CompareFilter.
Variable σ : store.

Definition matchesSearchTerm (item : ref) : bool :=
  let term := toLowerCase (searchTerm filter) in
  includes (toLowerCase (name (σ item))) term
  || includes (toLowerCase (fullName (σ item))) term
  || includes (toLowerCase (type (σ item))) term.

(** [filter.status.includes(item.status)] *)
Definition statusListed (item : ref) : bool :=
  match status (σ item) with
  | Some s => bool_decide (s ∈ statuses filter)
  | None => false
  end.

(** The callback of [items.filter] in [filterItems]. *)
Definition keeps (item : ref) : bool :=
  if Nat.ltb 0 (length (metadataTypes filter))
     && negb (bool_decide (type (σ item) ∈ metadataTypes filter))
  then false
  else if negb (statusListed item) then false
  else if truthy (searchTerm filter) && negb (matchesSearchTerm item) then false
  else true.

Definition filterItems (items : list ref) : list ref := List.filter keeps items.

Definition filteredComparisonResult (comparisonResult : option MetadataComparison)
    : option MetadataComparison :=
  match comparisonResult with
  | None => None
  | Some result =>
      Some {| added := filterItems (added result);
              removed := filterItems (removed result);
              changed := filterItems (changed result);
              unchanged := filterItems (unchanged result) |}
  end.

End Filtering.

Definition setStatuses (l : list Status) (filter : CompareFilter) : CompareFilter :=
  {| metadataTypes := metadataTypes filter;
     statuses := l;
     searchTerm := searchTerm filter |}.

Definition handleFilterAll : CompareFilter → CompareFilter :=
  setStatuses [Added; Removed; Changed; Unchanged].
Definition handleFilterAdded : CompareFilter → CompareFilter := setStatuses [Added].
Definition handleFilterRemoved : CompareFilter → CompareFilter := setStatuses [Removed].
Definition handleFilterChanged : CompareFilter → CompareFilter := setStatuses [Changed].
Definition handleFilterUnchanged : CompareFilter → CompareFilter := setStatuses [Unchanged].

(** [handleStatusFilterChange] for an event whose target has
    [selectedOptions]. *)
Definition handleStatusFilterChange (selectedOptions : list Status)
    : CompareFilter → CompareFilter :=
  setStatuses (if Nat.ltb 0 (length selectedOptions) then selectedOptions
               else [Added; Removed; Changed]).

(** The filter the component starts with. *)
Definition initialFilter : CompareFilter :=
  {| metadataTypes := []; statuses := [Added; Removed; Changed]; searchTerm := "" |}.

End ResultFilter.

(** ** The diff viewer ([diffViewer.ts]) *)

Module DiffViewer.

Record DiffLine := {
  lineNumber : nat;
  content : string;
  line_type : option Status
}.

Record DiffContent := {
  dc_sourceLines : list DiffLine;
  dc_targetLines : list DiffLine
}.

Record State := {
  diffContent : option DiffContent;
  sourceLines : list DiffLine;
  targetLines : list DiffLine;
  selectedLine : Z;
  isFullscreen : bool;
  bodyOverflow : string
}.

Record Stats := {
  st_added : nat;
  st_removed : nat;
  st_changed : nat;
  st_unchanged : nat
}.

Definition updateDiffContent (this : State) : State :=
  match diffContent this with
  | Some dc =>
      {| diffContent := diffContent this;
         sourceLines := dc_sourceLines dc;
         targetLines := dc_targetLines dc;
         selectedLine := selectedLine this;
         isFullscreen := isFullscreen this;
         bodyOverflow := bodyOverflow this |}
  | None =>
      {| diffContent := diffContent this;
         sourceLines := [ {| lineNumber := 1;
                             content := "Source content will be displayed here";
                             line_type := Some Unchanged |} ];
         targetLines := [ {| lineNumber := 1;
                             content := "Target content will be displayed here";
                             line_type := Some Unchanged |} ];
         selectedLine := selectedLine this;
         isFullscreen := isFullscreen this;
         bodyOverflow := bodyOverflow this |}
  end.

(** [navigateLines(direction)] on an integer line index. *)
Definition navigateLines (direction : Z) (this : State) : State :=
  let maxLines := Z.max (Z.of_nat (length (sourceLines this)))
                        (Z.of_nat (length (targetLines this))) in
  {| diffContent := diffContent this;
     sourceLines := sourceLines this;
     targetLines := targetLines this;
     selectedLine := Z.max 0 (Z.min (maxLines - 1) (selectedLine this + direction));
     isFullscreen := isFullscreen this;
     bodyOverflow := bodyOverflow this |}.

Definition toggleFullscreen (this : State) : State :=
  let full := negb (isFullscreen this) in
  {| diffContent := diffContent this;
     sourceLines := sourceLines this;
     targetLines := targetLines this;
     selectedLine := selectedLine this;
     isFullscreen := full;
     bodyOverflow := if full then "hidden" else "" |}.

(** [handleKeyDown] for a key event with [event.key] and
    [event.ctrlKey || event.metaKey]; [handleClose] only dispatches an event
    to the parent. *)
Definition handleKeyDown (key : string) (ctrlOrMeta : bool) (this : State) : State :=
  if negb (isFullscreen this) then this
  else if String.eqb key "Escape" then this
  else if String.eqb key "f" || String.eqb key "F" then
    if ctrlOrMeta then toggleFullscreen this else this
  else if String.eqb key "ArrowUp" then navigateLines (-1) this
  else if String.eqb key "ArrowDown" then navigateLines 1 this
  else this.

Definition countType (s : Status) (lines : list DiffLine) : nat :=
  length (List.filter (λ line, bool_decide (line_type line = Some s)) lines).

(** [get diffStats] *)
Definition diffStats (this : State) : Stats :=
  let allLines := sourceLines this ++ targetLines this in
  {| st_added := countType Added allLines;
     st_removed := countType Removed allLines;
     st_changed := countType Changed allLines;
     st_unchanged := countType Unchanged allLines |}.

(** A line as the component hands it to the viewer. *)
Definition ofLine (l : OrgCompare.DiffLine) : DiffLine :=
  {| lineNumber := OrgCompare.lineNumber l;
     content := OrgCompare.content l;
     line_type := Some (OrgCompare.line_type l) |}.

Definition ofContent (c : OrgCompare.DiffViewerContent) : DiffContent :=
  {| dc_sourceLines := map ofLine (OrgCompare.sourceLines c);
     dc_targetLines := map ofLine (OrgCompare.targetLines c) |}.

End DiffViewer.

(** A viewer that has been handed [c] and has not yet shown anything. *)
Definition exampleViewer (c : option DiffViewer.DiffContent) : DiffViewer.State :=
  {| DiffViewer.diffContent := c;
     DiffViewer.sourceLines := [];
     DiffViewer.targetLines := [];
     DiffViewer.selectedLine := (-1)%Z;
     DiffViewer.isFullscreen := false;
     DiffViewer.bodyOverflow := "" |}.

(** ** String helpers of the component: [stripAnsiCodes],
    [extractMetadataType], [extractMetadataName], [isSalesforceMetadataFile] *)

Definition escape : ascii := "027"%char.

(** A character of the class [[0-9;]]. *)
Definition isParamChar (c : ascii) : bool :=
  (Nat.leb 48 (nat_of_ascii c) && Nat.leb (nat_of_ascii c) 57) || Ascii.eqb c ";"%char.

(** The length of the match of [[0-9;]*m] at the head of [s], if there is
    one: the class does not contain [m], so the longest run of the class
    must be followed by [m]. *)
Fixpoint paramsThenM (s : string) : option nat :=
  match s with
  | EmptyString => None
  | String c rest =>
      if isParamChar c then
        match paramsThenM rest with Some n => Some (S n) | None => None end
      else if Ascii.eqb c "m"%char then Some 1
      else None
  end.

(** Every character of [s] is of the class [[0-9;]]. *)
Fixpoint allParams (s : string) : bool :=
  match s with
  | EmptyString => true
  | String c rest => isParamChar c && allParams rest
  end.

(** The length of the match of [/\x1b\[[0-9;]*m/] at the head of [s]. *)
Definition codeLength (s : string) : option nat :=
  match s with
  | String c1 (String c2 rest) =>
      if Ascii.eqb c1 escape && Ascii.eqb c2 "["%char then
        match paramsThenM rest with Some n => Some (n + 2) | None => None end
      else None
  | _ => None
  end.

(** [text.replace(/\x1b\[[0-9;]*m/g, '')] with [skip] characters of a match
    still to drop. *)
Fixpoint stripFrom (skip : nat) (s : string) : string :=
  match s with
  | EmptyString => ""
  | String c rest =>
      match skip with
      | S k => stripFrom k rest
      | O =>
          match codeLength s with
          | Some n => stripFrom (n - 1) rest
          | None => String c (stripFrom 0 rest)
          end
      end
  end.

Definition stripAnsiCodes (text : option string) : string :=
  match text with
  | Some t => if truthy t then stripFrom 0 t else ""
  | None => ""
  end.

Definition slash : ascii := "/"%char.

Definition extractMetadataType (filePath : string) : string :=
  let parts := split slash filePath in
  if Nat.leb 2 (length parts) then default "" (parts !! 0) else "Unknown".

(** A character of the class [\w]. *)
Definition isWordChar (c : ascii) : bool :=
  let n := nat_of_ascii c in
  (Nat.leb 48 n && Nat.leb n 57) || (Nat.leb 65 n && Nat.leb n 90)
  || (Nat.leb 97 n && Nat.leb n 122) || Nat.eqb n 95.

Fixpoint allWord (s : string) : bool :=
  match s with
  | EmptyString => true
  | String c rest => isWordChar c && allWord rest
  end.

(** [s.replace(/\.\w+$/, '')]: the text from the first dot that is followed,
    up to the end, by one or more word characters is dropped. *)
Fixpoint stripExtension (s : string) : string :=
  match s with
  | EmptyString => ""
  | String c rest =>
      if Ascii.eqb c dot && truthy rest && allWord rest then ""
      else String c (stripExtension rest)
  end.

Definition extractMetadataName (filePath : string) : string :=
  let parts := split slash filePath in
  if Nat.leb 2 (length parts) then stripExtension (default "" (parts !! 1))
  else filePath.

(** [s.lastIndexOf(c)], [None] for [-1]. *)
Fixpoint lastIndexOf (c : ascii) (s : string) : option nat :=
  match s with
  | EmptyString => None
  | String c' rest =>
      match lastIndexOf c rest with
      | Some i => Some (S i)
      | None => if Ascii.eqb c' c then Some 0 else None
      end
  end.

(** [s.substring(start)] for [start >= 0]. *)
Fixpoint substringFrom (start : nat) (s : string) : string :=
  match start, s with
  | O, _ => s
  | S k, String _ rest => substringFrom k rest
  | S _, EmptyString => ""
  end.

Definition metadataExtensions : list string := [
  ".cls"; ".trigger"; ".page"; ".component"; ".object"; ".field";
  ".permissionset"; ".profile"; ".layout"; ".tab"; ".app"; ".workflow";
  ".validationRule"; ".sharingRule"; ".queue"; ".group"; ".role";
  ".customPermission"; ".flow"; ".processBuilder"; ".quickAction";
  ".emailTemplate"; ".letterhead"; ".document"; ".staticresource";
  ".aura"; ".lwc"; ".wave"; ".dashboard"; ".report"; ".reportType"
].

Section MetadataFile.

Variable toLowerCase : string → string.

(** [substring(-1)] starts at 0.  Both indices count the characters of this
    model, which are bytes: the cut is where the code makes it for every
    path whose part before the last dot keeps its length under
    [toLowerCase], as every path of ASCII characters does. *)
Definition fileExtension (filePath : string) : string :=
  substringFrom (default 0 (lastIndexOf dot filePath)) (toLowerCase filePath).

Definition isSalesforceMetadataFile (filePath : string) : bool :=
  let extension := fileExtension filePath in
  bool_decide (extension ∈ metadataExtensions)
  || includes filePath "/force-app/"
  || includes filePath "/metadata/".

End MetadataFile.

(** An upper-case letter of the ASCII range. *)
Definition isUpper (c : ascii) : bool :=
  Nat.leb 65 (nat_of_ascii c) && Nat.leb (nat_of_ascii c) 90.

Fixpoint hasUpper (s : string) : bool :=
  match s with
  | EmptyString => false
  | String c rest => isUpper c || hasUpper rest
  end.

(** The entries of [metadataExtensions] written in lower case only. *)
Definition lowerCaseExtensions : list string :=
  List.filter (λ e, negb (hasUpper e)) metadataExtensions.

(** [toLowerCase] on the ASCII range. *)
Definition lowerChar (c : ascii) : ascii :=
  if isUpper c then ascii_of_nat (nat_of_ascii c + 32) else c.

Fixpoint asciiLower (s : string) : string :=
  match s with
  | EmptyString => ""
  | String c rest => String (lowerChar c) (asciiLower rest)
  end.

(** [s] has no character [c]. *)
Fixpoint lacks (c : ascii) (s : string) : bool :=
  match s with
  | EmptyString => true
  | String c' rest => negb (Ascii.eqb c' c) && lacks c rest
  end.

(** ** The items that retrieval builds: [parseMetadataListResponse] and the
    loop of [retrieveGitMetadata] *)

(** An entry of the result of [sf org list metadata], as far as the code
    reads it. *)
Record ListedMetadata := {
  lm_fullName : string;
  lm_lastModifiedDate : option string;
  lm_lastModifiedByName : option string
}.

(** The object literal pushed by [parseMetadataListResponse]. *)
Definition listedItem (metadataType : string) (metadata : ListedMetadata) : MetadataItem :=
  {| type := metadataType;
     name := lm_fullName metadata;
     fullName := lm_fullName metadata;
     lastModifiedDate := lm_lastModifiedDate metadata;
     lastModifiedBy := Some (orElse (lm_lastModifiedByName metadata) "Unknown");
     status := Some Unchanged;
     sourceValue :=
       Some ("Metadata from " +:+ lm_fullName metadata +:+ " (" +:+ metadataType +:+ ")");
     targetValue := None; diff := None; selected := None;
     statusBadgeClass := None; lastModified := None |}.

Definition parseMetadataListResponse
    (metadataList : list ListedMetadata) (metadataType : string) : list MetadataItem :=
  map (listedItem metadataType) metadataList.

(** The object literal pushed by [retrieveGitMetadata]; [now] is what
    [new Date().toISOString()] gives at that moment. *)
Definition gitItem (now file : string) : MetadataItem :=
  {| type := extractMetadataType file;
     name := extractMetadataName file;
     fullName := file;
     lastModifiedDate := Some now;
     lastModifiedBy := Some "git";
     status := Some Unchanged;
     sourceValue := Some ("Git file: " +:+ file);
     targetValue := None; diff := None; selected := None;
     statusBadgeClass := None; lastModified := None |}.

Section GitListing.

Variable toLowerCase : string → string.
Variable trim : string → string.
(** The clock read when the [i]-th item is pushed. *)
Variable clock : nat → string.

(** [retrieveGitMetadata] from the output of the listing command on. *)
Definition gitMetadataItems (stdout : option string) : list MetadataItem :=
  match stdout with
  | Some out =>
      if truthy out then
        let files := List.filter (λ file, truthy (trim file)) (split newline out) in
        imap (λ i file, gitItem (clock i) file)
             (List.filter (isSalesforceMetadataFile toLowerCase) files)
      else []
  | None => []
  end.

End GitListing.

(** [item] is an item as [retrieveGitMetadata] builds it. *)
Definition fromGit (item : MetadataItem) : Prop :=
  ∃ toLowerCase trim clock stdout,
    item ∈ gitMetadataItems toLowerCase trim clock stdout.

(** [item] is an item as [parseMetadataListResponse] builds it. *)
Definition fromOrgList (item : MetadataItem) : Prop :=
  ∃ metadataList metadataType,
    item ∈ parseMetadataListResponse metadataList metadataType.

(** A store of two git listings of one file. *)
Definition gitStore : store :=
  λ r, match r with
       | 0 => gitItem "2024-01-01T00:00:00.000Z" "force-app/classes/Foo.cls"
       | 1 => gitItem "2024-02-02T00:00:00.000Z" "force-app/classes/Foo.cls"
       | 2 => listedItem "ApexClass"
                {| lm_fullName := "Account"; lm_lastModifiedDate := None;
                   lm_lastModifiedByName := None |}
       | 3 => listedItem "CustomObject"
                {| lm_fullName := "Account"; lm_lastModifiedDate := None;
                   lm_lastModifiedByName := None |}
       | _ => listedItem "ApexClass"
                {| lm_fullName := "force-app/classes/Foo.cls"; lm_lastModifiedDate := None;
                   lm_lastModifiedByName := None |}
       end.

(** ** Sizes of the manifest and the relation between an item and what it
    brings *)

(** The number of member lines of a grouped manifest. *)
Definition memberCount (m : list (string * list string)) : nat :=
  list_sum (map (λ e, length e.2) m).

(** [x] stands to the selected item [i] in one of the relations that the
    cases of the [switch] of [autoWireDependencies] test. *)
Definition broughtBy (σ : store) (i x : ref) : Prop :=
  (type (σ x) = "LightningComponentBundle"
   ∧ ∃ rest, name (σ x) = (name (σ i) +:+ "/") +:+ rest)
  ∨ (type (σ x) = type (σ i) ∧ name (σ x) = name (σ i) +:+ "-meta")
  ∨ ((type (σ x) = "CustomField" ∨ type (σ x) = "Layout")
     ∧ ∃ rest, name (σ x) = (name (σ i) +:+ ".") +:+ rest)
  ∨ (type (σ x) = "CustomObject"
     ∧ lacks dot (name (σ x)) = true
     ∧ ∃ rest, name (σ i) = name (σ x) +:+ String dot rest).

(** ** Package creation: [handleCreatePackage], [createPackageZip],
    [getMetadataDirectory], [getMetadataFileName] *)

(** The property names that every object literal inherits from
    [Object.prototype]. *)
Definition objectPrototypeKeys : list string := [
  "constructor"; "__defineGetter__"; "__defineSetter__"; "hasOwnProperty";
  "__lookupGetter__"; "__lookupSetter__"; "isPrototypeOf";
  "propertyIsEnumerable"; "toString"; "valueOf"; "__proto__"; "toLocaleString"
].

(** The value of [literal[key]] for an object literal with string values. *)
Inductive Property :=
  | Own (value : string)
  | Inherited (key : string)
  | Undefined.

Definition getProperty (literal : list (string * string)) (key : string) : Property :=
  match List.find (λ e, String.eqb e.1 key) literal with
  | Some e => Own e.2
  | None => if bool_decide (key ∈ objectPrototypeKeys) then Inherited key else Undefined
  end.

Definition directoryMap : list (string * string) := [
  ("ApexClass", "classes"); ("ApexTrigger", "triggers");
  ("CustomObject", "objects"); ("CustomField", "objects");
  ("Layout", "layouts"); ("PermissionSet", "permissionsets");
  ("Profile", "profiles"); ("LightningComponentBundle", "lwc");
  ("AuraDefinitionBundle", "aura"); ("StaticResource", "staticresources");
  ("EmailTemplate", "email"); ("Document", "documents"); ("Tab", "tabs");
  ("App", "applications"); ("Workflow", "workflows");
  ("ValidationRule", "objects"); ("SharingRule", "sharingRules");
  ("Queue", "queues"); ("Group", "groups"); ("Role", "roles");
  ("CustomPermission", "customPermissions"); ("Flow", "flows");
  ("ProcessBuilder", "processes"); ("QuickAction", "quickActions");
  ("Letterhead", "letterhead"); ("Wave", "wave"); ("Dashboard", "dashboards");
  ("Report", "reports"); ("ReportType", "reportTypes")
].

Definition extensionMap : list (string * string) := [
  ("ApexClass", ".cls"); ("ApexTrigger", ".trigger");
  ("CustomObject", ".object-meta.xml"); ("CustomField", ".field-meta.xml");
  ("Layout", ".layout-meta.xml"); ("PermissionSet", ".permissionset-meta.xml");
  ("Profile", ".profile-meta.xml"); ("LightningComponentBundle", "");
  ("AuraDefinitionBundle", ""); ("StaticResource", ".resource-meta.xml");
  ("EmailTemplate", ".email-meta.xml"); ("Document", ".document-meta.xml");
  ("Tab", ".tab-meta.xml"); ("App", ".app-meta.xml");
  ("Workflow", ".workflow-meta.xml");
  ("ValidationRule", ".validationRule-meta.xml");
  ("SharingRule", ".sharingRules-meta.xml"); ("Queue", ".queue-meta.xml");
  ("Group", ".group-meta.xml"); ("Role", ".role-meta.xml");
  ("CustomPermission", ".customPermission-meta.xml"); ("Flow", ".flow-meta.xml");
  ("ProcessBuilder", ".process-meta.xml");
  ("QuickAction", ".quickAction-meta.xml"); ("Letterhead", ".letter-meta.xml");
  ("Wave", ".wave-meta.xml"); ("Dashboard", ".dashboard-meta.xml");
  ("Report", ".report-meta.xml"); ("ReportType", ".reportType-meta.xml")
].

Module Package.

Record Toast := {
  message : string;
  variant : string
}.

(** What a call leaves behind: the commands handed to [executeCommand], in
    the order of the calls, and the toast shown. *)
Record Outcome := {
  commands : list string;
  toast : Toast
}.

Section Commands.

(** The text that a template literal gives for the value that
    [Object.prototype] holds under a key. *)
Variable builtinText : string → string.

(** [value || fallback] as a template literal prints it. *)
Definition propertyOr (p : Property) (fallback : string) : string :=
  match p with
  | Own value => if truthy value then value else fallback
  | Inherited key => builtinText key
  | Undefined => fallback
  end.

(** The result is given as the template literal of the caller prints it. *)
Definition getMetadataDirectory (metadataType : string) : string :=
  propertyOr (getProperty directoryMap metadataType) "classes".

Definition getMetadataFileName (metadataType metadataName : string) : string :=
  let extension := propertyOr (getProperty extensionMap metadataType) "" in
  metadataName +:+ extension.

Definition packageDir : string := "./deployment-package".

Definition metadataDirOf (σ : store) (item : ref) : string :=
  packageDir +:+ "/force-app/main/default/" +:+ getMetadataDirectory (type (σ item)).

Definition filePathOf (σ : store) (item : ref) : string :=
  metadataDirOf σ item +:+ "/" +:+ getMetadataFileName (type (σ item)) (name (σ item)).

Definition makeDirectory (dir : string) : string := "mkdir -p " +:+ dir.

Definition writeFile (content path : string) : string :=
  "echo '" +:+ content +:+ "' > " +:+ dq +:+ path +:+ dq.

(** [if (item.sourceValue)] *)
Definition hasContent (σ : store) (item : ref) : bool :=
  truthy (orEmpty (sourceValue (σ item))).

(** The body of the loop over the items. *)
Definition itemCommands (σ : store) (item : ref) : list string :=
  makeDirectory (metadataDirOf σ item)
  :: (if hasContent σ item
      then [writeFile (orEmpty (sourceValue (σ item))) (filePathOf σ item)]
      else []).

(** The calls of [executeCommand] that [createPackageZip] makes, in their
    order.  Nothing in its [try] block throws: [executeCommand] is an
    [async] method, whose calls return promises that are not awaited. *)
Definition packageCommands (σ : store) (items : list ref) : list string :=
  [makeDirectory packageDir;
   "echo '" +:+ generatePackageXml σ items +:+ "' > " +:+ packageDir +:+ "/package.xml"]
  ++ flat_map (itemCommands σ) items
  ++ ["cd " +:+ packageDir +:+ " && zip -r ../deployment-package.zip ."].

Definition createPackageZip (σ : store) (items : list ref) : Outcome :=
  {| commands := packageCommands σ items;
     toast := {| message := "Deployment package created with "
                            +:+ pretty.pretty (length items) +:+ " items";
                 variant := "success" |} |}.

Definition handleCreatePackage (σ : store)
    (comparisonResult : option MetadataComparison) (selectedItems : list ref) : Outcome :=
  if Nat.eqb (length selectedItems) 0 then
    {| commands := [];
       toast := {| message := "Please select items to create a package";
                   variant := "warning" |} |}
  else
    let itemsWithDependencies :=
      autoWireDependenciesWith METADATA_TYPES σ comparisonResult selectedItems in
    createPackageZip σ itemsWithDependencies.

End Commands.

End Package.

(** ** Viewing a diff after a comparison: [handleViewDiff] and the writes of
    [retrieveMetadataContent] *)

(** [item.sourceValue = v] *)
Definition withSourceValue (v : option string) (it : MetadataItem) : MetadataItem :=
  {| type := type it; name := name it; fullName := fullName it;
     lastModifiedDate := lastModifiedDate it; lastModifiedBy := lastModifiedBy it;
     status := status it; sourceValue := v;
     targetValue := targetValue it; diff := diff it; selected := selected it;
     statusBadgeClass := statusBadgeClass it; lastModified := lastModified it |}.

(** One assignment of [retrieveMetadataContent (sourceItem, targetItem)]:
    the content goes to [sourceItem.sourceValue] or to
    [targetItem.targetValue], in the [try] block as in the [catch] block. *)
Inductive contentWrite (sourceItem targetItem : ref) (σ : store) : store → Prop :=
  | write_source (content : string) :
      contentWrite sourceItem targetItem σ
        (<[sourceItem := withSourceValue (Some content) (σ sourceItem)]> σ)
  | write_target (content : string) :
      contentWrite sourceItem targetItem σ
        (<[targetItem := withTargetValue (Some content) (σ targetItem)]> σ).

(** The stores that the calls of [retrieveMetadataContent] started by
    [compareMetadata] lead to as they proceed: each call is for a changed
    source item and the target item that [targetMap] held under its key
    when the comparison ran on the store [σ0]. *)
Inductive contentRetrieved (σ0 : store) (target : list ref) (result : MetadataComparison)
    : store → store → Prop :=
  | retrieved_none (σ : store) : contentRetrieved σ0 target result σ σ
  | retrieved_write (σ σ' σ'' : store) (sourceItem targetItem : ref) :
      sourceItem ∈ changed result →
      lastWithKey σ0 target (fullName (σ0 sourceItem)) = Some targetItem →
      contentWrite sourceItem targetItem σ σ' →
      contentRetrieved σ0 target result σ' σ'' →
      contentRetrieved σ0 target result σ σ''.

(** [this.selectedDiffItem = selectedItem] *)
Definition selectDiffItem (selectedItem : ref) (this : OrgCompare.State) : OrgCompare.State :=
  {| OrgCompare.sourceConfig := OrgCompare.sourceConfig this;
     OrgCompare.targetConfig := OrgCompare.targetConfig this;
     OrgCompare.comparisonResult := OrgCompare.comparisonResult this;
     OrgCompare.selectedDiffItem := Some selectedItem;
     OrgCompare.diffViewerContent := OrgCompare.diffViewerContent this;
     OrgCompare.sourceDiffLabel := OrgCompare.sourceDiffLabel this;
     OrgCompare.targetDiffLabel := OrgCompare.targetDiffLabel this |}.

(** [handleViewDiff] for the value [itemName] of the attribute [data-item];
    the flag [showDiffViewer] is not among the fields of the state. *)
Definition handleViewDiff (itemName : option string) (σ : store) (this : OrgCompare.State)
    : OrgCompare.State :=
  match itemName, OrgCompare.comparisonResult this with
  | Some n, Some result =>
      if truthy n then
        match List.find (λ i, String.eqb (fullName (σ i)) n) (allItems result) with
        | Some selectedItem =>
            OrgCompare.generateDiffContent σ (selectDiffItem selectedItem this)
        | None => this
        end
      else this
  | _, _ => this
  end.

(** The store after [handleCompareClick] has compared item 3 with item 4 of
    [exampleStore], and the one after the arrival of the target content. *)
Definition comparedStore : store :=
  populateItemProperties (OrgCompare.compareMetadata exampleStore [3] [4]).1
    (Some (OrgCompare.compareMetadata exampleStore [3] [4]).2).

Definition retrievedStore : store :=
  <[4 := withTargetValue (Some "Y") (comparedStore 4)]> comparedStore.
(** ** Facts about strings and [split] *)

Lemma truthy_true (s : string) : truthy s = true ↔ s ≠ "".
Proof.
  unfold truthy. destruct (String.eqb_spec s ""); simpl; split; congruence.
Qed.

Lemma truthy_false (s : string) : truthy s = false ↔ s = "".
Proof.
  unfold truthy. destruct (String.eqb_spec s ""); simpl; split; congruence.
Qed.

Lemma split_nonempty (sep : ascii) (s : string) : split sep s ≠ [].
Proof.
  induction s as [|c s IH]; simpl; [done|].
  destruct (Ascii.eqb c sep); [done|].
  by destruct (split sep s).
Qed.

Lemma split_length (sep : ascii) (s : string) :
  length (split sep s) = S (countChar sep s).
Proof.
  induction s as [|c s IH]; simpl; [done|].
  destruct (Ascii.eqb c sep); simpl; [by rewrite IH|].
  pose proof (split_nonempty sep s).
  destruct (split sep s); [done|]. simpl in *. lia.
Qed.

(** Joining the pieces with the separator gives the text back. *)
Lemma join_split (sep : ascii) (s : string) : join sep (split sep s) = s.
Proof.
  induction s as [|c s IH]; simpl; [done|].
  destruct (Ascii.eqb_spec c sep) as [->|Hne].
  - pose proof (split_nonempty sep s).
    simpl. destruct (split sep s); [done|]. by rewrite IH.
  - pose proof (split_nonempty sep s).
    destruct (split sep s) as [|p [|q rest]]; [done| |];
      rewrite <- IH; reflexivity.
Qed.

Lemma map_seq_lookup {A} (f : nat → A) (n i : nat) :
  i < n → map f (seq 0 n) !! i = Some (f i).
Proof.
  intros Hi. change (map f (seq 0 n)) with (f <$> seq 0 n).
  rewrite list_lookup_fmap, lookup_seq_lt by done. done.
Qed.

Lemma view_lineType_cases (s t : string) :
  (s = t → OrgCompare.lineType s t = Unchanged) ∧
  (s ≠ "" → t = "" → OrgCompare.lineType s t = Added) ∧
  (s = "" → t ≠ "" → OrgCompare.lineType s t = Removed) ∧
  (s ≠ "" → t ≠ "" → s ≠ t → OrgCompare.lineType s t = Changed).
Proof.
  unfold OrgCompare.lineType.
  destruct (String.eqb_spec s t) as [Heq|Hne]; simpl.
  - repeat split; intros; subst; congruence.
  - destruct (truthy s) eqn:Hs, (truthy t) eqn:Ht; simpl;
      rewrite ?truthy_true, ?truthy_false in *; repeat split; intros; congruence.
Qed.

Lemma inline_lineType_cases (s t : string) :
  (s = t → OrgCompareInline.lineType s t = Unchanged) ∧
  (s ≠ "" → t = "" → OrgCompareInline.lineType s t = Removed) ∧
  (s = "" → t ≠ "" → OrgCompareInline.lineType s t = Added) ∧
  (s ≠ "" → t ≠ "" → s ≠ t → OrgCompareInline.lineType s t = Changed).
Proof.
  unfold OrgCompareInline.lineType.
  destruct (String.eqb_spec s t) as [Heq|Hne]; simpl.
  - repeat split; intros; subst; congruence.
  - destruct (truthy s) eqn:Hs, (truthy t) eqn:Ht; simpl;
      rewrite ?truthy_true, ?truthy_false in *; repeat split; intros; congruence.
Qed.

(** ** Line diff *)

Section DiffRows.

Variable σ : store.
Variable it : ref.

Let srcLines := split newline (orEmpty (sourceValue (σ it))).
Let tgtLines := split newline (orEmpty (targetValue (σ it))).
Let maxLines := Nat.max (length srcLines) (length tgtLines).

Lemma view_rows (this : OrgCompare.State) :
  OrgCompare.selectedDiffItem this = Some it →
  OrgCompare.diffViewerContent (OrgCompare.generateDiffContent σ this) =
    {| OrgCompare.sourceLines :=
         map fst (map (OrgCompare.diffRow srcLines tgtLines) (seq 0 maxLines));
       OrgCompare.targetLines :=
         map snd (map (OrgCompare.diffRow srcLines tgtLines) (seq 0 maxLines)) |}.
Proof. intros H. unfold OrgCompare.generateDiffContent. by rewrite H. Qed.

Lemma inline_rows (this : OrgCompareInline.State) :
  OrgCompareInline.selectedDiffItem this = Some it →
  OrgCompareInline.diffContent (OrgCompareInline.generateDiffContent σ this) =
    Some {| OrgCompareInline.diffLines :=
              map (OrgCompareInline.diffRow srcLines tgtLines) (seq 0 maxLines) |}.
Proof. intros H. unfold OrgCompareInline.generateDiffContent. by rewrite H. Qed.

Lemma view_source_row (this : OrgCompare.State) (i : nat) :
  OrgCompare.selectedDiffItem this = Some it → i < maxLines →
  OrgCompare.sourceLines
    (OrgCompare.diffViewerContent (OrgCompare.generateDiffContent σ this)) !! i
  = Some (OrgCompare.diffRow srcLines tgtLines i).1.
Proof.
  intros H Hi. rewrite (view_rows _ H). simpl.
  rewrite map_map. by rewrite map_seq_lookup.
Qed.

Lemma view_target_row (this : OrgCompare.State) (i : nat) :
  OrgCompare.selectedDiffItem this = Some it → i < maxLines →
  OrgCompare.targetLines
    (OrgCompare.diffViewerContent (OrgCompare.generateDiffContent σ this)) !! i
  = Some (OrgCompare.diffRow srcLines tgtLines i).2.
Proof.
  intros H Hi. rewrite (view_rows _ H). simpl.
  rewrite map_map. by rewrite map_seq_lookup.
Qed.

End DiffRows.

(** C8. For the selected item with texts [a] (source) and [b] (target),
    [generateDiffContent] produces exactly [max (lineCount a) (lineCount b)]
    rows, where the lines of a text are its pieces between newlines: both
    columns of the side-by-side view and the [diffLines] of the inline
    version have that length, rows are numbered from 1, and a row beyond the
    end of the shorter text carries the empty string on that side. *)
Theorem generateDiffContent_line_count
    (σ : store) (it : ref)
    (view : OrgCompare.State) (inline : OrgCompareInline.State)
    (Hview : OrgCompare.selectedDiffItem view = Some it)
    (Hinline : OrgCompareInline.selectedDiffItem inline = Some it) :
  let a := orEmpty (sourceValue (σ it)) in
  let b := orEmpty (targetValue (σ it)) in
  let lineCount := λ text, length (split newline text) in
  let out := OrgCompare.diffViewerContent (OrgCompare.generateDiffContent σ view) in
  length (OrgCompare.sourceLines out) = Nat.max (lineCount a) (lineCount b) ∧
  length (OrgCompare.targetLines out) = Nat.max (lineCount a) (lineCount b) ∧
  (∃ d, OrgCompareInline.diffContent (OrgCompareInline.generateDiffContent σ inline) = Some d
        ∧ length (OrgCompareInline.diffLines d) = Nat.max (lineCount a) (lineCount b)
        ∧ ∀ i, i < Nat.max (lineCount a) (lineCount b) →
            ∃ row, OrgCompareInline.diffLines d !! i = Some row
                 ∧ OrgCompareInline.lineNumber row = i + 1
                 ∧ ((lineCount a ≤ i)%nat → OrgCompareInline.sourceContent row = "")
                 ∧ ((lineCount b ≤ i)%nat → OrgCompareInline.targetContent row = "")) ∧
  (∀ i, i < Nat.max (lineCount a) (lineCount b) →
     ∃ srow trow,
       OrgCompare.sourceLines out !! i = Some srow
       ∧ OrgCompare.targetLines out !! i = Some trow
       ∧ OrgCompare.lineNumber srow = i + 1 ∧ OrgCompare.lineNumber trow = i + 1
       ∧ ((lineCount a ≤ i)%nat → OrgCompare.content srow = "")
       ∧ ((lineCount b ≤ i)%nat → OrgCompare.content trow = "")).
Proof.
  intros a b lineCount out. subst out.
  rewrite (view_rows σ it view Hview). simpl.
  rewrite !length_map, length_seq.
  split; [done|]. split; [done|]. split.
  - eexists. split; [by apply inline_rows|]. simpl.
    rewrite length_map, length_seq. split; [done|].
    intros i Hi. eexists. split; [by apply map_seq_lookup|].
    simpl. split; [done|].
    split; intros Hge; by rewrite lookup_ge_None_2.
  - intros i Hi. do 2 eexists.
    rewrite !map_map.
    split; [by apply map_seq_lookup|].
    split; [by apply map_seq_lookup|].
    simpl. split; [done|]. split; [done|].
    split; intros Hge; by rewrite lookup_ge_None_2.
Qed.

Lemma generateDiffContent_line_count_witness :
  length (OrgCompare.sourceLines
            (OrgCompare.diffViewerContent
               (OrgCompare.generateDiffContent exampleStore (exampleView None (Some 5))))) = 3.
Proof.
  exact (proj1 (generateDiffContent_line_count exampleStore 5
                  (exampleView None (Some 5)) (exampleInline None (Some 5)) eq_refl eq_refl)).
Defined.

Lemma inline_lineType_spec (s t : string) :
  OrgCompareInline.lineType s t = specLineType s t.
Proof.
  unfold OrgCompareInline.lineType, specLineType.
  destruct (String.eqb_spec s t) as [Heq|Hne]; simpl.
  - by rewrite decide_True.
  - rewrite decide_False by done.
    destruct (truthy s) eqn:Hs, (truthy t) eqn:Ht; simpl;
      rewrite ?truthy_true, ?truthy_false in *;
      repeat destruct (decide _) as [?|?]; intuition congruence.
Qed.

(** C5, claim as stated, fails for the side-by-side view: the third line of
    the example has text only on the source (left) side and is labelled
    added, where the claim says removed. *)
Lemma generateDiffContent_labels_counterexample :
  let out := OrgCompare.diffViewerContent
               (OrgCompare.generateDiffContent exampleStore (exampleView None (Some 5))) in
  ¬ (∀ i srow trow,
       OrgCompare.sourceLines out !! i = Some srow →
       OrgCompare.targetLines out !! i = Some trow →
       OrgCompare.line_type srow
       = specLineType (OrgCompare.content srow) (OrgCompare.content trow)).
Proof.
  intros out H.
  specialize (H 2 _ _ eq_refl eq_refl).
  vm_compute in H. discriminate H.
Qed.

(** C5, amended. At every index [i] of the diff, with [s] and [t] the source
    and target lines there (the empty string past the end of a text): the
    row is unchanged when [s = t] and changed when both are non-empty and
    different, in both versions. A line present on one side only is
    labelled, in the side-by-side view, added when the source line is
    non-empty and the target line empty, and removed when the source line is
    empty and the target line non-empty; in the inline [diffLines] version
    it is labelled the other way round, which is the labelling of the
    specification. *)
Theorem generateDiffContent_labels
    (σ : store) (it : ref)
    (view : OrgCompare.State) (inline : OrgCompareInline.State)
    (Hview : OrgCompare.selectedDiffItem view = Some it)
    (Hinline : OrgCompareInline.selectedDiffItem inline = Some it) :
  let srcLines := split newline (orEmpty (sourceValue (σ it))) in
  let tgtLines := split newline (orEmpty (targetValue (σ it))) in
  let out := OrgCompare.diffViewerContent (OrgCompare.generateDiffContent σ view) in
  ∀ i, i < Nat.max (length srcLines) (length tgtLines) →
    let s := orEmpty (srcLines !! i) in
    let t := orEmpty (tgtLines !! i) in
    ∃ srow trow d row,
      OrgCompare.sourceLines out !! i = Some srow
      ∧ OrgCompare.targetLines out !! i = Some trow
      ∧ OrgCompareInline.diffContent (OrgCompareInline.generateDiffContent σ inline) = Some d
      ∧ OrgCompareInline.diffLines d !! i = Some row
      ∧ OrgCompare.content srow = s ∧ OrgCompare.content trow = t
      ∧ OrgCompareInline.sourceContent row = s ∧ OrgCompareInline.targetContent row = t
      ∧ OrgCompare.line_type trow = OrgCompare.line_type srow
      ∧ (s = t →
           OrgCompare.line_type srow = Unchanged
           ∧ OrgCompareInline.line_type row = Unchanged)
      ∧ (s ≠ "" → t = "" →
           OrgCompare.line_type srow = Added
           ∧ OrgCompareInline.line_type row = Removed)
      ∧ (s = "" → t ≠ "" →
           OrgCompare.line_type srow = Removed
           ∧ OrgCompareInline.line_type row = Added)
      ∧ (s ≠ "" → t ≠ "" → s ≠ t →
           OrgCompare.line_type srow = Changed
           ∧ OrgCompareInline.line_type row = Changed)
      ∧ OrgCompareInline.line_type row = specLineType s t.
Proof.
  intros srcLines tgtLines out i Hi s t.
  pose proof (view_lineType_cases s t) as (Hv1 & Hv2 & Hv3 & Hv4).
  pose proof (inline_lineType_cases s t) as (Hi1 & Hi2 & Hi3 & Hi4).
  eexists _, _, _, _.
  split; [by apply view_source_row|].
  split; [by apply view_target_row|].
  split; [by apply inline_rows|].
  split; [by apply map_seq_lookup|].
  simpl. repeat (split; [done|]).
  repeat split; auto using inline_lineType_spec.
Qed.

Lemma generateDiffContent_labels_witness :
  ∃ srow,
    OrgCompare.sourceLines
      (OrgCompare.diffViewerContent
         (OrgCompare.generateDiffContent exampleStore (exampleView None (Some 5)))) !! 2
    = Some srow
    ∧ OrgCompare.line_type srow = Added.
Proof.
  destruct (generateDiffContent_labels exampleStore 5
              (exampleView None (Some 5)) (exampleInline None (Some 5)) eq_refl eq_refl 2)
    as (srow & trow & d & row & Hs & _ & _ & _ & _ & _ & _ & _ & _ & _ & Hadd & _).
  - vm_compute. lia.
  - exists srow. split; [exact Hs|]. apply Hadd; vm_compute; congruence.
Defined.

(** ** Manifest *)

Lemma append_assoc (a b c : string) : (a +:+ b) +:+ c = a +:+ (b +:+ c).
Proof.
  induction a as [|x a IH]; [done|].
  change (String x ((a +:+ b) +:+ c) = String x (a +:+ (b +:+ c))).
  by rewrite IH.
Qed.

Lemma append_empty_r (a : string) : a +:+ "" = a.
Proof.
  induction a as [|x a IH]; [done|].
  change (String x (a +:+ "") = String x a). by rewrite IH.
Qed.

Lemma members_acc (p : string) (names : list string) :
  foldl (λ acc n, acc +:+ memberLine n) p names
  = p +:+ concatStr (map memberLine names).
Proof.
  revert p. induction names as [|n names IH]; intros p; simpl.
  - by rewrite append_empty_r.
  - by rewrite IH, append_assoc.
Qed.

Lemma appendTypes_block (p : string) (entry : string * list string) :
  appendTypes p entry = p +:+ typesBlock entry.
Proof.
  destruct entry as [t names]. unfold appendTypes, typesBlock. simpl.
  rewrite members_acc. by rewrite !append_assoc.
Qed.

Lemma types_acc (p : string) (m : list (string * list string)) :
  foldl appendTypes p m = p +:+ concatStr (map typesBlock m).
Proof.
  revert p. induction m as [|e m IH]; intros p; simpl.
  - by rewrite append_empty_r.
  - by rewrite IH, appendTypes_block, append_assoc.
Qed.

Lemma generatePackageXml_envelope (σ : store) (items : list ref) :
  generatePackageXml σ items
  = xmlHeader +:+ concatStr (map typesBlock (groupByType σ items)) +:+ xmlFooter.
Proof.
  unfold generatePackageXml, xmlHeader, xmlFooter.
  rewrite types_acc. by rewrite !append_assoc.
Qed.

(** C10. For the empty list the manifest is the fixed envelope alone: the
    XML declaration, the [Package] open tag with the metadata namespace,
    the version line 58.0 and the closing tag, with no [<types>] element.
    For every list the output is that header, then one [<types>] element
    per type, then that footer. *)
Theorem generatePackageXml_fixed_envelope :
  xmlHeader = "<?xml version=" +:+ dq +:+ "1.0" +:+ dq +:+ " encoding=" +:+ dq
              +:+ "UTF-8" +:+ dq +:+ "?>" +:+ nl
              +:+ "<Package xmlns=" +:+ dq
              +:+ "http://soap.sforce.com/2006/04/metadata" +:+ dq +:+ ">" +:+ nl
  ∧ xmlFooter = "  <version>58.0</version>" +:+ nl +:+ "</Package>"
  ∧ (∀ σ, generatePackageXml σ [] = xmlHeader +:+ xmlFooter)
  ∧ (∀ σ, occurrences "<types>" (generatePackageXml σ []) = 0)
  ∧ (∀ σ items, ∃ body,
       generatePackageXml σ items = xmlHeader +:+ body +:+ xmlFooter
       ∧ body = concatStr (map typesBlock (groupByType σ items))).
Proof.
  split; [reflexivity|]. split; [reflexivity|].
  split; [reflexivity|]. split; [reflexivity|].
  intros σ items. eexists. split; [apply generatePackageXml_envelope|done].
Qed.

Lemma firstSeen_snoc (l : list string) (t : string) :
  firstSeen (l ++ [t])
  = if decide (t ∈ firstSeen l) then firstSeen l else firstSeen l ++ [t].
Proof. unfold firstSeen. by rewrite foldl_app. Qed.

Lemma elem_of_firstSeen (l : list string) (t : string) :
  t ∈ firstSeen l ↔ t ∈ l.
Proof.
  induction l as [|x l IH] using rev_ind; [done|].
  rewrite firstSeen_snoc, elem_of_app, list_elem_of_singleton.
  case_decide as Hx.
  - rewrite IH. split; [by left|]. intros [Hl| ->]; [done|]. by apply IH.
  - by rewrite elem_of_app, list_elem_of_singleton, IH.
Qed.

Lemma NoDup_firstSeen (l : list string) : NoDup (firstSeen l).
Proof.
  induction l as [|x l IH] using rev_ind; [constructor|].
  rewrite firstSeen_snoc. case_decide as Hx; [done|].
  apply list.NoDup_app. split_and!; [done| |apply NoDup_singleton].
  intros y Hy ->%list_elem_of_singleton. done.
Qed.

Lemma hasType_elem (m : list (string * list string)) (t : string) :
  hasType m t = bool_decide (t ∈ map fst m).
Proof.
  induction m as [|[x ns] m IH]; simpl; [done|].
  rewrite IH. destruct (String.eqb_spec x t) as [->|Hne]; simpl.
  - symmetry. apply bool_decide_eq_true_2. left.
  - apply bool_decide_ext. rewrite elem_of_cons. simpl. intuition congruence.
Qed.

Lemma pushName_new (m : list (string * list string)) (t n : string) (ns : list string) :
  t ∉ map fst m →
  pushName (m ++ [(t, ns)]) t n = m ++ [(t, ns ++ [n])].
Proof.
  induction m as [|[x xs] m IH]; simpl; intros Hnot.
  - by rewrite String.eqb_refl.
  - apply not_elem_of_cons in Hnot as [Hne Hnot].
    destruct (String.eqb_spec x t) as [->|_]; [done|].
    by rewrite IH.
Qed.

Lemma pushName_entries (f : string → list string) (ts : list string) (t n : string) :
  NoDup ts →
  pushName (map (λ t', (t', f t')) ts) t n
  = map (λ t', (t', if decide (t' = t) then f t' ++ [n] else f t')) ts.
Proof.
  induction 1 as [|x ts Hx Hnd IH]; simpl; [done|].
  destruct (String.eqb_spec x t) as [->|Hne].
  - rewrite decide_True by done. f_equal.
    apply map_ext_in. intros y Hy%list_elem_of_In.
    rewrite decide_False; [done|]. by intros ->.
  - rewrite decide_False by done. by rewrite IH.
Qed.

Lemma namesOfType_snoc (σ : store) (t : string) (items : list ref) (r : ref) :
  namesOfType σ t (items ++ [r])
  = if decide (type (σ r) = t) then namesOfType σ t items ++ [name (σ r)]
    else namesOfType σ t items.
Proof.
  unfold namesOfType. rewrite List.filter_app, map_app. simpl.
  destruct (String.eqb_spec (type (σ r)) t); case_decide; try done.
  simpl. by rewrite app_nil_r.
Qed.

Lemma namesOfType_absent (σ : store) (t : string) (items : list ref) :
  t ∉ map (λ r, type (σ r)) items → namesOfType σ t items = [].
Proof.
  unfold namesOfType. induction items as [|r items IH]; simpl; [done|].
  intros [Hne Hnot]%not_elem_of_cons.
  destruct (String.eqb_spec (type (σ r)) t) as [Heq|_]; [by destruct Hne|].
  by apply IH.
Qed.

(** The grouped manifest: the types in the order in which they first occur,
    each with the names of its items in the order of the input. *)
Lemma groupByType_spec (σ : store) (items : list ref) :
  groupByType σ items
  = map (λ t, (t, namesOfType σ t items))
        (firstSeen (map (λ r, type (σ r)) items)).
Proof.
  induction items as [|r items IH] using rev_ind; [done|].
  unfold groupByType in *. rewrite foldl_app. simpl. rewrite IH.
  unfold collect. rewrite map_app. simpl. rewrite firstSeen_snoc.
  pose proof (NoDup_firstSeen (map (λ r0, type (σ r0)) items)) as Hnd.
  set (ts := firstSeen (map (λ r0, type (σ r0)) items)) in *.
  rewrite hasType_elem, map_map. simpl. rewrite map_id.
  case_bool_decide as Hin.
  - rewrite decide_True by done.
    rewrite (pushName_entries (λ t, namesOfType σ t items)) by done.
    apply map_ext. intros t. f_equal. rewrite namesOfType_snoc.
    repeat case_decide; congruence.
  - rewrite decide_False by done.
    rewrite pushName_new by (by rewrite map_map, map_id).
    rewrite map_app. simpl. f_equal.
    + apply map_ext_in. intros t Ht%list_elem_of_In. f_equal.
      rewrite namesOfType_snoc. rewrite decide_False; [done|].
      intros <-. done.
    + rewrite namesOfType_snoc, decide_True by done.
      rewrite namesOfType_absent; [done|].
      intros Habs. apply Hin. by apply elem_of_firstSeen.
Qed.

Lemma membersOf_entries (f : string → list string) (ts : list string) (t : string) :
  membersOf (map (λ t', (t', f t')) ts) t = if decide (t ∈ ts) then f t else [].
Proof.
  unfold membersOf. induction ts as [|x ts IH]; cbn [map List.find fst snd].
  - by destruct (decide (t ∈ [])) as [?%elem_of_nil|].
  - destruct (String.eqb_spec x t) as [->|Hne].
    + rewrite decide_True; [done|left].
    + rewrite IH. apply decide_ext. rewrite elem_of_cons. intuition congruence.
Qed.

Lemma membersOf_groupByType (σ : store) (items : list ref) (t : string) :
  membersOf (groupByType σ items) t = namesOfType σ t items.
Proof.
  rewrite groupByType_spec, (membersOf_entries (λ t, namesOfType σ t items)).
  case_decide as Hin; [done|].
  symmetry. apply namesOfType_absent. by rewrite <- elem_of_firstSeen.
Qed.

Lemma count_namesOfType (σ : store) (items : list ref) (t n : string) :
  count_occ string_dec (namesOfType σ t items) n
  = length (List.filter (λ r, String.eqb (type (σ r)) t && String.eqb (name (σ r)) n) items).
Proof.
  unfold namesOfType. induction items as [|r items IH]; simpl; [done|].
  destruct (String.eqb_spec (type (σ r)) t) as [_|_]; simpl; [|done].
  destruct (String.eqb_spec (name (σ r)) n) as [Heq|Hne]; simpl.
  - rewrite IH. by destruct (string_dec (name (σ r)) n).
  - rewrite IH. by destruct (string_dec (name (σ r)) n).
Qed.

(** C6, claim as stated, fails: two items of type [ApexClass] named [Foo]
    give a manifest whose [ApexClass] element lists [Foo] twice. *)
Lemma generatePackageXml_duplicates_counterexample :
  type (exampleStore 3) = type (exampleStore 4)
  ∧ name (exampleStore 3) = name (exampleStore 4)
  ∧ membersOf (groupByType exampleStore [3; 4]) "ApexClass" = ["Foo"; "Foo"]
  ∧ occurrences "<members>Foo</members>" (generatePackageXml exampleStore [3; 4]) = 2
  ∧ occurrences "<members>Foo</members>" (generatePackageXml exampleStore [3; 3]) = 2.
Proof. repeat split; vm_compute; reflexivity. Qed.

(** C6, amended. The manifest does not collapse duplicates: under each type
    it lists the names of the items of that type, one per item and in input
    order, so a name appears under a type as many times as the list has items
    of that type and name; the serialized output carries one member line per
    listed name. *)
Theorem generatePackageXml_members (σ : store) (items : list ref) (t n : string) :
  membersOf (groupByType σ items) t = namesOfType σ t items
  ∧ count_occ string_dec (membersOf (groupByType σ items) t) n
    = length (List.filter (λ r, String.eqb (type (σ r)) t
                                && String.eqb (name (σ r)) n) items)
  ∧ generatePackageXml σ items
    = xmlHeader +:+ concatStr (map typesBlock (groupByType σ items)) +:+ xmlFooter
  ∧ (∀ names,
       typesBlock (t, names)
       = ("  <types>" +:+ nl)
         +:+ concatStr (map (λ m, "    <members>" +:+ m +:+ "</members>" +:+ nl) names)
         +:+ ("    <name>" +:+ t +:+ "</name>" +:+ nl)
         +:+ ("  </types>" +:+ nl)).
Proof.
  split; [apply membersOf_groupByType|].
  split; [rewrite membersOf_groupByType; apply count_namesOfType|].
  split; [apply generatePackageXml_envelope|done].
Qed.

(** C2, claim as stated, fails: the object before the class and the class
    before the object give different manifests. *)
Lemma generatePackageXml_shuffle_counterexample :
  [1; 3] ≡ₚ [3; 1]
  ∧ generatePackageXml exampleStore [1; 3] ≠ generatePackageXml exampleStore [3; 1].
Proof.
  split; [apply perm_swap|].
  intros H. vm_compute in H. discriminate H.
Qed.

Lemma firstSeen_lookup_lt (l : list string) (i : nat) (t : string) :
  firstSeen l !! i = Some t → ∃ k, l !! k = Some t.
Proof.
  intros Hi. apply list_elem_of_lookup.
  apply elem_of_firstSeen, list_elem_of_lookup. by exists i.
Qed.

(** The order of [firstSeen l] is the order of first occurrence in [l]: an
    element listed before another occurs in [l] before any occurrence of
    the other. *)
Lemma firstSeen_order (l : list string) (i j : nat) (t u : string) :
  firstSeen l !! i = Some t → firstSeen l !! j = Some u → (i < j)%nat →
  ∃ k, l !! k = Some t ∧ u ∉ take (S k) l.
Proof.
  revert i j t u. induction l as [|x l IH] using rev_ind; intros i j t u; [done|].
  rewrite firstSeen_snoc. case_decide as Hx.
  - intros Hi Hj Hlt. destruct (IH i j t u Hi Hj Hlt) as (k & Hk & Hu).
    pose proof (lookup_lt_Some _ _ _ Hk) as Hlen.
    exists k. split; [by apply lookup_app_l_Some|].
    rewrite take_app_le by lia. done.
  - intros Hi Hj Hlt.
    pose proof (lookup_lt_Some _ _ _ Hj) as Hjlen.
    rewrite length_app in Hjlen. cbn [length] in Hjlen.
    assert (i < length (firstSeen l))%nat as Hilen by lia.
    rewrite lookup_app_l in Hi by done.
    destruct (decide (j < length (firstSeen l))%nat) as [Hjl|Hjl].
    + rewrite lookup_app_l in Hj by done.
      destruct (IH i j t u Hi Hj Hlt) as (k & Hk & Hu).
      pose proof (lookup_lt_Some _ _ _ Hk) as Hlen.
      exists k. split; [by apply lookup_app_l_Some|].
      rewrite take_app_le by lia. done.
    + rewrite lookup_app_r in Hj by lia.
      replace (j - length (firstSeen l))%nat with 0%nat in Hj by lia.
      injection Hj as <-.
      destruct (firstSeen_lookup_lt l i t Hi) as (k & Hk).
      pose proof (lookup_lt_Some _ _ _ Hk) as Hlen.
      exists k. split; [by apply lookup_app_l_Some|].
      rewrite take_app_le by lia.
      intros Hin. apply Hx, elem_of_firstSeen.
      by apply (subseteq_take (S k) l).
Qed.

(** C2, amended. For every permutation of the items the manifest has the
    same types and, under each type, the same member names with the same
    multiplicities; types are written in the order in which they first occur
    and members in input order, so the serialized output is byte-identical
    whenever the two lists agree on the order of first occurrence of the
    types and on the order of the names of each type.  The order of the
    types is stated twice: the grouped manifest is the list of the distinct
    types in order of first occurrence, each with the names of its items in
    input order, and a type written before another occurs in the input
    before any item of the other. *)
Theorem generatePackageXml_permutation (σ : store) (items items' : list ref) :
  items ≡ₚ items' →
  groupByType σ items
  = map (λ t, (t, namesOfType σ t items)) (firstSeen (map (λ r, type (σ r)) items))
  ∧ (∀ i j t u,
       map fst (groupByType σ items) !! i = Some t →
       map fst (groupByType σ items) !! j = Some u → (i < j)%nat →
       ∃ k, map (λ r, type (σ r)) items !! k = Some t
            ∧ u ∉ take (S k) (map (λ r, type (σ r)) items))
  ∧ generatePackageXml σ items
    = xmlHeader +:+ concatStr (map typesBlock (groupByType σ items)) +:+ xmlFooter
  ∧ map fst (groupByType σ items) ≡ₚ map fst (groupByType σ items')
  ∧ NoDup (map fst (groupByType σ items))
  ∧ (∀ t, membersOf (groupByType σ items) t ≡ₚ membersOf (groupByType σ items') t)
  ∧ (firstSeen (map (λ r, type (σ r)) items) = firstSeen (map (λ r, type (σ r)) items') →
     (∀ t, namesOfType σ t items = namesOfType σ t items') →
     generatePackageXml σ items = generatePackageXml σ items').
Proof.
  intros Hperm.
  assert (∀ l, map fst (groupByType σ l) = firstSeen (map (λ r, type (σ r)) l)) as Hfst.
  { intros l. rewrite groupByType_spec, map_map. simpl. apply map_id. }
  split_and!.
  - apply groupByType_spec.
  - intros i j t u. rewrite Hfst. apply firstSeen_order.
  - apply generatePackageXml_envelope.
  - rewrite !Hfst. apply NoDup_Permutation; [apply NoDup_firstSeen..|].
    intros t. rewrite !elem_of_firstSeen.
    change (map (λ r, type (σ r)) items) with ((λ r, type (σ r)) <$> items).
    change (map (λ r, type (σ r)) items') with ((λ r, type (σ r)) <$> items').
    by rewrite Hperm.
  - rewrite Hfst. apply NoDup_firstSeen.
  - intros t. rewrite !membersOf_groupByType. unfold namesOfType.
    apply Permutation_map.
    induction Hperm; simpl; repeat case_match; eauto using Permutation.
  - intros Hts Hnames. rewrite !generatePackageXml_envelope, !groupByType_spec.
    rewrite Hts.
    rewrite (map_ext (λ t, (t, namesOfType σ t items))
                     (λ t, (t, namesOfType σ t items')));
      [done|]. intros t. by rewrite Hnames.
Qed.

Lemma generatePackageXml_permutation_witness :
  generatePackageXml exampleStore [3; 1; 4] = generatePackageXml exampleStore [3; 4; 1].
Proof.
  apply (generatePackageXml_permutation exampleStore [3; 1; 4] [3; 4; 1]).
  - apply perm_skip, perm_swap.
  - reflexivity.
  - intros t. unfold namesOfType. cbn -[String.eqb].
    destruct (String.eqb_spec "ApexClass" t) as [<-|_];
      [reflexivity | destruct (String.eqb "CustomObject" t); reflexivity].
Defined.

(** ** Dependency auto-wiring *)

Lemma elem_of_setAdd (s : list ref) (r x : ref) :
  x ∈ setAdd s r ↔ x ∈ s ∨ x = r.
Proof.
  unfold setAdd. case_decide as Hin.
  - split; [by left|]. intros [Hx| ->]; done.
  - by rewrite elem_of_app, list_elem_of_singleton.
Qed.

Lemma NoDup_setAdd (s : list ref) (r : ref) : NoDup s → NoDup (setAdd s r).
Proof.
  intros Hnd. unfold setAdd. case_decide as Hin; [done|].
  apply list.NoDup_app. split_and!; [done| |apply NoDup_singleton].
  intros y Hy ->%list_elem_of_singleton. done.
Qed.

Lemma elem_of_foldl_setAdd (l s : list ref) (x : ref) :
  x ∈ foldl setAdd s l ↔ x ∈ s ∨ x ∈ l.
Proof.
  revert s. induction l as [|r l IH]; intros s; simpl.
  - split; [by left|]. intros [Hx|Hx]; [done|]. by apply elem_of_nil in Hx.
  - rewrite IH, elem_of_setAdd, elem_of_cons. tauto.
Qed.

Lemma NoDup_foldl_setAdd (l s : list ref) : NoDup s → NoDup (foldl setAdd s l).
Proof.
  revert s. induction l as [|r l IH]; intros s Hnd; simpl; [done|].
  by apply IH, NoDup_setAdd.
Qed.

Section AutoWireFacts.

Variable table : list MetadataTypeConfig.
Variable σ : store.
Variable comparisonResult : option MetadataComparison.

Local Abbreviation cands := (candidates table σ comparisonResult).
Local Abbreviation wire1 := (wire table σ comparisonResult).
Local Abbreviation expand := (autoWireDependenciesWith table σ comparisonResult).

Lemma wire_unfold (s : list ref) (i : ref) :
  wire1 s i = foldl setAdd s (i :: cands i).
Proof. done. Qed.

(** One pass: the selected items, each followed by what it brings. *)
Lemma foldl_wire (sel s : list ref) :
  foldl wire1 s sel = foldl setAdd s (flat_map (λ i, i :: cands i) sel).
Proof.
  revert s. induction sel as [|i sel IH]; intros s; [done|].
  cbn [foldl flat_map]. rewrite IH, wire_unfold.
  change (i :: cands i ++ flat_map (λ i0, i0 :: cands i0) sel)
    with ((i :: cands i) ++ flat_map (λ i0, i0 :: cands i0) sel).
  by rewrite foldl_app.
Qed.

Lemma elem_of_expand (sel : list ref) (x : ref) :
  x ∈ expand sel ↔ x ∈ sel ∨ ∃ i, i ∈ sel ∧ x ∈ cands i.
Proof.
  unfold autoWireDependenciesWith. rewrite foldl_wire, elem_of_foldl_setAdd.
  split.
  - intros [Hx|Hx]; [by apply elem_of_nil in Hx|].
    apply list_elem_of_In, in_flat_map in Hx as (i & Hi & Hx).
    apply list_elem_of_In in Hi. destruct Hx as [<-|Hx]; [by left|].
    right. exists i. split; [done|by apply list_elem_of_In].
  - intros Hx. right. apply list_elem_of_In, in_flat_map.
    destruct Hx as [Hx|(i & Hi & Hx)].
    + exists x. split; [by apply list_elem_of_In|by left].
    + exists i. split; [by apply list_elem_of_In|].
      right. by apply list_elem_of_In.
Qed.

Lemma NoDup_expand (sel : list ref) : NoDup (expand sel).
Proof.
  unfold autoWireDependenciesWith. rewrite foldl_wire.
  apply NoDup_foldl_setAdd. constructor.
Qed.

Lemma elem_of_optList_find (p : ref → bool) (l : list ref) (x : ref) :
  x ∈ optList (List.find p l) → x ∈ l.
Proof.
  destruct (List.find p l) as [y|] eqn:Hf; simpl.
  - intros ->%list_elem_of_singleton.
    apply List.find_some in Hf as [Hin _]. by apply list_elem_of_In.
  - by intros ?%elem_of_nil.
Qed.

Lemma candidates_universe (i x : ref) :
  x ∈ cands i →
  ∃ result, comparisonResult = Some result ∧ x ∈ allItems result.
Proof.
  unfold candidates, related.
  destruct (typeConfigOf table σ i) as [c|]; [|by intros ?%elem_of_nil].
  destruct (autoWire c) as [rule|]; [|by intros ?%elem_of_nil].
  destruct comparisonResult as [result|]; [|by intros ?%elem_of_nil].
  intros Hx. exists result. split; [done|].
  destruct rule.
  - apply list_elem_of_In, List.filter_In in Hx as [Hx _].
    by apply list_elem_of_In.
  - by apply elem_of_optList_find in Hx.
  - apply list_elem_of_In, List.filter_In in Hx as [Hx _].
    by apply list_elem_of_In.
  - by apply elem_of_nil in Hx.
  - destruct (Nat.ltb 1 _); [|by apply elem_of_nil in Hx].
    by apply elem_of_optList_find in Hx.
Qed.

Lemma typeConfigOf_None (i : ref) :
  typeConfigOf table σ i = None ↔ ∀ c, c ∈ table → mt_type c ≠ type (σ i).
Proof.
  unfold typeConfigOf. split.
  - intros Hf c Hc%list_elem_of_In Heq.
    pose proof (List.find_none _ _ Hf c Hc) as Hno. simpl in Hno.
    by rewrite Heq, String.eqb_refl in Hno.
  - intros Hall.
    destruct (List.find _ table) as [c|] eqn:Hf; [|done].
    apply List.find_some in Hf as [Hin Heq%String.eqb_eq].
    apply list_elem_of_In in Hin. by destruct (Hall c Hin).
Qed.

End AutoWireFacts.

(** C9. A selected item whose type has no entry in the type table, or whose
    entry has a null auto-wire rule, is handled like any other: the call
    returns (the function is total), the item itself is in the result, and
    it brings nothing besides itself. *)
Theorem autoWireDependencies_missing_rule
    (table : list MetadataTypeConfig) (σ : store)
    (comparisonResult : option MetadataComparison)
    (selectedItems : list ref) (it : ref) :
  it ∈ selectedItems →
  ((∀ c, c ∈ table → mt_type c ≠ type (σ it))
   ∨ (∃ c, typeConfigOf table σ it = Some c ∧ autoWire c = None)) →
  candidates table σ comparisonResult it = []
  ∧ (∀ s, wire table σ comparisonResult s it = setAdd s it)
  ∧ it ∈ autoWireDependenciesWith table σ comparisonResult selectedItems
  ∧ autoWireDependenciesWith table σ comparisonResult [it] = [it].
Proof.
  intros Hin Hrule.
  assert (candidates table σ comparisonResult it = []) as Hnone.
  { unfold candidates. destruct Hrule as [Hno|(c & Hc & Hnull)].
    - apply typeConfigOf_None in Hno. by rewrite Hno.
    - by rewrite Hc, Hnull. }
  split; [done|].
  split; [intros s; unfold wire; by rewrite Hnone|].
  split; [apply elem_of_expand; by left|].
  unfold autoWireDependenciesWith, wire. simpl. by rewrite Hnone.
Qed.

Lemma autoWireDependencies_missing_rule_witness :
  OrgCompare.autoWireDependencies exampleStore
    (exampleView (Some exampleResult) None) [6] = [6].
Proof.
  apply (autoWireDependencies_missing_rule METADATA_TYPES exampleStore
           (Some exampleResult) [6] 6).
  - left.
  - right. eexists. split; reflexivity.
Defined.

(** C3, claim as stated, fails: selecting the field [Account.Phone] brings
    the object [Account], and the object's own rule, which would bring the
    field [Account.Name], is not applied; running the expansion again on the
    result adds that field. *)
Lemma autoWireDependencies_closure_counterexample :
  let expand := OrgCompare.autoWireDependencies exampleStore
                  (exampleView (Some exampleResult) None) in
  expand [0] = [0; 1]
  ∧ expand (expand [0]) = [0; 1; 2]
  ∧ expand (expand [0]) ≠ expand [0]
  ∧ candidates METADATA_TYPES exampleStore (Some exampleResult) 1 = [0; 2].
Proof.
  simpl. split_and!; try (vm_compute; reflexivity).
  intros H. vm_compute in H. discriminate H.
Qed.

(** C3, amended. The expansion is one pass over the selected items: its
    result contains every selected item, has no duplicates, and consists of
    the selected items and what the rule of each selected item brings from
    the universe, in the order of discovery; an item that was brought in is
    not itself expanded. Running the expansion on its own result gives the
    same set exactly when that result already contains everything its
    members bring. *)
Theorem autoWireDependencies_single_pass
    (table : list MetadataTypeConfig) (σ : store)
    (comparisonResult : option MetadataComparison) (seed : list ref) :
  let expand := autoWireDependenciesWith table σ comparisonResult in
  let brings := candidates table σ comparisonResult in
  (∀ x, x ∈ seed → x ∈ expand seed)
  ∧ NoDup (expand seed)
  ∧ (∀ x, x ∈ expand seed ↔ x ∈ seed ∨ ∃ i, i ∈ seed ∧ x ∈ brings i)
  ∧ expand seed = foldl setAdd [] (flat_map (λ i, i :: brings i) seed)
  ∧ (∀ x, x ∈ expand seed →
       x ∈ seed ∨ ∃ result, comparisonResult = Some result ∧ x ∈ allItems result)
  ∧ ((∀ x, x ∈ expand (expand seed) ↔ x ∈ expand seed)
     ↔ (∀ i y, i ∈ expand seed → y ∈ brings i → y ∈ expand seed)).
Proof.
  intros expand brings. subst expand brings.
  split_and!.
  - intros x Hx. apply elem_of_expand. by left.
  - apply NoDup_expand.
  - apply elem_of_expand.
  - unfold autoWireDependenciesWith. apply foldl_wire.
  - intros x [Hx|(i & _ & Hx)]%elem_of_expand; [by left|].
    right. by apply candidates_universe in Hx.
  - split.
    + intros Hsame i y Hi Hy. apply Hsame, elem_of_expand. right. eauto.
    + intros Hclosed x. rewrite (elem_of_expand _ _ _ (autoWireDependenciesWith _ _ _ seed)).
      split; [|by left]. intros [Hx|(i & Hi & Hx)]; eauto.
Qed.

(** ** Reconciliation *)

Lemma sameButStatus_refl (σ : store) : sameButStatus σ σ.
Proof. intros r. exists (status (σ r)), (statusBadgeClass (σ r)). by destruct (σ r). Qed.

Lemma sameButStatus_setStatus (σ σ0 : store) (s : Status) (badge : string) (r : ref) :
  sameButStatus σ σ0 → sameButStatus σ (setStatus s badge σ0 r).
Proof.
  intros Hsame r'. unfold setStatus.
  destruct (decide (r = r')) as [<-|Hne].
  - rewrite fn_lookup_insert. destruct (Hsame r) as (s0 & b0 & ->).
    by exists (Some s), (Some badge).
  - rewrite fn_lookup_insert_ne by done. apply Hsame.
Qed.

Lemma sameButStatus_fullName (σ σ' : store) (r : ref) :
  sameButStatus σ σ' → fullName (σ' r) = fullName (σ r).
Proof. intros Hsame. by destruct (Hsame r) as (s & b & ->). Qed.

Lemma indexByFullName_snoc (σ : store) (items : list ref) (r : ref) :
  indexByFullName σ (items ++ [r])
  = <[fullName (σ r) := r]> (indexByFullName σ items).
Proof. unfold indexByFullName. by rewrite foldl_app. Qed.

(** The key map holds, for each key, the last item that has it. *)
Lemma indexByFullName_lookup (σ : store) (items : list ref) (k : string) :
  indexByFullName σ items !! k = lastWithKey σ items k.
Proof.
  unfold lastWithKey.
  induction items as [|r items IH] using rev_ind; [done|].
  rewrite indexByFullName_snoc, List.filter_app. simpl.
  destruct (String.eqb_spec (fullName (σ r)) k) as [->|Hne].
  - by rewrite lookup_insert_eq, last_snoc.
  - by rewrite lookup_insert_ne, app_nil_r.
Qed.

Lemma lastWithKey_None (σ : store) (items : list ref) (k : string) :
  lastWithKey σ items k = None ↔ k ∉ keys σ items.
Proof.
  unfold lastWithKey, keys. rewrite last_None. split.
  - intros Hnil Hin.
    apply list_elem_of_In, in_map_iff in Hin as (r & Hr & Hin).
    assert (In r (List.filter (λ r, String.eqb (fullName (σ r)) k) items)) as Hf.
    { apply List.filter_In. split; [done|]. by apply String.eqb_eq. }
    by rewrite Hnil in Hf.
  - intros Hnot.
    destruct (List.filter _ items) as [|r rest] eqn:Hf; [done|].
    exfalso. apply Hnot.
    assert (In r (List.filter (λ r, String.eqb (fullName (σ r)) k) items)) as Hr
      by (rewrite Hf; by left).
    apply List.filter_In in Hr as [Hin Hk%String.eqb_eq].
    apply list_elem_of_In, in_map_iff. eauto.
Qed.

Lemma lastWithKey_Some (σ : store) (items : list ref) (k : string) (r : ref) :
  lastWithKey σ items k = Some r → r ∈ items ∧ fullName (σ r) = k.
Proof.
  unfold lastWithKey. intros (l' & Hl')%last_Some.
  assert (In r (List.filter (λ r, String.eqb (fullName (σ r)) k) items)) as Hr.
  { rewrite Hl'. apply in_or_app. right. by left. }
  apply List.filter_In in Hr as [Hin Hk%String.eqb_eq].
  split; [by apply list_elem_of_In|done].
Qed.

(** With unique keys the map holds every item under its key. *)
Lemma lastWithKey_unique (σ : store) (items : list ref) (r : ref) :
  NoDup (keys σ items) → r ∈ items →
  lastWithKey σ items (fullName (σ r)) = Some r.
Proof.
  unfold lastWithKey, keys.
  induction items as [|x items IH]; [by intros _ ?%elem_of_nil|].
  cbn [map List.filter]. intros [Hx Hnd]%list.NoDup_cons [->|Hin]%elem_of_cons.
  - rewrite String.eqb_refl.
    assert (List.filter (λ r0, String.eqb (fullName (σ r0)) (fullName (σ x))) items = [])
      as ->; [|done].
    apply (proj1 (last_None _)), (lastWithKey_None σ items). exact Hx.
  - specialize (IH Hnd Hin).
    destruct (String.eqb_spec (fullName (σ x)) (fullName (σ r))) as [Heq|_].
    + exfalso. apply Hx. rewrite Heq.
      apply list_elem_of_In, (in_map (λ r, fullName (σ r))). by apply list_elem_of_In.
    + done.
Qed.

Section ReconcileFacts.

Variable hasChanges : store → ref → ref → bool.

(** [hasChanges] reads nothing that [compareMetadata] writes. *)
Hypothesis hasChanges_frame : ∀ σ σ' s t,
  sameButStatus σ σ' → hasChanges σ' s t = hasChanges σ s t.

Variable σ : store.

Lemma findAdded_loop (m : gmap string ref) (l : list ref) :
  ∀ σ0 acc, sameButStatus σ σ0 →
  ∃ σ1, foldl (findAdded m) (σ0, acc) l
        = (σ1, acc ++ List.filter (λ r, bool_decide (m !! fullName (σ r) = None)) l)
      ∧ sameButStatus σ σ1.
Proof.
  induction l as [|r l IH]; intros σ0 acc Hsame; simpl.
  - exists σ0. by rewrite app_nil_r.
  - rewrite (sameButStatus_fullName σ σ0 r Hsame).
    destruct (m !! fullName (σ r)) as [t|] eqn:Hm.
    + rewrite bool_decide_eq_false_2 by done. by apply IH.
    + rewrite bool_decide_eq_true_2 by done.
      destruct (IH (setStatus Added "status-badge-added" σ0 r) (acc ++ [r]))
        as (σ1 & -> & Hsame1); [by apply sameButStatus_setStatus|].
      exists σ1. by rewrite <- app_assoc.
Qed.

Lemma findRemoved_loop (m : gmap string ref) (l : list ref) :
  ∀ σ0 acc, sameButStatus σ σ0 →
  ∃ σ1, foldl (findRemoved m) (σ0, acc) l
        = (σ1, acc ++ List.filter (λ r, bool_decide (m !! fullName (σ r) = None)) l)
      ∧ sameButStatus σ σ1.
Proof.
  induction l as [|r l IH]; intros σ0 acc Hsame; simpl.
  - exists σ0. by rewrite app_nil_r.
  - rewrite (sameButStatus_fullName σ σ0 r Hsame).
    destruct (m !! fullName (σ r)) as [t|] eqn:Hm.
    + rewrite bool_decide_eq_false_2 by done. by apply IH.
    + rewrite bool_decide_eq_true_2 by done.
      destruct (IH (setStatus Removed "status-badge-removed" σ0 r) (acc ++ [r]))
        as (σ1 & -> & Hsame1); [by apply sameButStatus_setStatus|].
      exists σ1. by rewrite <- app_assoc.
Qed.

Lemma findChanged_loop (m : gmap string ref) (l : list ref) :
  ∀ σ0 ch un, sameButStatus σ σ0 →
  ∃ σ1, foldl (findChanged hasChanges m) (σ0, ch, un) l
        = (σ1,
           ch ++ List.filter (λ r, match m !! fullName (σ r) with
                                   | Some t => hasChanges σ r t
                                   | None => false
                                   end) l,
           un ++ List.filter (λ r, match m !! fullName (σ r) with
                                   | Some t => negb (hasChanges σ r t)
                                   | None => false
                                   end) l)
      ∧ sameButStatus σ σ1.
Proof.
  induction l as [|r l IH]; intros σ0 ch un Hsame; simpl.
  - exists σ0. by rewrite !app_nil_r.
  - rewrite (sameButStatus_fullName σ σ0 r Hsame).
    destruct (m !! fullName (σ r)) as [t|] eqn:Hm; [|by apply IH].
    rewrite (hasChanges_frame σ σ0 r t Hsame).
    destruct (hasChanges σ r t); simpl.
    + destruct (IH (setStatus Changed "status-badge-changed" σ0 r) (ch ++ [r]) un)
        as (σ1 & -> & Hsame1); [by apply sameButStatus_setStatus|].
      exists σ1. by rewrite <- app_assoc.
    + destruct (IH (setStatus Unchanged "status-badge-unchanged" σ0 r) ch (un ++ [r]))
        as (σ1 & -> & Hsame1); [by apply sameButStatus_setStatus|].
      exists σ1. by rewrite <- app_assoc.
Qed.

(** What [compareMetadata] returns, as four filters of its arguments. *)
Lemma compareMetadataWith_spec (source target : list ref) :
  ∃ σ', compareMetadataWith hasChanges σ source target
        = (σ', {| added := List.filter (onlyIn σ target) source;
                  removed := List.filter (onlyIn σ source) target;
                  changed := List.filter (differs hasChanges σ target) source;
                  unchanged := List.filter (agrees hasChanges σ target) source |})
      ∧ sameButStatus σ σ'.
Proof.
  unfold compareMetadataWith.
  destruct (findAdded_loop (indexByFullName σ target) source σ [])
    as (σ1 & -> & Hsame1); [apply sameButStatus_refl|].
  destruct (findRemoved_loop (indexByFullName σ source) target σ1 [] Hsame1)
    as (σ2 & -> & Hsame2).
  destruct (findChanged_loop (indexByFullName σ target) source σ2 [] [] Hsame2)
    as (σ3 & -> & Hsame3).
  exists σ3. split; [|done]. simpl. do 2 f_equal.
  - apply List.filter_ext. intros r. unfold onlyIn.
    apply bool_decide_ext. by rewrite indexByFullName_lookup, lastWithKey_None.
  - apply List.filter_ext. intros r. unfold onlyIn.
    apply bool_decide_ext. by rewrite indexByFullName_lookup, lastWithKey_None.
  - apply List.filter_ext. intros r. unfold differs.
    by rewrite indexByFullName_lookup.
  - apply List.filter_ext. intros r. unfold agrees.
    by rewrite indexByFullName_lookup.
Qed.

End ReconcileFacts.

Lemma filter3_Permutation {A} (p1 p2 p3 : A → bool) (l : list A) :
  (∀ x, (p1 x = true ∧ p2 x = false ∧ p3 x = false)
        ∨ (p1 x = false ∧ p2 x = true ∧ p3 x = false)
        ∨ (p1 x = false ∧ p2 x = false ∧ p3 x = true)) →
  List.filter p1 l ++ List.filter p2 l ++ List.filter p3 l ≡ₚ l.
Proof.
  intros Hone. induction l as [|x l IH]; [done|]. simpl.
  destruct (Hone x) as [(-> & -> & ->)|[(-> & -> & ->)|(-> & -> & ->)]]; simpl.
  - by constructor.
  - rewrite <- Permutation_middle. by constructor.
  - rewrite app_assoc, <- Permutation_middle, <- app_assoc. by constructor.
Qed.

Lemma elem_of_keys (σ : store) (l : list ref) (k : string) :
  k ∈ keys σ l ↔ ∃ r, r ∈ l ∧ fullName (σ r) = k.
Proof.
  unfold keys. rewrite list_elem_of_In, in_map_iff.
  split; intros (r & H1 & H2); exists r; by rewrite ?list_elem_of_In in *.
Qed.

Lemma elem_of_keys_filter (σ : store) (p : ref → bool) (l : list ref) (k : string) :
  k ∈ keys σ (List.filter p l) ↔ ∃ r, r ∈ l ∧ p r = true ∧ fullName (σ r) = k.
Proof.
  rewrite elem_of_keys. split.
  - intros (r & Hr & Hk). apply list_elem_of_In, List.filter_In in Hr as [Hin Hp].
    exists r. by rewrite list_elem_of_In.
  - intros (r & Hin & Hp & Hk). exists r. split; [|done].
    apply list_elem_of_In, List.filter_In. by rewrite <- list_elem_of_In.
Qed.

Lemma NoDup_keys_filter (σ : store) (p : ref → bool) (l : list ref) :
  NoDup (keys σ l) → NoDup (keys σ (List.filter p l)).
Proof.
  unfold keys. induction l as [|x l IH]; [done|]. simpl.
  intros [Hx Hnd]%list.NoDup_cons. destruct (p x); [|by apply IH].
  simpl. apply list.NoDup_cons. split; [|by apply IH].
  intros (r & Hin & _ & Hk)%elem_of_keys_filter.
  apply Hx, elem_of_keys. eauto.
Qed.

Section PartitionFacts.

Variable hasChanges : store → ref → ref → bool.
Variable σ : store.
Variables source target : list ref.

Let result : MetadataComparison :=
  {| added := List.filter (onlyIn σ target) source;
     removed := List.filter (onlyIn σ source) target;
     changed := List.filter (differs hasChanges σ target) source;
     unchanged := List.filter (agrees hasChanges σ target) source |}.

Lemma source_side_Permutation :
  added result ++ changed result ++ unchanged result ≡ₚ source.
Proof.
  apply filter3_Permutation. intros r. unfold onlyIn, differs, agrees.
  destruct (lastWithKey σ target (fullName (σ r))) as [t|] eqn:Hlast.
  - assert (fullName (σ r) ∈ keys σ target) as Hin.
    { destruct (decide (fullName (σ r) ∈ keys σ target)) as [|Hno]; [done|].
      apply lastWithKey_None in Hno. congruence. }
    rewrite bool_decide_eq_false_2 by (by intros Hno).
    destruct (hasChanges σ r t); simpl; tauto.
  - apply lastWithKey_None in Hlast. rewrite bool_decide_eq_true_2 by done. tauto.
Qed.

Lemma allItems_Permutation : allItems result ≡ₚ removed result ++ source.
Proof.
  unfold allItems.
  transitivity (removed result ++ (added result ++ changed result ++ unchanged result)).
  - rewrite !app_assoc. do 2 apply Permutation_app_tail. apply Permutation_app_comm.
  - apply Permutation_app_head, source_side_Permutation.
Qed.

Lemma elem_of_keys_removed (k : string) :
  k ∈ keys σ (removed result) ↔ k ∈ keys σ target ∧ k ∉ keys σ source.
Proof.
  simpl. rewrite elem_of_keys_filter, elem_of_keys. unfold onlyIn. split.
  - intros (r & Hin & Hp%bool_decide_eq_true & <-). eauto.
  - intros [(r & Hin & <-) Hno]. exists r. by rewrite bool_decide_eq_true.
Qed.

Lemma elem_of_keys_allItems (k : string) :
  k ∈ keys σ (allItems result) ↔ k ∈ keys σ source ∨ k ∈ keys σ target.
Proof.
  unfold keys at 1. change (map ?f ?l) with (f <$> l).
  rewrite allItems_Permutation, fmap_app, elem_of_app.
  change (?f <$> ?l) with (map f l). fold (keys σ (removed result)) (keys σ source).
  rewrite elem_of_keys_removed.
  destruct (decide (k ∈ keys σ source)); tauto.
Qed.

Lemma NoDup_keys_allItems :
  NoDup (keys σ source) → NoDup (keys σ target) → NoDup (keys σ (allItems result)).
Proof.
  intros Hs Ht. unfold keys at 1. change (map ?f ?l) with (f <$> l).
  rewrite allItems_Permutation, fmap_app.
  change (?f <$> ?l) with (map f l). fold (keys σ (removed result)) (keys σ source).
  apply list.NoDup_app. split_and!; [by apply NoDup_keys_filter| |done].
  by intros k [_ Hno]%elem_of_keys_removed.
Qed.

Lemma partition_sizes :
  NoDup (keys σ source) → NoDup (keys σ target) →
  length (added result) + length (removed result)
  + length (changed result) + length (unchanged result)
  = size (list_to_set (keys σ source) ∪ list_to_set (keys σ target) : gset string).
Proof.
  intros Hs Ht.
  assert (list_to_set (keys σ source) ∪ list_to_set (keys σ target)
          = (list_to_set (keys σ (allItems result)) : gset string)) as ->.
  { apply set_eq. intros k.
    rewrite elem_of_union, !elem_of_list_to_set. symmetry.
    apply elem_of_keys_allItems. }
  rewrite size_list_to_set by by apply NoDup_keys_allItems.
  unfold keys, allItems. rewrite length_map, !length_app. lia.
Qed.

End PartitionFacts.

Lemma service_hasChanges_frame (σ σ' : store) (s t : ref) :
  sameButStatus σ σ' →
  MetadataService.hasChanges σ' s t = MetadataService.hasChanges σ s t.
Proof.
  intros Hsame. unfold MetadataService.hasChanges.
  destruct (Hsame s) as (? & ? & ->), (Hsame t) as (? & ? & ->). done.
Qed.

Lemma component_hasChanges_frame (σ σ' : store) (s t : ref) :
  sameButStatus σ σ' →
  OrgCompare.hasChanges σ' s t = OrgCompare.hasChanges σ s t.
Proof.
  intros Hsame. unfold OrgCompare.hasChanges.
  destruct (Hsame s) as (? & ? & ->), (Hsame t) as (? & ? & ->). done.
Qed.

Lemma service_compareMetadata_spec (σ : store) (source target : list ref) :
  ∃ σ', MetadataService.compareMetadata σ source target
        = (σ', {| added := List.filter (onlyIn σ target) source;
                  removed := List.filter (onlyIn σ source) target;
                  changed := List.filter (differs MetadataService.hasChanges σ target) source;
                  unchanged := List.filter (agrees MetadataService.hasChanges σ target) source |})
      ∧ sameButStatus σ σ'.
Proof. apply compareMetadataWith_spec, service_hasChanges_frame. Qed.

Lemma component_compareMetadata_spec (σ : store) (source target : list ref) :
  ∃ σ', OrgCompare.compareMetadata σ source target
        = (σ', {| added := List.filter (onlyIn σ target) source;
                  removed := List.filter (onlyIn σ source) target;
                  changed := List.filter (differs OrgCompare.hasChanges σ target) source;
                  unchanged := List.filter (agrees OrgCompare.hasChanges σ target) source |})
      ∧ sameButStatus σ σ'.
Proof. apply compareMetadataWith_spec, component_hasChanges_frame. Qed.

(** C7. When the keys of each side are unique, the four partitions that
    [compareMetadata] returns (service class and component alike) are
    exhaustive and disjoint: the keys of the four lists together have no
    repetition, no item is in two lists, a key is among them exactly when it
    is a key of the source or of the target, and the four sizes add up to
    the size of the union of the two key sets. The call leaves every key as
    it was. *)
Theorem compareMetadata_partition (σ : store) (source target : list ref) :
  NoDup (keys σ source) → NoDup (keys σ target) →
  ∀ out,
    out = MetadataService.compareMetadata σ source target
    ∨ out = OrgCompare.compareMetadata σ source target →
    let result := out.2 in
    (∀ r, fullName (out.1 r) = fullName (σ r))
    ∧ NoDup (keys σ (allItems result))
    ∧ NoDup (allItems result)
    ∧ (∀ k, k ∈ keys σ (allItems result) ↔ k ∈ keys σ source ∨ k ∈ keys σ target)
    ∧ length (added result) + length (removed result)
      + length (changed result) + length (unchanged result)
      = size (list_to_set (keys σ source) ∪ list_to_set (keys σ target) : gset string).
Proof.
  intros Hs Ht out Hout.
  assert (∃ hc σ',
            out = (σ', {| added := List.filter (onlyIn σ target) source;
                          removed := List.filter (onlyIn σ source) target;
                          changed := List.filter (differs hc σ target) source;
                          unchanged := List.filter (agrees hc σ target) source |})
            ∧ sameButStatus σ σ') as (hc & σ' & -> & Hsame).
  { destruct Hout as [-> | ->].
    - destruct (service_compareMetadata_spec σ source target) as (σ' & ? & ?). eauto.
    - destruct (component_compareMetadata_spec σ source target) as (σ' & ? & ?). eauto. }
  cbn [fst snd].
  pose proof (NoDup_keys_allItems hc σ source target Hs Ht) as Hnd.
  split_and!.
  - intros r. by apply sameButStatus_fullName.
  - done.
  - unfold keys in Hnd. by apply (NoDup_fmap_1 (λ r, fullName (σ r))).
  - apply elem_of_keys_allItems.
  - by apply partition_sizes.
Qed.

Lemma compareMetadata_partition_witness :
  let result := (OrgCompare.compareMetadata exampleStore [0; 3; 1] [4; 2]).2 in
  length (added result) + length (removed result)
  + length (changed result) + length (unchanged result) = 4.
Proof.
  refine (proj2 (proj2 (proj2 (proj2
    (compareMetadata_partition exampleStore [0; 3; 1] [4; 2] _ _ _ (or_intror eq_refl)))))).
  - apply (bool_decide_unpack _). vm_compute. exact I.
  - apply (bool_decide_unpack _). vm_compute. exact I.
Defined.

(** C1, claim as stated, fails: two source items with the key
    [ApexClass/Foo] are compared without any error, and both are returned
    as added. *)
Lemma compareMetadata_duplicate_key_counterexample :
  fullName (exampleStore 3) = fullName (exampleStore 4)
  ∧ ¬ NoDup (keys exampleStore [3; 4])
  ∧ (∃ out, MetadataService.compareMetadata_call exampleStore [3; 4] [] = Returned out
          ∧ out.2 = {| added := [3; 4]; removed := []; changed := []; unchanged := [] |})
  ∧ (∃ out, OrgCompare.compareMetadata_call exampleStore [3; 4] [] = Returned out
          ∧ out.2 = {| added := [3; 4]; removed := []; changed := []; unchanged := [] |})
  ∧ (∀ e, MetadataService.compareMetadata_call exampleStore [3; 4] [] ≠ Thrown e)
  ∧ (∀ e, OrgCompare.compareMetadata_call exampleStore [3; 4] [] ≠ Thrown e).
Proof.
  split_and!.
  - reflexivity.
  - intros [Hno _]%list.NoDup_cons. apply Hno. left.
  - eexists. split; reflexivity.
  - eexists. split; reflexivity.
  - intros e. discriminate.
  - intros e. discriminate.
Qed.

(** C1, amended. [compareMetadata] never fails: for every pair of lists,
    with or without repeated keys, the call returns a comparison. Repeated
    keys are not removed either: every element of the source list lands,
    once per occurrence, in added, changed or unchanged, the added ones
    being those whose key the target lacks, and every element of the target
    list whose key the source lacks lands in removed. *)
Theorem compareMetadata_total (σ : store) (source target : list ref) :
  ∀ call,
    call = MetadataService.compareMetadata_call
    ∨ call = OrgCompare.compareMetadata_call →
    ∃ σ' result,
      call σ source target = Returned (σ', result)
      ∧ added result ++ changed result ++ unchanged result ≡ₚ source
      ∧ added result = List.filter (onlyIn σ target) source
      ∧ removed result = List.filter (onlyIn σ source) target.
Proof.
  intros call [-> | ->].
  - unfold MetadataService.compareMetadata_call.
    destruct (service_compareMetadata_spec σ source target) as (σ' & -> & _).
    eexists _, _. split; [done|]. split; [|done].
    apply source_side_Permutation.
  - unfold OrgCompare.compareMetadata_call.
    destruct (component_compareMetadata_spec σ source target) as (σ' & -> & _).
    eexists _, _. split; [done|]. split; [|done].
    apply source_side_Permutation.
Qed.

Lemma compareMetadata_total_witness :
  ∃ σ' result,
    OrgCompare.compareMetadata_call exampleStore [3; 4] [4] = Returned (σ', result)
    ∧ added result ++ changed result ++ unchanged result ≡ₚ [3; 4].
Proof.
  destruct (compareMetadata_total exampleStore [3; 4] [4]
              OrgCompare.compareMetadata_call (or_intror eq_refl))
    as (σ' & result & Hcall & Hperm & _).
  exists σ', result. split; [exact Hcall|exact Hperm].
Defined.

(** C4, claim as stated, fails for the service class: two items with the
    same key and the same content but different modification dates are
    changed, and two items with the same key and different content but the
    same (absent) date are unchanged. *)
Lemma compareMetadata_content_counterexample :
  fullName (exampleStore 7) = fullName (exampleStore 8)
  ∧ sourceValue (exampleStore 7) = sourceValue (exampleStore 8)
  ∧ (MetadataService.compareMetadata exampleStore [7] [8]).2
    = {| added := []; removed := []; changed := [7]; unchanged := [] |}
  ∧ fullName (exampleStore 3) = fullName (exampleStore 4)
  ∧ sourceValue (exampleStore 3) ≠ sourceValue (exampleStore 4)
  ∧ (MetadataService.compareMetadata exampleStore [3] [4]).2
    = {| added := []; removed := []; changed := []; unchanged := [3] |}.
Proof. split_and!; try reflexivity. discriminate. Qed.

Lemma elem_of_filter_bool (p : ref → bool) (l : list ref) (x : ref) :
  x ∈ List.filter p l ↔ x ∈ l ∧ p x = true.
Proof. by rewrite !list_elem_of_In, List.filter_In. Qed.

(** C4, amended. For a source item [s] whose key is also a key of the
    target, with [t] the target item kept under that key (the only one when
    the target keys are unique): the component classifies [s] as changed
    exactly when the [sourceValue] of [s] and the [sourceValue] of [t] are
    unequal, an absent value being equal to an absent value only, and as
    unchanged otherwise; the service class classifies [s] as changed exactly
    when the [lastModifiedDate] of the two are unequal, and as unchanged
    otherwise, whatever the content. *)
Theorem compareMetadata_classification
    (σ : store) (source target : list ref) (s t : ref) :
  s ∈ source →
  lastWithKey σ target (fullName (σ s)) = Some t →
  let component := (OrgCompare.compareMetadata σ source target).2 in
  let service := (MetadataService.compareMetadata σ source target).2 in
  t ∈ target ∧ fullName (σ t) = fullName (σ s)
  ∧ (NoDup (keys σ target) →
     ∀ t', t' ∈ target → fullName (σ t') = fullName (σ s) → t' = t)
  ∧ (s ∈ changed component ↔ sourceValue (σ s) ≠ sourceValue (σ t))
  ∧ (s ∈ unchanged component ↔ sourceValue (σ s) = sourceValue (σ t))
  ∧ (s ∈ changed service ↔ lastModifiedDate (σ s) ≠ lastModifiedDate (σ t))
  ∧ (s ∈ unchanged service ↔ lastModifiedDate (σ s) = lastModifiedDate (σ t))
  ∧ (s ∉ added component) ∧ (s ∉ added service).
Proof.
  intros Hs Hlast component service. subst component service.
  destruct (component_compareMetadata_spec σ source target) as (σ1 & -> & _).
  destruct (service_compareMetadata_spec σ source target) as (σ2 & -> & _).
  cbn [snd added changed unchanged].
  destruct (lastWithKey_Some _ _ _ _ Hlast) as [Ht Hk].
  rewrite !elem_of_filter_bool. unfold differs, agrees, onlyIn. rewrite Hlast.
  unfold OrgCompare.hasChanges, MetadataService.hasChanges.
  rewrite !negb_true_iff, !bool_decide_eq_true, !bool_decide_eq_false.
  assert (fullName (σ s) ∈ keys σ target) as Hin
    by (apply elem_of_keys; eauto).
  split_and!; try tauto.
  - intros Hnd t' Ht' Hk'.
    pose proof (lastWithKey_unique σ target t' Hnd Ht') as Hl.
    rewrite Hk' in Hl. congruence.
  - split; [intros [_ Hnn]; by apply dec_stable|].
    intros Heq. split; [done|]. by intros ?.
  - split; [intros [_ Hnn]; by apply dec_stable|].
    intros Heq. split; [done|]. by intros ?.
Qed.

Lemma compareMetadata_classification_witness :
  3 ∈ changed (OrgCompare.compareMetadata exampleStore [3] [4]).2
  ∧ 3 ∈ unchanged (MetadataService.compareMetadata exampleStore [3] [4]).2.
Proof.
  destruct (compareMetadata_classification exampleStore [3] [4] 3 4)
    as (_ & _ & _ & Hc & _ & _ & Hu & _).
  - left.
  - reflexivity.
  - split; [apply Hc; discriminate|apply Hu; reflexivity].
Defined.

(** * Further properties of the modelled code *)

(** ** What [compareMetadata] writes *)

Lemma mark_mark (s s' : option Status) (b b' : option string) (it : MetadataItem) :
  mark s b (mark s' b' it) = mark s b it.
Proof. done. Qed.

Lemma elem_of_filter_cons_ne (p : ref → bool) (l : list ref) (x r : ref) :
  x ≠ r → (x ∈ List.filter p (r :: l) ↔ x ∈ List.filter p l).
Proof.
  intros Hne. simpl. destruct (p r); [|done].
  rewrite elem_of_cons. intuition congruence.
Qed.

Section ReconcileStore.

Variable hasChanges : store → ref → ref → bool.

Hypothesis hasChanges_frame : ∀ σ σ' s t,
  sameButStatus σ σ' → hasChanges σ' s t = hasChanges σ s t.

Variable σ : store.

Lemma findAdded_store (m : gmap string ref) (l : list ref) :
  ∀ σ0 acc, sameButStatus σ σ0 →
  ∃ σ1, foldl (findAdded m) (σ0, acc) l
        = (σ1, acc ++ List.filter (λ r, bool_decide (m !! fullName (σ r) = None)) l)
      ∧ ∀ x, σ1 x
             = if decide (x ∈ List.filter (λ r, bool_decide (m !! fullName (σ r) = None)) l)
               then mark (Some Added) (Some "status-badge-added") (σ0 x)
               else σ0 x.
Proof.
  induction l as [|r l IH]; intros σ0 acc Hsame.
  - exists σ0. split; [by rewrite app_nil_r|]. intros x.
    by rewrite decide_False by apply not_elem_of_nil.
  - cbn [foldl findAdded List.filter].
    rewrite (sameButStatus_fullName σ σ0 r Hsame).
    destruct (m !! fullName (σ r)) as [t|] eqn:Hm.
    + rewrite bool_decide_eq_false_2 by done. by apply IH.
    + rewrite bool_decide_eq_true_2 by done.
      destruct (IH (setStatus Added "status-badge-added" σ0 r) (acc ++ [r]))
        as (σ1 & -> & Hσ1); [by apply sameButStatus_setStatus|].
      exists σ1. split; [by rewrite <- app_assoc|].
      intros x. rewrite Hσ1. unfold setStatus.
      destruct (decide (x = r)) as [->|Hne].
      * rewrite fn_lookup_insert, mark_mark.
        rewrite (decide_True (P := r ∈ r :: _)) by left.
        by destruct (decide _).
      * rewrite fn_lookup_insert_ne by done.
        apply decide_ext. rewrite elem_of_cons. intuition congruence.
Qed.

Lemma findRemoved_store (m : gmap string ref) (l : list ref) :
  ∀ σ0 acc, sameButStatus σ σ0 →
  ∃ σ1, foldl (findRemoved m) (σ0, acc) l
        = (σ1, acc ++ List.filter (λ r, bool_decide (m !! fullName (σ r) = None)) l)
      ∧ ∀ x, σ1 x
             = if decide (x ∈ List.filter (λ r, bool_decide (m !! fullName (σ r) = None)) l)
               then mark (Some Removed) (Some "status-badge-removed") (σ0 x)
               else σ0 x.
Proof.
  induction l as [|r l IH]; intros σ0 acc Hsame.
  - exists σ0. split; [by rewrite app_nil_r|]. intros x.
    by rewrite decide_False by apply not_elem_of_nil.
  - cbn [foldl findRemoved List.filter].
    rewrite (sameButStatus_fullName σ σ0 r Hsame).
    destruct (m !! fullName (σ r)) as [t|] eqn:Hm.
    + rewrite bool_decide_eq_false_2 by done. by apply IH.
    + rewrite bool_decide_eq_true_2 by done.
      destruct (IH (setStatus Removed "status-badge-removed" σ0 r) (acc ++ [r]))
        as (σ1 & -> & Hσ1); [by apply sameButStatus_setStatus|].
      exists σ1. split; [by rewrite <- app_assoc|].
      intros x. rewrite Hσ1. unfold setStatus.
      destruct (decide (x = r)) as [->|Hne].
      * rewrite fn_lookup_insert, mark_mark.
        rewrite (decide_True (P := r ∈ r :: _)) by left.
        by destruct (decide _).
      * rewrite fn_lookup_insert_ne by done.
        apply decide_ext. rewrite elem_of_cons. intuition congruence.
Qed.

Lemma findChanged_store (m : gmap string ref) (l : list ref) :
  ∀ σ0 ch un, sameButStatus σ σ0 →
  let pc := λ r, match m !! fullName (σ r) with
                 | Some t => hasChanges σ r t
                 | None => false
                 end in
  let pu := λ r, match m !! fullName (σ r) with
                 | Some t => negb (hasChanges σ r t)
                 | None => false
                 end in
  ∃ σ1, foldl (findChanged hasChanges m) (σ0, ch, un) l
        = (σ1, ch ++ List.filter pc l, un ++ List.filter pu l)
      ∧ ∀ x, σ1 x
             = if decide (x ∈ List.filter pc l)
               then mark (Some Changed) (Some "status-badge-changed") (σ0 x)
               else if decide (x ∈ List.filter pu l)
               then mark (Some Unchanged) (Some "status-badge-unchanged") (σ0 x)
               else σ0 x.
Proof.
  intros σ0 ch un Hsame pc pu. revert σ0 ch un Hsame.
  induction l as [|r l IH]; intros σ0 ch un Hsame.
  - exists σ0. split; [by rewrite !app_nil_r|]. intros x.
    by rewrite !decide_False by apply not_elem_of_nil.
  - cbn [foldl findChanged].
    rewrite (sameButStatus_fullName σ σ0 r Hsame).
    destruct (m !! fullName (σ r)) as [t|] eqn:Hm.
    + rewrite (hasChanges_frame σ σ0 r t Hsame).
      destruct (hasChanges σ r t) eqn:Hhc.
      * destruct (IH (setStatus Changed "status-badge-changed" σ0 r) (ch ++ [r]) un)
          as (σ1 & -> & Hσ1); [by apply sameButStatus_setStatus|].
        assert (pc r = true) as Hpc by (unfold pc; by rewrite Hm).
        assert (pu r = false) as Hpu by (unfold pu; by rewrite Hm, Hhc).
        exists σ1. cbn [List.filter]. rewrite Hpc, Hpu.
        split; [by rewrite <- app_assoc|].
        intros x. rewrite Hσ1. unfold setStatus.
        destruct (decide (x = r)) as [->|Hne].
        -- rewrite fn_lookup_insert, !mark_mark.
           rewrite (decide_True (P := r ∈ r :: _)) by left.
           destruct (decide (r ∈ List.filter pc l)); [done|].
           rewrite decide_False; [done|].
           intros [_ Hu]%elem_of_filter_bool. congruence.
        -- rewrite fn_lookup_insert_ne by done.
           rewrite (decide_ext (x ∈ r :: List.filter pc l) (x ∈ List.filter pc l));
             [done|]. rewrite elem_of_cons. intuition congruence.
      * destruct (IH (setStatus Unchanged "status-badge-unchanged" σ0 r) ch (un ++ [r]))
          as (σ1 & -> & Hσ1); [by apply sameButStatus_setStatus|].
        assert (pc r = false) as Hpc by (unfold pc; by rewrite Hm).
        assert (pu r = true) as Hpu by (unfold pu; by rewrite Hm, Hhc).
        exists σ1. cbn [List.filter]. rewrite Hpc, Hpu.
        split; [by rewrite <- app_assoc|].
        intros x. rewrite Hσ1. unfold setStatus.
        destruct (decide (x = r)) as [->|Hne].
        -- rewrite fn_lookup_insert, !mark_mark.
           rewrite (decide_True (P := r ∈ r :: _)) by left.
           destruct (decide (r ∈ List.filter pc l)) as [[_ Hc]%elem_of_filter_bool|_];
             [congruence|].
           by destruct (decide (r ∈ List.filter pu l)).
        -- rewrite fn_lookup_insert_ne by done.
           rewrite (decide_ext (x ∈ r :: List.filter pu l) (x ∈ List.filter pu l));
             [done|]. rewrite elem_of_cons. intuition congruence.
    + assert (pc r = false) as Hpc by (unfold pc; by rewrite Hm).
      assert (pu r = false) as Hpu by (unfold pu; by rewrite Hm).
      cbn [List.filter]. rewrite Hpc, Hpu. by apply IH.
Qed.

(** The store [compareMetadata] leaves: every returned item carries the
    status and badge class of its list, with its other properties as they
    were, and every other item is as it was. *)
Lemma compareMetadataWith_store (source target : list ref) :
  ∃ σ',
    compareMetadataWith hasChanges σ source target
    = (σ', {| added := List.filter (onlyIn σ target) source;
              removed := List.filter (onlyIn σ source) target;
              changed := List.filter (differs hasChanges σ target) source;
              unchanged := List.filter (agrees hasChanges σ target) source |})
    ∧ ∀ x, σ' x
           = if decide (x ∈ List.filter (onlyIn σ target) source)
             then mark (Some Added) (Some "status-badge-added") (σ x)
             else if decide (x ∈ List.filter (onlyIn σ source) target)
             then mark (Some Removed) (Some "status-badge-removed") (σ x)
             else if decide (x ∈ List.filter (differs hasChanges σ target) source)
             then mark (Some Changed) (Some "status-badge-changed") (σ x)
             else if decide (x ∈ List.filter (agrees hasChanges σ target) source)
             then mark (Some Unchanged) (Some "status-badge-unchanged") (σ x)
             else σ x.
Proof.
  destruct (compareMetadataWith_spec hasChanges hasChanges_frame σ source target)
    as (σ' & Hout & _).
  exists σ'. split; [done|].
  revert Hout. unfold compareMetadataWith.
  destruct (findAdded_store (indexByFullName σ target) source σ [])
    as (σ1 & -> & Hσ1); [apply sameButStatus_refl|].
  assert (sameButStatus σ σ1) as Hsame1.
  { intros r. rewrite Hσ1. destruct (decide _); [by eexists _, _|].
    apply sameButStatus_refl. }
  destruct (findRemoved_store (indexByFullName σ source) target σ1 [] Hsame1)
    as (σ2 & -> & Hσ2).
  assert (sameButStatus σ σ2) as Hsame2.
  { intros r. rewrite Hσ2. destruct (decide _); [|apply Hsame1].
    destruct (Hsame1 r) as (s & b & ->). by eexists _, _. }
  destruct (findChanged_store (indexByFullName σ target) source σ2 [] [] Hsame2)
    as (σ3 & -> & Hσ3).
  cbn [app]. intros [= <- Ha Hr Hc Hu] x.
  rewrite Hσ3, Hσ2, Hσ1, Ha, Hr, Hc, Hu. clear Hσ1 Hσ2 Hσ3 Ha Hr Hc Hu.
  set (A := List.filter (onlyIn σ target) source).
  set (R := List.filter (onlyIn σ source) target).
  set (C := List.filter (differs hasChanges σ target) source).
  set (U := List.filter (agrees hasChanges σ target) source).
  assert (x ∈ A → (x ∉ R) ∧ (x ∉ C) ∧ (x ∉ U)) as HA.
  { intros [Hin Hp]%elem_of_filter_bool. unfold onlyIn in Hp.
    apply bool_decide_eq_true in Hp. apply lastWithKey_None in Hp as Hlast.
    split_and!; intros [Hin' Hp']%elem_of_filter_bool.
    - unfold onlyIn in Hp'. apply bool_decide_eq_true in Hp'.
      apply Hp', elem_of_keys. eauto.
    - unfold differs in Hp'. by rewrite Hlast in Hp'.
    - unfold agrees in Hp'. by rewrite Hlast in Hp'. }
  assert (x ∈ R → (x ∉ C) ∧ (x ∉ U)) as HR.
  { intros [Hin Hp]%elem_of_filter_bool. unfold onlyIn in Hp.
    apply bool_decide_eq_true in Hp.
    split; intros [Hin' _]%elem_of_filter_bool; apply Hp, elem_of_keys; eauto. }
  destruct (decide (x ∈ A)) as [HxA|HxA].
  - destruct (HA HxA) as (HnR & HnC & HnU).
    by rewrite (decide_False (P := x ∈ C)), (decide_False (P := x ∈ U)),
               (decide_False (P := x ∈ R)).
  - destruct (decide (x ∈ R)) as [HxR|HxR].
    + destruct (HR HxR) as (HnC & HnU).
      by rewrite (decide_False (P := x ∈ C)), (decide_False (P := x ∈ U)).
    + destruct (decide (x ∈ C)), (decide (x ∈ U)); by rewrite ?mark_mark.
Qed.

End ReconcileStore.

Lemma statusWritten_with (hasChanges : store → ref → ref → bool) (σ : store)
    (source target : list ref) :
  (∀ σ σ' s t, sameButStatus σ σ' → hasChanges σ' s t = hasChanges σ s t) →
  statusWritten σ (compareMetadataWith hasChanges σ source target).
Proof.
  intros Hframe.
  destruct (compareMetadataWith_store hasChanges Hframe σ source target)
    as (σ' & -> & Hσ').
  intros r. cbn [fst snd added removed changed unchanged]. unfold allItems.
  cbn [added removed changed unchanged].
  set (A := List.filter (onlyIn σ target) source) in *.
  set (R := List.filter (onlyIn σ source) target) in *.
  set (C := List.filter (differs hasChanges σ target) source) in *.
  set (U := List.filter (agrees hasChanges σ target) source) in *.
  assert (r ∈ A → (r ∉ R) ∧ (r ∉ C) ∧ (r ∉ U)) as HA.
  { intros [Hin Hp]%elem_of_filter_bool. unfold onlyIn in Hp.
    apply bool_decide_eq_true in Hp. apply lastWithKey_None in Hp as Hlast.
    split_and!; intros [Hin' Hp']%elem_of_filter_bool.
    - unfold onlyIn in Hp'. apply bool_decide_eq_true in Hp'.
      apply Hp', elem_of_keys. eauto.
    - unfold differs in Hp'. by rewrite Hlast in Hp'.
    - unfold agrees in Hp'. by rewrite Hlast in Hp'. }
  assert (r ∈ R → (r ∉ C) ∧ (r ∉ U)) as HR.
  { intros [Hin Hp]%elem_of_filter_bool. unfold onlyIn in Hp.
    apply bool_decide_eq_true in Hp.
    split; intros [Hin' _]%elem_of_filter_bool; apply Hp, elem_of_keys; eauto. }
  assert (r ∈ C → r ∉ U) as HC.
  { intros [_ Hc]%elem_of_filter_bool [_ Hu]%elem_of_filter_bool.
    unfold differs, agrees in *.
    destruct (lastWithKey σ target (fullName (σ r))) as [t|]; [|done].
    by destruct (hasChanges σ r t). }
  rewrite Hσ'. rewrite !elem_of_app.
  split_and!.
  - intros HxA. by rewrite decide_True.
  - intros HxR. rewrite decide_False, decide_True; [done..|]. intros ?. tauto.
  - intros HxC. rewrite decide_False, decide_False, decide_True; [done..| |];
      intros ?; tauto.
  - intros HxU.
    rewrite decide_False, decide_False, decide_False, decide_True; [done..| | |];
      intros ?; tauto.
  - intros Hnone. rewrite !decide_False; [done|..]; intros ?; apply Hnone; tauto.
Qed.

(** X1. [compareMetadata], in the service class and in the component, sets
    the [status] and the [statusBadgeClass] of every item it returns to
    those of the list the item is in, keeps every other property of the item,
    and leaves alone every item it does not return. This holds for every
    pair of inputs, whether or not keys repeat. *)
Theorem compareMetadata_writes_status (σ : store) (source target : list ref) :
  statusWritten σ (MetadataService.compareMetadata σ source target)
  ∧ statusWritten σ (OrgCompare.compareMetadata σ source target).
Proof.
  split; apply statusWritten_with.
  - apply service_hasChanges_frame.
  - apply component_hasChanges_frame.
Qed.

(** ** How [compareMetadata] behaves on particular inputs *)

Lemma filter_all_true {A} (p : A → bool) (l : list A) :
  (∀ x, x ∈ l → p x = true) → List.filter p l = l.
Proof.
  induction l as [|x l IH]; intros Hall; [done|]. simpl.
  rewrite (Hall x) by left. f_equal. apply IH. intros y Hy. apply Hall. by right.
Qed.

Lemma filter_all_false {A} (p : A → bool) (l : list A) :
  (∀ x, x ∈ l → p x = false) → List.filter p l = [].
Proof.
  induction l as [|x l IH]; intros Hall; [done|]. simpl.
  rewrite (Hall x) by left. apply IH. intros y Hy. apply Hall. by right.
Qed.

Section ReconcileShapes.

Variable hasChanges : store → ref → ref → bool.

Hypothesis hasChanges_frame : ∀ σ σ' s t,
  sameButStatus σ σ' → hasChanges σ' s t = hasChanges σ s t.

Lemma compareMetadataWith_swap (σ : store) (left right : list ref) :
  removed (compareMetadataWith hasChanges σ left right).2
  = added (compareMetadataWith hasChanges σ right left).2
  ∧ added (compareMetadataWith hasChanges σ left right).2
    = removed (compareMetadataWith hasChanges σ right left).2.
Proof.
  destruct (compareMetadataWith_spec hasChanges hasChanges_frame σ left right)
    as (σ1 & -> & _).
  destruct (compareMetadataWith_spec hasChanges hasChanges_frame σ right left)
    as (σ2 & -> & _).
  done.
Qed.

Lemma compareMetadataWith_empty (σ : store) (items : list ref) :
  (compareMetadataWith hasChanges σ items []).2
  = {| added := items; removed := []; changed := []; unchanged := [] |}
  ∧ (compareMetadataWith hasChanges σ [] items).2
    = {| added := []; removed := items; changed := []; unchanged := [] |}.
Proof.
  destruct (compareMetadataWith_spec hasChanges hasChanges_frame σ items [])
    as (σ1 & -> & _).
  destruct (compareMetadataWith_spec hasChanges hasChanges_frame σ [] items)
    as (σ2 & -> & _).
  cbn [snd List.filter].
  rewrite !(filter_all_true (onlyIn σ [])), !filter_all_false; [done|..].
  - by intros x _.
  - by intros x _.
  - intros x _. unfold onlyIn. apply bool_decide_eq_true_2, not_elem_of_nil.
Qed.

Lemma compareMetadataWith_self (σ : store) (items : list ref) :
  (∀ r, hasChanges σ r r = false) →
  added (compareMetadataWith hasChanges σ items items).2 = []
  ∧ removed (compareMetadataWith hasChanges σ items items).2 = []
  ∧ (NoDup (keys σ items) →
     changed (compareMetadataWith hasChanges σ items items).2 = []
     ∧ unchanged (compareMetadataWith hasChanges σ items items).2 = items).
Proof.
  intros Hrefl.
  destruct (compareMetadataWith_spec hasChanges hasChanges_frame σ items items)
    as (σ1 & -> & _).
  cbn [snd added removed changed unchanged].
  assert (List.filter (onlyIn σ items) items = []) as ->.
  { apply filter_all_false. intros x Hx. unfold onlyIn.
    apply bool_decide_eq_false_2. intros Hno. apply Hno, elem_of_keys. eauto. }
  split_and!; [done..|]. intros Hnd. split.
  - apply filter_all_false. intros x Hx. unfold differs.
    by rewrite (lastWithKey_unique σ items x Hnd Hx).
  - apply filter_all_true. intros x Hx. unfold agrees.
    by rewrite (lastWithKey_unique σ items x Hnd Hx), Hrefl.
Qed.

Lemma sameButStatus_keys (σ σ' : store) (l : list ref) :
  sameButStatus σ σ' → keys σ' l = keys σ l.
Proof.
  intros Hsame. unfold keys. apply map_ext. intros r.
  by apply sameButStatus_fullName.
Qed.

Lemma sameButStatus_lastWithKey (σ σ' : store) (l : list ref) (k : string) :
  sameButStatus σ σ' → lastWithKey σ' l k = lastWithKey σ l k.
Proof.
  intros Hsame. unfold lastWithKey. f_equal. apply List.filter_ext. intros r.
  by rewrite (sameButStatus_fullName σ σ' r Hsame).
Qed.

Lemma compareMetadataWith_again (σ : store) (source target : list ref) :
  let out := compareMetadataWith hasChanges σ source target in
  let out' := compareMetadataWith hasChanges out.1 source target in
  out'.2 = out.2 ∧ ∀ r, out'.1 r = out.1 r.
Proof.
  intros out out'. subst out out'.
  destruct (compareMetadataWith_spec hasChanges hasChanges_frame σ source target)
    as (σ1 & H1 & Hsame).
  destruct (compareMetadataWith_store hasChanges hasChanges_frame σ source target)
    as (σ1' & H1' & Hσ1).
  rewrite H1 in H1'. injection H1' as <-. rewrite H1. cbn [fst snd].
  destruct (compareMetadataWith_store hasChanges hasChanges_frame σ1 source target)
    as (σ2 & -> & Hσ2).
  cbn [fst snd].
  assert (∀ l l', List.filter (onlyIn σ1 l) l' = List.filter (onlyIn σ l) l') as Honly.
  { intros l l'. apply List.filter_ext. intros r. unfold onlyIn.
    by rewrite (sameButStatus_fullName σ σ1 r Hsame), (sameButStatus_keys σ σ1 l Hsame). }
  assert (∀ l l', List.filter (differs hasChanges σ1 l) l'
                  = List.filter (differs hasChanges σ l) l') as Hdiff.
  { intros l l'. apply List.filter_ext. intros r. unfold differs.
    rewrite (sameButStatus_fullName σ σ1 r Hsame), (sameButStatus_lastWithKey σ σ1 l _ Hsame).
    destruct (lastWithKey σ l (fullName (σ r))); [|done].
    by apply (hasChanges_frame σ σ1). }
  assert (∀ l l', List.filter (agrees hasChanges σ1 l) l'
                  = List.filter (agrees hasChanges σ l) l') as Hagr.
  { intros l l'. apply List.filter_ext. intros r. unfold agrees.
    rewrite (sameButStatus_fullName σ σ1 r Hsame), (sameButStatus_lastWithKey σ σ1 l _ Hsame).
    destruct (lastWithKey σ l (fullName (σ r))); [|done].
    by rewrite (hasChanges_frame σ σ1). }
  split.
  - by rewrite !Honly, Hdiff, Hagr.
  - intros r. rewrite Hσ2, !Honly, Hdiff, Hagr, !Hσ1.
    repeat destruct (decide _); by rewrite ?mark_mark.
Qed.

End ReconcileShapes.

(** X2. Swapping the two sides swaps added and removed:
    [compareMetadata(left, right).removed] is the same list as
    [compareMetadata(right, left).added], and the other way round, in the
    service class and in the component. *)
Theorem compareMetadata_swap (σ : store) (left right : list ref) :
  removed (MetadataService.compareMetadata σ left right).2
  = added (MetadataService.compareMetadata σ right left).2
  ∧ added (MetadataService.compareMetadata σ left right).2
    = removed (MetadataService.compareMetadata σ right left).2
  ∧ removed (OrgCompare.compareMetadata σ left right).2
    = added (OrgCompare.compareMetadata σ right left).2
  ∧ added (OrgCompare.compareMetadata σ left right).2
    = removed (OrgCompare.compareMetadata σ right left).2.
Proof.
  pose proof (compareMetadataWith_swap _ service_hasChanges_frame σ left right) as [H1 H2].
  pose proof (compareMetadataWith_swap _ component_hasChanges_frame σ left right) as [H3 H4].
  done.
Qed.

(** X3. Against an empty target every source item is added, in the order of
    the source and repeated keys included; against an empty source every
    target item is removed. Nothing is changed or unchanged. *)
Theorem compareMetadata_empty_side (σ : store) (items : list ref) :
  (MetadataService.compareMetadata σ items []).2
  = {| added := items; removed := []; changed := []; unchanged := [] |}
  ∧ (MetadataService.compareMetadata σ [] items).2
    = {| added := []; removed := items; changed := []; unchanged := [] |}
  ∧ (OrgCompare.compareMetadata σ items []).2
    = {| added := items; removed := []; changed := []; unchanged := [] |}
  ∧ (OrgCompare.compareMetadata σ [] items).2
    = {| added := []; removed := items; changed := []; unchanged := [] |}.
Proof.
  pose proof (compareMetadataWith_empty _ service_hasChanges_frame σ items) as [H1 H2].
  pose proof (compareMetadataWith_empty _ component_hasChanges_frame σ items) as [H3 H4].
  done.
Qed.

(** X4. A list with unique keys compared with itself is unchanged: all of
    its items come back as unchanged, in order, and the other three lists
    are empty. *)
Theorem compareMetadata_self (σ : store) (items : list ref) :
  NoDup (keys σ items) →
  (MetadataService.compareMetadata σ items items).2
  = {| added := []; removed := []; changed := []; unchanged := items |}
  ∧ (OrgCompare.compareMetadata σ items items).2
    = {| added := []; removed := []; changed := []; unchanged := items |}.
Proof.
  intros Hnd.
  assert (∀ hc, (∀ σ σ' s t, sameButStatus σ σ' → hc σ' s t = hc σ s t) →
                (∀ r, hc σ r r = false) →
                (compareMetadataWith hc σ items items).2
                = {| added := []; removed := []; changed := []; unchanged := items |})
    as Hgen.
  { intros hc Hframe Hrefl.
    destruct (compareMetadataWith_self hc Hframe σ items Hrefl) as (Ha & Hr & Hcu).
    destruct (Hcu Hnd) as [Hc Hu].
    destruct (compareMetadataWith hc σ items items) as [σ' [a r c u]].
    simpl in *. by subst. }
  split; apply Hgen.
  - apply service_hasChanges_frame.
  - intros r. unfold MetadataService.hasChanges. by apply bool_decide_eq_false_2; intros ?.
  - apply component_hasChanges_frame.
  - intros r. unfold OrgCompare.hasChanges. by apply bool_decide_eq_false_2; intros ?.
Qed.

Lemma compareMetadata_self_witness :
  (OrgCompare.compareMetadata exampleStore [0; 1; 3] [0; 1; 3]).2
  = {| added := []; removed := []; changed := []; unchanged := [0; 1; 3] |}.
Proof.
  apply (compareMetadata_self exampleStore [0; 1; 3]).
  apply (bool_decide_unpack _). vm_compute. exact I.
Defined.

(** X5. Comparing the same two lists again, on the store the first
    comparison left, returns the same four lists and writes nothing new:
    the status written by the first run does not influence the second. *)
Theorem compareMetadata_again (σ : store) (source target : list ref) :
  (let out := MetadataService.compareMetadata σ source target in
   let out' := MetadataService.compareMetadata out.1 source target in
   out'.2 = out.2 ∧ ∀ r, out'.1 r = out.1 r)
  ∧ (let out := OrgCompare.compareMetadata σ source target in
     let out' := OrgCompare.compareMetadata out.1 source target in
     out'.2 = out.2 ∧ ∀ r, out'.1 r = out.1 r).
Proof.
  split.
  - apply (compareMetadataWith_again _ service_hasChanges_frame).
  - apply (compareMetadataWith_again _ component_hasChanges_frame).
Qed.

(** ** The inline [compareMetadata] *)

Lemma orderedIndex_snoc (σ : store) (items : list ref) (r : ref) :
  orderedIndex σ (items ++ [r]) = omapSet (orderedIndex σ items) (fullName (σ r)) r.
Proof. unfold orderedIndex. by rewrite foldl_app. Qed.

Lemma omapGet_omapSet (m : list (string * ref)) (k k' : string) (v : ref) :
  omapGet (omapSet m k v) k' = if decide (k = k') then Some v else omapGet m k'.
Proof.
  unfold omapGet. induction m as [|[k0 v0] m IH]; simpl.
  - destruct (String.eqb_spec k k'); by case_decide.
  - destruct (String.eqb_spec k0 k) as [->|Hne]; simpl.
    + destruct (String.eqb_spec k k'); by case_decide.
    + destruct (String.eqb_spec k0 k') as [->|Hne']; simpl.
      * by rewrite decide_False by congruence.
      * apply IH.
Qed.

Lemma omapSet_keys (m : list (string * ref)) (k : string) (v : ref) :
  map fst (omapSet m k v)
  = if decide (k ∈ map fst m) then map fst m else map fst m ++ [k].
Proof.
  induction m as [|[k0 v0] m IH]; cbn [omapSet map fst app].
  - by destruct (decide (k ∈ [])) as [?%elem_of_nil|].
  - destruct (String.eqb_spec k0 k) as [->|Hne]; cbn [omapSet map fst app].
    + rewrite decide_True; [done|left].
    + rewrite IH. destruct (decide (k ∈ map fst m)) as [Hin|Hin].
      * rewrite decide_True; [done|by right].
      * rewrite decide_False; [done|].
        rewrite elem_of_cons. intuition congruence.
Qed.

(** The ordered key map answers like the unordered one: the last item with
    the key. *)
Lemma orderedIndex_lookup (σ : store) (items : list ref) (k : string) :
  omapGet (orderedIndex σ items) k = lastWithKey σ items k.
Proof.
  induction items as [|r items IH] using rev_ind; [done|].
  rewrite orderedIndex_snoc, omapGet_omapSet, IH.
  unfold lastWithKey. rewrite List.filter_app. simpl.
  destruct (String.eqb_spec (fullName (σ r)) k) as [->|Hne].
  - by rewrite decide_True, last_snoc.
  - by rewrite decide_False, app_nil_r.
Qed.

(** It iterates over the keys in the order in which they first occur. *)
Lemma orderedIndex_keys (σ : store) (items : list ref) :
  map fst (orderedIndex σ items) = firstSeen (keys σ items).
Proof.
  induction items as [|r items IH] using rev_ind; [done|].
  rewrite orderedIndex_snoc, omapSet_keys, IH.
  unfold keys. rewrite map_app. simpl. by rewrite firstSeen_snoc.
Qed.

Lemma omapGet_elem (m : list (string * ref)) (k : string) (v : ref) :
  NoDup (map fst m) → (k, v) ∈ m → omapGet m k = Some v.
Proof.
  unfold omapGet. induction m as [|[k0 v0] m IH]; simpl.
  - by intros _ ?%elem_of_nil.
  - intros [Hk0 Hnd]%list.NoDup_cons [[= -> ->]|Hin]%elem_of_cons.
    + by rewrite String.eqb_refl.
    + destruct (String.eqb_spec k0 k) as [->|Hne]; [|by apply IH].
      exfalso. apply Hk0. apply list_elem_of_In, in_map_iff.
      exists (k, v). split; [done|by apply list_elem_of_In].
Qed.

Lemma orderedIndex_entry (σ : store) (items : list ref) (k : string) (v : ref) :
  (k, v) ∈ orderedIndex σ items → lastWithKey σ items k = Some v.
Proof.
  intros Hin. rewrite <- orderedIndex_lookup. apply omapGet_elem; [|done].
  rewrite orderedIndex_keys. apply NoDup_firstSeen.
Qed.

Lemma orderedIndex_entry_key (σ : store) (items : list ref) (k : string) (v : ref) :
  (k, v) ∈ orderedIndex σ items → fullName (σ v) = k ∧ v ∈ items.
Proof.
  intros Hin%orderedIndex_entry%lastWithKey_Some. tauto.
Qed.

Lemma orderedIndex_eq_keys (σ : store) (items : list ref) :
  orderedIndex σ items = map (λ r, (fullName (σ r), r)) (lastPerKey σ items).
Proof.
  unfold lastPerKey. rewrite map_map.
  rewrite <- (map_id (orderedIndex σ items)) at 1.
  apply map_ext_in. intros [k v] Hin%list_elem_of_In. simpl.
  by destruct (orderedIndex_entry_key σ items k v Hin) as [-> _].
Qed.

Lemma keys_lastPerKey (σ : store) (items : list ref) :
  keys σ (lastPerKey σ items) = firstSeen (keys σ items).
Proof.
  rewrite <- orderedIndex_keys. rewrite (orderedIndex_eq_keys σ items).
  unfold keys. by rewrite map_map.
Qed.

Lemma elem_of_lastPerKey (σ : store) (items : list ref) (r : ref) :
  r ∈ lastPerKey σ items ↔ lastWithKey σ items (fullName (σ r)) = Some r.
Proof.
  split.
  - intros Hin. unfold lastPerKey in Hin.
    apply list_elem_of_In, in_map_iff in Hin as ([k v] & <- & Hin).
    apply list_elem_of_In in Hin. simpl.
    destruct (orderedIndex_entry_key σ items k v Hin) as [-> _].
    by apply orderedIndex_entry.
  - intros Hlast. rewrite <- orderedIndex_lookup in Hlast.
    unfold omapGet in Hlast.
    destruct (List.find _ (orderedIndex σ items)) as [[k v]|] eqn:Hf; [|done].
    injection Hlast as ->. apply List.find_some in Hf as [Hin _].
    unfold lastPerKey. apply list_elem_of_In, in_map_iff. by exists (k, r).
Qed.

(** With unique keys the key map iterates over the list itself. *)
Lemma lastPerKey_unique (σ : store) (items : list ref) :
  NoDup (keys σ items) → lastPerKey σ items = items.
Proof.
  intros Hnd. unfold lastPerKey.
  assert (orderedIndex σ items = map (λ r, (fullName (σ r), r)) items) as ->.
  { induction items as [|r items IH] using rev_ind; [done|].
    unfold keys in Hnd. rewrite map_app in Hnd.
    apply list.NoDup_app in Hnd as (Hnd & Hdisj & _).
    rewrite orderedIndex_snoc, IH by done. rewrite map_app. simpl.
    clear IH. induction items as [|x items IH]; [done|]. simpl.
    destruct (String.eqb_spec (fullName (σ x)) (fullName (σ r))) as [Heq|Hne].
    - exfalso. apply (Hdisj (fullName (σ x))); [left|]. rewrite Heq. left.
    - f_equal. apply IH.
      + simpl in Hnd. by apply list.NoDup_cons in Hnd as [_ ?].
      + intros k Hk. apply Hdisj. by right. }
  rewrite map_map. apply map_id.
Qed.

Lemma onlyIn_None (σ : store) (other : list ref) (r : ref) :
  onlyIn σ other r = true ↔ lastWithKey σ other (fullName (σ r)) = None.
Proof. unfold onlyIn. by rewrite bool_decide_eq_true, lastWithKey_None. Qed.

Section InlineLoops.

Import OrgCompareInlineReconcile.

Variable σ : store.
Variables source target : list ref.

Lemma sameContent_insert (σ0 : store) (r : ref) (it : MetadataItem) :
  sameContent σ σ0 →
  fullName it = fullName (σ0 r) → sourceValue it = sourceValue (σ0 r) →
  sameContent σ (<[r := it]> σ0).
Proof.
  intros Hsame Hk Hv x. destruct (decide (r = x)) as [<-|Hne].
  - rewrite fn_lookup_insert, Hk, Hv. apply Hsame.
  - rewrite fn_lookup_insert_ne by done. apply Hsame.
Qed.

Lemma hasChanges_sameContent (σ0 : store) (s t : ref) :
  sameContent σ σ0 → hasChanges σ0 s t = hasChanges σ s t.
Proof.
  intros Hsame. unfold hasChanges.
  by rewrite (proj2 (Hsame s)), (proj2 (Hsame t)).
Qed.

Lemma classifySource_loop (tm : list (string * ref)) (P : list ref) :
  (∀ k, omapGet tm k = lastWithKey σ target k) →
  NoDup P →
  ∀ σ0 a c u, sameContent σ σ0 →
  ∃ σ1,
    foldl (classifySource tm) (σ0, a, c, u) (map (λ r, (fullName (σ r), r)) P)
    = (σ1, a ++ List.filter (onlyIn σ target) P,
           c ++ List.filter (differs hasChanges σ target) P,
           u ++ List.filter (agrees hasChanges σ target) P)
    ∧ sameContent σ σ1
    ∧ ∀ x, σ1 x = if decide (x ∈ P) then sourceWrite σ target x (σ0 x) else σ0 x.
Proof.
  intros Hget. induction 1 as [|v P Hv Hnd IH]; intros σ0 a c u Hsame.
  - exists σ0. rewrite !app_nil_r. split; [done|]. split; [done|].
    intros x. by rewrite decide_False by apply not_elem_of_nil.
  - cbn [map foldl classifySource List.filter]. rewrite Hget.
    unfold differs, agrees, sourceWrite in *.
    destruct (lastWithKey σ target (fullName (σ v))) as [t|] eqn:Hlast.
    + assert (onlyIn σ target v = false) as ->.
      { apply not_true_iff_false. rewrite onlyIn_None. congruence. }
      rewrite (hasChanges_sameContent σ0 v t Hsame).
      destruct (hasChanges σ v t) eqn:Hhc.
      * set (σ1 := <[v := withStatus Changed (σ0 v)]> σ0).
        set (σ2 := <[v := withTargetValue (sourceValue (σ1 t)) (σ1 v)]> σ1).
        set (σ3 := <[v := withDiff (generateDiff (sourceValue (σ2 v)) (sourceValue (σ2 t)))
                             (σ2 v)]> σ2).
        assert (sameContent σ σ1) as Hs1
          by (apply sameContent_insert; done).
        assert (sameContent σ σ2) as Hs2
          by (apply sameContent_insert; [done|unfold σ1; by rewrite fn_lookup_insert..]).
        assert (sameContent σ σ3) as Hs3
          by (apply sameContent_insert; [done|unfold σ2; by rewrite fn_lookup_insert..]).
        assert (∀ x, σ3 x = if decide (x = v) then changedWrite σ v t (σ0 v) else σ0 x)
          as Hσ3.
        { intros x. destruct (decide (x = v)) as [->|Hne].
          - unfold σ3. rewrite fn_lookup_insert.
            rewrite (proj2 (Hs2 v)), (proj2 (Hs2 t)).
            unfold σ2. rewrite fn_lookup_insert, (proj2 (Hs1 t)).
            unfold σ1. by rewrite fn_lookup_insert.
          - unfold σ3, σ2, σ1. by rewrite !fn_lookup_insert_ne. }
        destruct (IH σ3 a (c ++ [v]) u Hs3) as (σ' & -> & Hs' & Hσ').
        exists σ'. rewrite <- !app_assoc. split; [done|]. split; [done|].
        intros x. rewrite Hσ', !Hσ3.
        destruct (decide (x = v)) as [->|Hne].
        -- rewrite (decide_False (P := v ∈ P)) by done.
           rewrite (decide_True (P := v ∈ v :: P)) by left.
           by rewrite Hlast, Hhc.
        -- apply decide_ext. rewrite elem_of_cons. intuition congruence.
      * set (σ1 := <[v := withStatus Unchanged (σ0 v)]> σ0).
        assert (sameContent σ σ1) as Hs1 by (apply sameContent_insert; done).
        destruct (IH σ1 a c (u ++ [v]) Hs1) as (σ' & -> & Hs' & Hσ').
        exists σ'. rewrite <- !app_assoc. split; [done|]. split; [done|].
        intros x. rewrite Hσ'. unfold σ1.
        destruct (decide (x = v)) as [->|Hne].
        -- rewrite (decide_False (P := v ∈ P)) by done.
           rewrite (decide_True (P := v ∈ v :: P)) by left.
           by rewrite fn_lookup_insert, Hlast, Hhc.
        -- rewrite fn_lookup_insert_ne by done.
           apply decide_ext. rewrite elem_of_cons. intuition congruence.
    + assert (onlyIn σ target v = true) as -> by by apply onlyIn_None.
      set (σ1 := <[v := withStatus Added (σ0 v)]> σ0).
      assert (sameContent σ σ1) as Hs1 by (apply sameContent_insert; done).
      destruct (IH σ1 (a ++ [v]) c u Hs1) as (σ' & -> & Hs' & Hσ').
      exists σ'. rewrite <- !app_assoc. split; [done|]. split; [done|].
      intros x. rewrite Hσ'. unfold σ1.
      destruct (decide (x = v)) as [->|Hne].
      * rewrite (decide_False (P := v ∈ P)) by done.
        rewrite (decide_True (P := v ∈ v :: P)) by left.
        by rewrite fn_lookup_insert, Hlast.
      * rewrite fn_lookup_insert_ne by done.
        apply decide_ext. rewrite elem_of_cons. intuition congruence.
Qed.

Lemma classifyTarget_loop (sm : list (string * ref)) (Q : list ref) :
  (∀ k, omapGet sm k = lastWithKey σ source k) →
  NoDup Q →
  ∀ σ0 acc, sameContent σ σ0 →
  ∃ σ1,
    foldl (classifyTarget sm) (σ0, acc) (map (λ r, (fullName (σ r), r)) Q)
    = (σ1, acc ++ List.filter (onlyIn σ source) Q)
    ∧ ∀ x, σ1 x = if decide (x ∈ List.filter (onlyIn σ source) Q)
                  then withStatus Removed (σ0 x) else σ0 x.
Proof.
  intros Hget. induction 1 as [|v Q Hv Hnd IH]; intros σ0 acc Hsame.
  - exists σ0. rewrite app_nil_r. split; [done|].
    intros x. by rewrite decide_False by apply not_elem_of_nil.
  - cbn [map foldl classifyTarget List.filter]. rewrite Hget.
    destruct (lastWithKey σ source (fullName (σ v))) as [t|] eqn:Hlast.
    + assert (onlyIn σ source v = false) as ->.
      { apply not_true_iff_false. rewrite onlyIn_None. congruence. }
      by apply IH.
    + assert (onlyIn σ source v = true) as -> by by apply onlyIn_None.
      set (σ1 := <[v := withStatus Removed (σ0 v)]> σ0).
      assert (sameContent σ σ1) as Hs1 by (apply sameContent_insert; done).
      destruct (IH σ1 (acc ++ [v]) Hs1) as (σ' & -> & Hσ').
      exists σ'. rewrite <- !app_assoc. split; [done|].
      intros x. rewrite Hσ'. unfold σ1.
      destruct (decide (x = v)) as [->|Hne].
      * rewrite (decide_False (P := v ∈ List.filter _ Q)).
        -- rewrite (decide_True (P := v ∈ v :: _)) by left.
           by rewrite fn_lookup_insert.
        -- by intros [? _]%elem_of_filter_bool.
      * rewrite fn_lookup_insert_ne by done.
        apply decide_ext. rewrite elem_of_cons. intuition congruence.
Qed.

Lemma NoDup_lastPerKey (items : list ref) : NoDup (lastPerKey σ items).
Proof.
  apply (NoDup_fmap_1 (λ r, fullName (σ r))).
  change (NoDup (keys σ (lastPerKey σ items))).
  rewrite keys_lastPerKey. apply NoDup_firstSeen.
Qed.

(** What the inline [compareMetadata] returns and writes. *)
Lemma inline_compareMetadata_spec :
  ∃ σ',
    compareMetadata σ source target
    = (σ', {| added := List.filter (onlyIn σ target) (lastPerKey σ source);
              removed := List.filter (onlyIn σ source) (lastPerKey σ target);
              changed := List.filter (differs hasChanges σ target) (lastPerKey σ source);
              unchanged := List.filter (agrees hasChanges σ target) (lastPerKey σ source) |})
    ∧ ∀ x, σ' x
           = if decide (x ∈ List.filter (onlyIn σ source) (lastPerKey σ target))
             then withStatus Removed (σ x)
             else if decide (x ∈ lastPerKey σ source)
             then sourceWrite σ target x (σ x)
             else σ x.
Proof.
  unfold compareMetadata. cbv zeta.
  assert (sameContent σ σ) as Hrefl by done.
  destruct (classifySource_loop (orderedIndex σ target) (lastPerKey σ source)
              (orderedIndex_lookup σ target) (NoDup_lastPerKey source) σ [] [] [] Hrefl)
    as (σ1 & Hloop1 & Hs1 & Hσ1).
  rewrite <- orderedIndex_eq_keys in Hloop1. rewrite Hloop1.
  destruct (classifyTarget_loop (orderedIndex σ source) (lastPerKey σ target)
              (orderedIndex_lookup σ source) (NoDup_lastPerKey target) σ1 [] Hs1)
    as (σ2 & Hloop2 & Hσ2).
  rewrite <- orderedIndex_eq_keys in Hloop2. rewrite Hloop2.
  exists σ2. split; [done|].
  intros x. rewrite Hσ2, Hσ1.
  destruct (decide (x ∈ List.filter _ (lastPerKey σ target))) as [Hx|Hx]; [|done].
  rewrite decide_False; [done|].
  apply elem_of_filter_bool in Hx as [_ Hx]. apply onlyIn_None in Hx.
  intros Hin%elem_of_lastPerKey. congruence.
Qed.

End InlineLoops.

Lemma elem_of_keys_lastPerKey (σ : store) (l : list ref) (k : string) :
  k ∈ keys σ (lastPerKey σ l) ↔ k ∈ keys σ l.
Proof. by rewrite keys_lastPerKey, elem_of_firstSeen. Qed.

Lemma NoDup_keys_lastPerKey (σ : store) (l : list ref) :
  NoDup (keys σ (lastPerKey σ l)).
Proof. rewrite keys_lastPerKey. apply NoDup_firstSeen. Qed.

Lemma onlyIn_lastPerKey (σ : store) (l : list ref) (r : ref) :
  onlyIn σ (lastPerKey σ l) r = onlyIn σ l r.
Proof. unfold onlyIn. apply bool_decide_ext. by rewrite elem_of_keys_lastPerKey. Qed.

Lemma lastWithKey_lastPerKey (σ : store) (l : list ref) (k : string) :
  lastWithKey σ (lastPerKey σ l) k = lastWithKey σ l k.
Proof.
  destruct (lastWithKey σ l k) as [v|] eqn:Hlast.
  - destruct (lastWithKey_Some _ _ _ _ Hlast) as [_ <-].
    apply lastWithKey_unique; [apply NoDup_keys_lastPerKey|].
    by apply elem_of_lastPerKey.
  - apply lastWithKey_None. rewrite elem_of_keys_lastPerKey.
    by apply lastWithKey_None.
Qed.

Lemma inline_hasChanges_component (σ : store) (s t : ref) :
  OrgCompareInlineReconcile.hasChanges σ s t = OrgCompare.hasChanges σ s t.
Proof. done. Qed.

(** X6. The inline [compareMetadata] drops repeated keys without a word:
    for every pair of lists it returns what the component's
    [compareMetadata] returns for the two lists reduced to the last item of
    each key (in the order in which the keys first occur), and so, when the
    keys of each side are unique, the same four lists as the component for
    the lists themselves. *)
Theorem inline_compareMetadata_as_component (σ : store) (source target : list ref) :
  (OrgCompareInlineReconcile.compareMetadata σ source target).2
  = (OrgCompare.compareMetadata σ (lastPerKey σ source) (lastPerKey σ target)).2
  ∧ (NoDup (keys σ source) → NoDup (keys σ target) →
     (OrgCompareInlineReconcile.compareMetadata σ source target).2
     = (OrgCompare.compareMetadata σ source target).2).
Proof.
  assert ((OrgCompareInlineReconcile.compareMetadata σ source target).2
          = (OrgCompare.compareMetadata σ (lastPerKey σ source) (lastPerKey σ target)).2)
    as Hgen.
  { destruct (inline_compareMetadata_spec σ source target) as (σ1 & -> & _).
    destruct (component_compareMetadata_spec σ (lastPerKey σ source) (lastPerKey σ target))
      as (σ2 & -> & _).
    cbn [snd]. f_equal; apply List.filter_ext; intros r.
    - by rewrite onlyIn_lastPerKey.
    - by rewrite onlyIn_lastPerKey.
    - unfold differs. by rewrite lastWithKey_lastPerKey.
    - unfold agrees. by rewrite lastWithKey_lastPerKey. }
  split; [done|]. intros Hs Ht.
  by rewrite Hgen, !lastPerKey_unique.
Qed.

(** X7. The four lists of the inline [compareMetadata] are disjoint and
    exhaustive for every input, with no condition on the keys: the keys of
    the returned items have no repetition, a key is among them exactly when
    it is a key of the source or of the target, every returned item is the
    last item of its side that has its key, and the four sizes add up to the
    size of the union of the two key sets. *)
Theorem inline_compareMetadata_partition (σ : store) (source target : list ref) :
  let result := (OrgCompareInlineReconcile.compareMetadata σ source target).2 in
  NoDup (keys σ (allItems result))
  ∧ (∀ k, k ∈ keys σ (allItems result) ↔ k ∈ keys σ source ∨ k ∈ keys σ target)
  ∧ (∀ r, r ∈ allItems result →
       lastWithKey σ source (fullName (σ r)) = Some r
       ∨ lastWithKey σ target (fullName (σ r)) = Some r)
  ∧ length (added result) + length (removed result)
    + length (changed result) + length (unchanged result)
    = size (list_to_set (keys σ source) ∪ list_to_set (keys σ target) : gset string).
Proof.
  intros result. subst result.
  destruct (inline_compareMetadata_spec σ source target) as (σ1 & -> & _).
  cbn [snd].
  set (P := lastPerKey σ source). set (Q := lastPerKey σ target).
  assert ({| added := List.filter (onlyIn σ target) P;
             removed := List.filter (onlyIn σ source) Q;
             changed := List.filter (differs OrgCompareInlineReconcile.hasChanges σ target) P;
             unchanged := List.filter (agrees OrgCompareInlineReconcile.hasChanges σ target) P |}
          = {| added := List.filter (onlyIn σ Q) P;
               removed := List.filter (onlyIn σ P) Q;
               changed := List.filter (differs OrgCompareInlineReconcile.hasChanges σ Q) P;
               unchanged := List.filter (agrees OrgCompareInlineReconcile.hasChanges σ Q) P |})
    as ->.
  { unfold P, Q. f_equal; apply List.filter_ext; intros r.
    - by rewrite onlyIn_lastPerKey.
    - by rewrite onlyIn_lastPerKey.
    - unfold differs. by rewrite lastWithKey_lastPerKey.
    - unfold agrees. by rewrite lastWithKey_lastPerKey. }
  pose proof (NoDup_keys_lastPerKey σ source) as HP.
  pose proof (NoDup_keys_lastPerKey σ target) as HQ.
  fold P in HP. fold Q in HQ.
  split_and!.
  - by apply NoDup_keys_allItems.
  - intros k. rewrite elem_of_keys_allItems. unfold P, Q.
    by rewrite !elem_of_keys_lastPerKey.
  - intros r. unfold allItems. cbn [added removed changed unchanged].
    rewrite !elem_of_app, !elem_of_filter_bool. unfold P, Q.
    rewrite !elem_of_lastPerKey. tauto.
  - rewrite (partition_sizes _ σ P Q HP HQ). f_equal.
    apply set_eq. intros k. unfold P, Q.
    by rewrite !elem_of_union, !elem_of_list_to_set, !elem_of_keys_lastPerKey.
Qed.

(** X8. [generateDiff] answers "No changes" exactly when both contents are
    defined, non-empty and equal; two absent or two empty contents are
    reported as not available, and the answer does not depend on the order
    of the two arguments. *)
Theorem generateDiff_cases (a b : option string) :
  (OrgCompareInlineReconcile.generateDiff a b = "No changes"
   ↔ OrgCompareInlineReconcile.present a = true ∧ a = b)
  ∧ (OrgCompareInlineReconcile.generateDiff a b = "Content has changed"
     ↔ OrgCompareInlineReconcile.present a = true
       ∧ OrgCompareInlineReconcile.present b = true ∧ a ≠ b)
  ∧ (OrgCompareInlineReconcile.generateDiff a b = "Content not available for comparison"
     ↔ OrgCompareInlineReconcile.present a = false
       ∨ OrgCompareInlineReconcile.present b = false)
  ∧ OrgCompareInlineReconcile.generateDiff a b
    = OrgCompareInlineReconcile.generateDiff b a.
Proof.
  unfold OrgCompareInlineReconcile.generateDiff.
  destruct (OrgCompareInlineReconcile.present a) eqn:Ha,
           (OrgCompareInlineReconcile.present b) eqn:Hb; simpl.
  - destruct (decide (a = b)) as [->|Hne].
    + rewrite !bool_decide_eq_true_2 by done.
      split_and!; [split; auto | split; [done|tauto] | split; [done|intros [|]; done] | done].
    + rewrite !bool_decide_eq_false_2 by done.
      split_and!; [split; [done|tauto] | split; auto | split; [done|intros [|]; done] | done].
  - split_and!; [split; [done|intros [_ ->]; congruence] | split; [done|intros (_ & ? & _); done]
                 | split; auto | done].
  - split_and!; [split; [done|intros [? _]; done] | split; [done|intros (? & _); done]
                 | split; auto | done].
  - split_and!; [split; [done|intros [? _]; done] | split; [done|intros (? & _); done]
                 | split; auto | done].
Qed.

(** X9. What the inline [compareMetadata] writes: an added, removed or
    unchanged item gets its status and nothing else; a changed item gets the
    status, the content of the target item kept under its key as
    [targetValue], and a [diff] summary that is never "No changes"; no badge
    class is written, and an item that is not returned is left alone. *)
Theorem inline_compareMetadata_writes (σ : store) (source target : list ref) :
  let out := OrgCompareInlineReconcile.compareMetadata σ source target in
  ∀ r,
    (r ∈ added out.2 → out.1 r = withStatus Added (σ r))
    ∧ (r ∈ removed out.2 → out.1 r = withStatus Removed (σ r))
    ∧ (r ∈ unchanged out.2 → out.1 r = withStatus Unchanged (σ r))
    ∧ (r ∈ changed out.2 →
       ∃ t, lastWithKey σ target (fullName (σ r)) = Some t
            ∧ out.1 r = changedWrite σ r t (σ r)
            ∧ targetValue (out.1 r) = sourceValue (σ t)
            ∧ diff (out.1 r) ≠ Some "No changes")
    ∧ (r ∉ allItems out.2 → out.1 r = σ r)
    ∧ statusBadgeClass (out.1 r) = statusBadgeClass (σ r).
Proof.
  intros out r. subst out.
  destruct (inline_compareMetadata_spec σ source target) as (σ' & -> & Hσ').
  cbn [fst snd added removed changed unchanged]. unfold allItems.
  cbn [added removed changed unchanged].
  set (P := lastPerKey σ source) in *. set (Q := lastPerKey σ target) in *.
  set (R := List.filter (onlyIn σ source) Q) in *.
  assert (r ∈ P → r ∉ R) as HPR.
  { intros HP%elem_of_lastPerKey [_ Hx]%elem_of_filter_bool.
    apply onlyIn_None in Hx. congruence. }
  rewrite Hσ'. rewrite !elem_of_app, !elem_of_filter_bool.
  unfold sourceWrite, differs, agrees.
  split_and!.
  - intros [HP Ha]. rewrite decide_False, decide_True by auto.
    apply onlyIn_None in Ha. by rewrite Ha.
  - intros HR. by rewrite decide_True.
  - intros [HP Hu]. rewrite decide_False, decide_True by auto.
    destruct (lastWithKey σ target (fullName (σ r))) as [t|]; [|done].
    by destruct (OrgCompareInlineReconcile.hasChanges σ r t).
  - intros [HP Hc]. rewrite decide_False, decide_True by auto.
    destruct (lastWithKey σ target (fullName (σ r))) as [t|]; [|done].
    rewrite Hc. exists t. split_and!; [done..|].
    simpl. intros [= Hd].
    apply (proj1 (generateDiff_cases _ _)) in Hd as [_ Heq].
    unfold OrgCompareInlineReconcile.hasChanges in Hc.
    by apply bool_decide_eq_true in Hc.
  - intros Hnone. rewrite decide_False.
    + rewrite decide_False; [done|]. intros HP. apply Hnone.
      destruct (lastWithKey σ target (fullName (σ r))) as [t|] eqn:Hlast.
      * destruct (OrgCompareInlineReconcile.hasChanges σ r t); simpl; tauto.
      * left. split; [done|]. by apply onlyIn_None.
    + intros HR. tauto.
  - destruct (decide (r ∈ R)); [done|].
    destruct (decide (r ∈ P)); [|done].
    destruct (lastWithKey σ target (fullName (σ r))) as [t|]; [|done].
    by destruct (OrgCompareInlineReconcile.hasChanges σ r t).
Qed.

(** ** Item properties, selection and the status tabs *)

(** A loop that rewrites each listed item with an idempotent function. *)
Lemma foldl_rewrite_items (f : MetadataItem → MetadataItem) (l : list ref) :
  (∀ it, f (f it) = f it) →
  ∀ (σ : store) x,
    foldl (λ σ0 r, <[r := f (σ0 r)]> σ0) σ l x
    = if decide (x ∈ l) then f (σ x) else σ x.
Proof.
  intros Hidem. induction l as [|r l IH]; intros σ x.
  - by rewrite decide_False by apply not_elem_of_nil.
  - cbn [foldl]. rewrite IH.
    destruct (decide (x = r)) as [->|Hne].
    + rewrite fn_lookup_insert, (decide_True (P := r ∈ r :: l)) by left.
      destruct (decide (r ∈ l)); by rewrite ?Hidem.
    + rewrite fn_lookup_insert_ne by done.
      apply decide_ext. rewrite elem_of_cons. intuition congruence.
Qed.

Lemma populateItem_idem (it : MetadataItem) : populateItem (populateItem it) = populateItem it.
Proof.
  unfold populateItem. destruct it as [? ? ? d ? [s|] ? ? ? ? ? ?]; simpl; [|done].
  done.
Qed.

Lemma populateItemProperties_lookup (σ : store) (result : MetadataComparison) (x : ref) :
  populateItemProperties σ (Some result) x
  = if decide (x ∈ allItems result) then populateItem (σ x) else σ x.
Proof. apply foldl_rewrite_items, populateItem_idem. Qed.

(** X10. [populateItemProperties] gives every item of the comparison the
    badge class of its status (an item without status keeps its badge class)
    and sets [lastModified] to the modification date, or to "Unknown" when
    the date is absent or empty; it changes nothing else (the item after the
    call is the item before it with those two properties replaced: type,
    names, dates, status, contents, diff and selection are as they were),
    leaves other items alone, and running it twice is the same as running
    it once. *)
Theorem populateItemProperties_sets (σ : store) (result : MetadataComparison) (x : ref) :
  let σ' := populateItemProperties σ (Some result) in
  (x ∈ allItems result →
     lastModified (σ' x) = Some (orElse (lastModifiedDate (σ x)) "Unknown")
     ∧ statusBadgeClass (σ' x)
       = match status (σ x) with
         | Some s => Some (badgeOf s)
         | None => statusBadgeClass (σ x)
         end
     ∧ mark (status (σ x)) (statusBadgeClass (σ x)) (σ' x)
       = withLastModified (orElse (lastModifiedDate (σ x)) "Unknown") (σ x)
     ∧ σ' x
       = {| type := type (σ x); name := name (σ x); fullName := fullName (σ x);
            lastModifiedDate := lastModifiedDate (σ x);
            lastModifiedBy := lastModifiedBy (σ x);
            status := status (σ x);
            sourceValue := sourceValue (σ x); targetValue := targetValue (σ x);
            diff := diff (σ x); selected := selected (σ x);
            statusBadgeClass := match status (σ x) with
                                | Some s => Some (badgeOf s)
                                | None => statusBadgeClass (σ x)
                                end;
            lastModified := Some (orElse (lastModifiedDate (σ x)) "Unknown") |})
  ∧ (x ∉ allItems result → σ' x = σ x)
  ∧ populateItemProperties σ' (Some result) x = σ' x
  ∧ populateItemProperties σ None x = σ x.
Proof.
  intros σ'. subst σ'. rewrite !populateItemProperties_lookup.
  split_and!.
  - intros Hin. rewrite decide_True by done. unfold populateItem.
    by destruct (σ x) as [? ? ? d ? [s|] ? ? ? ? ? ?].
  - intros Hno. by rewrite decide_False.
  - destruct (decide _); [by rewrite populateItem_idem|done].
  - done.
Qed.

(** X11. After a comparison, [populateItemProperties] changes nothing but
    [lastModified]: the badge classes it assigns are the ones
    [compareMetadata] has just written. *)
Theorem populateItemProperties_after_compare (σ : store) (source target : list ref) :
  let out := OrgCompare.compareMetadata σ source target in
  ∀ x,
    populateItemProperties out.1 (Some out.2) x
    = if decide (x ∈ allItems out.2)
      then withLastModified (orElse (lastModifiedDate (σ x)) "Unknown") (out.1 x)
      else out.1 x.
Proof.
  intros out x. rewrite populateItemProperties_lookup.
  destruct (decide (x ∈ allItems out.2)) as [Hin|]; [|done].
  pose proof (statusWritten_with _ σ source target component_hasChanges_frame x)
    as (Ha & Hr & Hc & Hu & _).
  fold OrgCompare.compareMetadata in Ha, Hr, Hc, Hu. fold out in Ha, Hr, Hc, Hu.
  unfold allItems in Hin. rewrite !elem_of_app in Hin.
  destruct Hin as [H|[H|[H|H]]];
    [rewrite (Ha H)|rewrite (Hr H)|rewrite (Hc H)|rewrite (Hu H)]; done.
Qed.

Lemma withSelected_idem (b : bool) (it : MetadataItem) :
  withSelected b (withSelected b it) = withSelected b it.
Proof. done. Qed.

Lemma selectEach_lookup (b : bool) (σ : store) (items : list ref) (x : ref) :
  Selection.selectEach b σ items x
  = if decide (x ∈ items) then withSelected b (σ x) else σ x.
Proof. apply (foldl_rewrite_items (withSelected b)), withSelected_idem. Qed.

Lemma selectEach_app (b : bool) (σ : store) (l1 l2 : list ref) :
  Selection.selectEach b (Selection.selectEach b σ l1) l2
  = Selection.selectEach b σ (l1 ++ l2).
Proof. unfold Selection.selectEach. by rewrite foldl_app. Qed.

Lemma filter_eq_forallb {A} (p : A → bool) (l : list A) :
  List.filter p l = l ↔ forallb p l = true.
Proof.
  induction l as [|x l IH]; simpl; [done|].
  destruct (p x) eqn:Hp; simpl.
  - rewrite <- IH. split; [by intros [= ->]|by intros ->].
  - split; [|done]. intros Heq.
    pose proof (List.filter_length_le p l) as Hle.
    rewrite Heq in Hle. simpl in Hle. lia.
Qed.

(** X12. [handleSelectAll] with [checked] sets the selection flag of every
    item of the comparison to [checked] and touches nothing else; afterwards
    the selected items are all the items of the comparison, in order, when
    [checked] is true and none when it is false, and [selectAll] is
    [checked]. Without a comparison it selects nothing and writes nothing. *)
Theorem handleSelectAll_selects (checked : bool) (σ : store) (this : Selection.State) :
  let out := Selection.handleSelectAll checked σ this in
  Selection.selectAll out.2 = checked
  ∧ Selection.comparisonResult out.2 = Selection.comparisonResult this
  ∧ match Selection.comparisonResult this with
    | None => Selection.selectedItems out.2 = [] ∧ ∀ x, out.1 x = σ x
    | Some result =>
        Selection.selectedItems out.2 = (if checked then allItems result else [])
        ∧ ∀ x, out.1 x = if decide (x ∈ allItems result)
                         then withSelected checked (σ x) else σ x
    end.
Proof.
  intros out. subst out. unfold Selection.handleSelectAll, Selection.updateSelectedItems.
  cbn [Selection.comparisonResult Selection.selectAll Selection.selectedItems fst snd].
  destruct (Selection.comparisonResult this) as [result|] eqn:Hcr;
    cbn [Selection.comparisonResult Selection.selectAll Selection.selectedItems fst snd];
    [|done].
  rewrite !selectEach_app. fold (allItems result).
  split; [done|]. split; [done|]. split; [|intros x; apply selectEach_lookup].
  destruct checked.
  - apply filter_all_true. intros x Hx. unfold Selection.isSelected.
    by rewrite selectEach_lookup, decide_True.
  - apply filter_all_false. intros x Hx. unfold Selection.isSelected.
    by rewrite selectEach_lookup, decide_True.
Qed.

(** X13. After [handleItemSelect], [selectAll] is on exactly when there is a
    comparison, it is not empty, and the selected items are all of its
    items. The handler writes to at most one item, the first item of the
    comparison whose key is the event's item name, and only its selection
    flag; when the name is missing, empty or not a key of the comparison it
    writes nothing. *)
Theorem handleItemSelect_state (itemName : option string) (checked : bool)
    (σ : store) (this : Selection.State) :
  let out := Selection.handleItemSelect itemName checked σ this in
  Selection.comparisonResult out.2 = Selection.comparisonResult this
  ∧ (Selection.selectAll out.2 = true
     ↔ ∃ result, Selection.comparisonResult this = Some result
                 ∧ allItems result ≠ []
                 ∧ Selection.selectedItems out.2 = allItems result)
  ∧ (∀ x, out.1 x ≠ σ x →
       ∃ result n, Selection.comparisonResult this = Some result
                   ∧ itemName = Some n ∧ n ≠ ""
                   ∧ List.find (λ i, String.eqb (fullName (σ i)) n) (allItems result) = Some x
                   ∧ out.1 x = withSelected checked (σ x))
  ∧ (∀ x y, out.1 x ≠ σ x → out.1 y ≠ σ y → x = y).
Proof.
  intros out. subst out.
  unfold Selection.handleItemSelect, Selection.updateSelectAllState,
    Selection.updateSelectedItems.
  cbn [fst snd].
  set (σ1 := match Selection.comparisonResult this with
             | Some result => _
             | None => σ
             end).
  assert (∀ x, σ1 x ≠ σ x →
            ∃ result n, Selection.comparisonResult this = Some result
                        ∧ itemName = Some n ∧ n ≠ ""
                        ∧ List.find (λ i, String.eqb (fullName (σ i)) n) (allItems result)
                          = Some x
                        ∧ σ1 x = withSelected checked (σ x)) as Hwrite.
  { intros x Hne. unfold σ1 in *.
    destruct (Selection.comparisonResult this) as [result|]; [|done].
    destruct itemName as [n|]; [|done].
    destruct (truthy n) eqn:Hn; [|done]. apply truthy_true in Hn.
    destruct (List.find _ (allItems result)) as [item|] eqn:Hf; [|done].
    destruct (decide (item = x)) as [->|Hd].
    - exists result, n. by rewrite fn_lookup_insert.
    - by rewrite fn_lookup_insert_ne in Hne. }
  split_and!.
  - by destruct (Selection.comparisonResult this).
  - destruct (Selection.comparisonResult this) as [result|] eqn:Hcr;
      cbn [Selection.comparisonResult Selection.selectAll Selection.selectedItems].
    + rewrite andb_true_iff, Nat.ltb_lt, <- filter_eq_forallb. split.
      * intros [Hlen Hall]. exists result. split_and!; [done| |done].
        intros Hnil. rewrite Hnil in Hlen. simpl in Hlen. lia.
      * intros (result' & [= <-] & Hne & Hsel). split; [|done].
        destruct (allItems result); [done|simpl; lia].
    + split; [done|]. by intros (? & ? & _).
  - exact Hwrite.
  - intros x y Hx Hy.
    destruct (Hwrite x Hx) as (r1 & n1 & Hr1 & Hn1 & _ & Hf1 & _).
    destruct (Hwrite y Hy) as (r2 & n2 & Hr2 & Hn2 & _ & Hf2 & _).
    rewrite Hr1 in Hr2. rewrite Hn1 in Hn2.
    injection Hr2 as <-. injection Hn2 as <-.
    rewrite Hf1 in Hf2. by injection Hf2.
Qed.


(** ** The inline filter *)

Lemma inline_status (σ : store) (source target : list ref) (r : ref) :
  let out := OrgCompareInlineReconcile.compareMetadata σ source target in
  (r ∈ added out.2 → status (out.1 r) = Some Added)
  ∧ (r ∈ removed out.2 → status (out.1 r) = Some Removed)
  ∧ (r ∈ changed out.2 → status (out.1 r) = Some Changed)
  ∧ (r ∈ unchanged out.2 → status (out.1 r) = Some Unchanged).
Proof.
  intros out. subst out.
  destruct (inline_compareMetadata_spec σ source target) as (σ' & -> & Hσ').
  cbn [fst snd added removed changed unchanged].
  rewrite Hσ'.
  assert (r ∈ lastPerKey σ source →
          r ∉ List.filter (onlyIn σ source) (lastPerKey σ target)) as HPR.
  { intros HP%elem_of_lastPerKey [_ Hx]%elem_of_filter_bool.
    apply onlyIn_None in Hx. congruence. }
  unfold sourceWrite, differs, agrees.
  split_and!.
  - intros [HP Ha]%elem_of_filter_bool. rewrite decide_False, decide_True by auto.
    apply onlyIn_None in Ha. by rewrite Ha.
  - intros HR. by rewrite decide_True.
  - intros [HP Hc]%elem_of_filter_bool. rewrite decide_False, decide_True by auto.
    destruct (lastWithKey σ target (fullName (σ r))) as [t|]; [|done].
    by rewrite Hc.
  - intros [HP Hu]%elem_of_filter_bool. rewrite decide_False, decide_True by auto.
    destruct (lastWithKey σ target (fullName (σ r))) as [t|]; [|done].
    by destruct (OrgCompareInlineReconcile.hasChanges σ r t).
Qed.

Lemma filterItems_by_status (toLowerCase : string → string)
    (f : ResultFilter.CompareFilter) (σ : store) (s : Status) (items : list ref) :
  ResultFilter.metadataTypes f = [] → ResultFilter.searchTerm f = "" →
  (∀ r, r ∈ items → status (σ r) = Some s) →
  ResultFilter.filterItems toLowerCase f σ items
  = if bool_decide (s ∈ ResultFilter.statuses f) then items else [].
Proof.
  intros Hty Hterm Hst. unfold ResultFilter.filterItems.
  case_bool_decide as Hs.
  - apply filter_all_true. intros r Hr.
    unfold ResultFilter.keeps, ResultFilter.statusListed.
    rewrite Hty, Hterm, (Hst r Hr). simpl. by rewrite bool_decide_eq_true_2.
  - apply filter_all_false. intros r Hr.
    unfold ResultFilter.keeps, ResultFilter.statusListed.
    rewrite Hty, Hterm, (Hst r Hr). simpl. by rewrite bool_decide_eq_false_2.
Qed.

(** X15. Right after an inline comparison, with no type selected and no
    search term, the filtered result shows in full the lists whose status is
    listed in [filter.status] and empties the others: the initial filter
    hides the unchanged items, [handleFilterAll] shows all four lists,
    [handleFilterAdded] only the added one, and an empty selection in
    [handleStatusFilterChange] falls back to added, removed and changed. *)
Theorem filteredComparisonResult_after_compare
    (toLowerCase : string → string) (σ : store) (source target : list ref) :
  let out := OrgCompareInlineReconcile.compareMetadata σ source target in
  let view := λ f, ResultFilter.filteredComparisonResult toLowerCase f out.1 (Some out.2) in
  let pick := λ (l : list Status) s (items : list ref),
                if bool_decide (s ∈ l) then items else [] in
  (∀ l, view (ResultFilter.setStatuses l ResultFilter.initialFilter)
        = Some {| added := pick l Added (added out.2);
                  removed := pick l Removed (removed out.2);
                  changed := pick l Changed (changed out.2);
                  unchanged := pick l Unchanged (unchanged out.2) |})
  ∧ view ResultFilter.initialFilter
    = Some {| added := added out.2; removed := removed out.2;
              changed := changed out.2; unchanged := [] |}
  ∧ view (ResultFilter.handleFilterAll ResultFilter.initialFilter) = Some out.2
  ∧ view (ResultFilter.handleFilterAdded ResultFilter.initialFilter)
    = Some {| added := added out.2; removed := []; changed := []; unchanged := [] |}
  ∧ view (ResultFilter.handleStatusFilterChange [] ResultFilter.initialFilter)
    = view ResultFilter.initialFilter.
Proof.
  intros out view pick.
  assert (∀ l, view (ResultFilter.setStatuses l ResultFilter.initialFilter)
               = Some {| added := pick l Added (added out.2);
                         removed := pick l Removed (removed out.2);
                         changed := pick l Changed (changed out.2);
                         unchanged := pick l Unchanged (unchanged out.2) |}) as Hgen.
  { intros l. unfold view, ResultFilter.filteredComparisonResult, pick.
    rewrite (filterItems_by_status _ _ _ Added), (filterItems_by_status _ _ _ Removed),
      (filterItems_by_status _ _ _ Changed), (filterItems_by_status _ _ _ Unchanged);
      try done; intros r Hr; by apply (inline_status σ source target r). }
  split; [exact Hgen|].
  split; [apply (Hgen [Added; Removed; Changed])|].
  split; [rewrite (Hgen [Added; Removed; Changed; Unchanged] : view (ResultFilter.handleFilterAll _) = _);
          by destruct out.2|].
  split; [apply (Hgen [Added])|done].
Qed.

(** ** The diff viewer *)

(** X16. [navigateLines] keeps the selected line inside the diff: the new
    index is between 0 and the last line (0 when there is no line at all),
    it is the old index plus the direction whenever that is a line of the
    diff, and the lines themselves are not touched. The key handler does
    nothing outside fullscreen and never switches fullscreen on. *)
Theorem navigateLines_bounds (direction : Z) (key : string) (ctrlOrMeta : bool)
    (this : DiffViewer.State) :
  let maxLines := Z.max (Z.of_nat (length (DiffViewer.sourceLines this)))
                        (Z.of_nat (length (DiffViewer.targetLines this))) in
  let this' := DiffViewer.navigateLines direction this in
  (0 ≤ DiffViewer.selectedLine this' ≤ Z.max 0 (maxLines - 1))%Z
  ∧ ((0 ≤ DiffViewer.selectedLine this + direction < maxLines)%Z →
     DiffViewer.selectedLine this' = (DiffViewer.selectedLine this + direction)%Z)
  ∧ DiffViewer.sourceLines this' = DiffViewer.sourceLines this
  ∧ DiffViewer.targetLines this' = DiffViewer.targetLines this
  ∧ (DiffViewer.isFullscreen this = false →
     DiffViewer.handleKeyDown key ctrlOrMeta this = this)
  ∧ (DiffViewer.isFullscreen (DiffViewer.handleKeyDown key ctrlOrMeta this) = true →
     DiffViewer.isFullscreen this = true)
  ∧ (0 ≤ DiffViewer.selectedLine (DiffViewer.handleKeyDown key ctrlOrMeta this)
     ∨ DiffViewer.selectedLine (DiffViewer.handleKeyDown key ctrlOrMeta this)
       = DiffViewer.selectedLine this)%Z.
Proof.
  intros maxLines this'. subst this'. cbn [DiffViewer.navigateLines DiffViewer.selectedLine
    DiffViewer.sourceLines DiffViewer.targetLines].
  fold maxLines.
  split_and!; try done.
  - lia.
  - lia.
  - lia.
  - intros Hfull. unfold DiffViewer.handleKeyDown. by rewrite Hfull.
  - unfold DiffViewer.handleKeyDown.
    destruct (DiffViewer.isFullscreen this) eqn:Hfull; [done|]. simpl. by rewrite Hfull.
  - unfold DiffViewer.handleKeyDown.
    destruct (DiffViewer.isFullscreen this); simpl; [|by right].
    destruct (String.eqb key "Escape"); [by right|].
    destruct (String.eqb key "f" || String.eqb key "F");
      [destruct ctrlOrMeta; by right|].
    destruct (String.eqb key "ArrowUp"); [left; simpl; lia|].
    destruct (String.eqb key "ArrowDown"); [left; simpl; lia|by right].
Qed.

Lemma countType_app (s : Status) (l1 l2 : list DiffViewer.DiffLine) :
  DiffViewer.countType s (l1 ++ l2)
  = DiffViewer.countType s l1 + DiffViewer.countType s l2.
Proof. unfold DiffViewer.countType. by rewrite List.filter_app, length_app. Qed.

Lemma countType_rows (s : Status) (rows : list (OrgCompare.DiffLine * OrgCompare.DiffLine)) :
  (∀ row, row ∈ rows → OrgCompare.line_type row.2 = OrgCompare.line_type row.1) →
  DiffViewer.countType s (map DiffViewer.ofLine (map snd rows))
  = DiffViewer.countType s (map DiffViewer.ofLine (map fst rows)).
Proof.
  unfold DiffViewer.countType.
  induction rows as [|[a b] rows IH]; intros Hty; [done|]. simpl.
  assert (OrgCompare.line_type b = OrgCompare.line_type a) as ->
    by (apply (Hty (a, b)); left).
  destruct (bool_decide _); simpl; rewrite IH; try done;
    intros row Hrow; apply Hty; by right.
Qed.

Lemma countType_total (lines : list DiffViewer.DiffLine) :
  (∀ l, l ∈ lines → is_Some (DiffViewer.line_type l)) →
  DiffViewer.countType Added lines + DiffViewer.countType Removed lines
  + DiffViewer.countType Changed lines + DiffViewer.countType Unchanged lines
  = length lines.
Proof.
  unfold DiffViewer.countType.
  induction lines as [|l lines IH]; intros Hty; [done|]. simpl.
  destruct (Hty l) as [s Hs]; [left|]. rewrite Hs.
  specialize (IH (λ x Hx, Hty x (list_elem_of_further _ _ _ Hx))).
  destruct s; simpl; lia.
Qed.

(** X17. The statistics of the viewer count every row of a generated diff
    twice, once for each column: after [generateDiffContent] the number of
    added (removed, changed, unchanged) lines the viewer reports is twice the
    number of rows of that type, and the four numbers add up to twice the
    number of rows. *)
Theorem diffStats_of_generated (σ : store) (it : ref)
    (view : OrgCompare.State) (viewer : DiffViewer.State) :
  OrgCompare.selectedDiffItem view = Some it →
  let generated := OrgCompare.diffViewerContent (OrgCompare.generateDiffContent σ view) in
  DiffViewer.diffContent viewer = Some (DiffViewer.ofContent generated) →
  let stats := DiffViewer.diffStats (DiffViewer.updateDiffContent viewer) in
  let rows := map DiffViewer.ofLine (OrgCompare.sourceLines generated) in
  DiffViewer.st_added stats = 2 * DiffViewer.countType Added rows
  ∧ DiffViewer.st_removed stats = 2 * DiffViewer.countType Removed rows
  ∧ DiffViewer.st_changed stats = 2 * DiffViewer.countType Changed rows
  ∧ DiffViewer.st_unchanged stats = 2 * DiffViewer.countType Unchanged rows
  ∧ DiffViewer.st_added stats + DiffViewer.st_removed stats
    + DiffViewer.st_changed stats + DiffViewer.st_unchanged stats
    = 2 * Nat.max (length (split newline (orEmpty (sourceValue (σ it)))))
                  (length (split newline (orEmpty (targetValue (σ it))))).
Proof.
  intros Hsel generated Hdc stats rows. subst stats rows generated.
  unfold DiffViewer.updateDiffContent, DiffViewer.diffStats. rewrite Hdc.
  cbn [DiffViewer.sourceLines DiffViewer.targetLines DiffViewer.st_added
       DiffViewer.st_removed DiffViewer.st_changed DiffViewer.st_unchanged
       DiffViewer.ofContent DiffViewer.dc_sourceLines DiffViewer.dc_targetLines].
  rewrite !countType_app.
  rewrite (view_rows σ it view Hsel).
  cbn [OrgCompare.sourceLines OrgCompare.targetLines].
  set (rows := map _ (seq 0 _)).
  assert (∀ row, row ∈ rows →
            OrgCompare.line_type row.2 = OrgCompare.line_type row.1) as Hty.
  { intros row Hrow. unfold rows in Hrow.
    apply list_elem_of_In, in_map_iff in Hrow as (i & <- & _). done. }
  rewrite !(countType_rows _ rows Hty).
  split_and!; [lia..|].
  assert (length (map DiffViewer.ofLine (map fst rows))
          = Nat.max (length (split newline (orEmpty (sourceValue (σ it)))))
                    (length (split newline (orEmpty (targetValue (σ it)))))) as Hlen.
  { unfold rows. by rewrite !length_map, length_seq. }
  rewrite <- Hlen, <- countType_total; [lia|].
  intros l Hl. apply list_elem_of_In, in_map_iff in Hl as (x & <- & _). by eexists.
Qed.

Lemma diffStats_of_generated_witness :
  DiffViewer.st_changed
    (DiffViewer.diffStats
       (DiffViewer.updateDiffContent
          (exampleViewer
             (Some (DiffViewer.ofContent
                      (OrgCompare.diffViewerContent
                         (OrgCompare.generateDiffContent exampleStore
                            (exampleView None (Some 5))))))))) = 2.
Proof.
  refine (proj1 (proj2 (proj2
    (diffStats_of_generated exampleStore 5 (exampleView None (Some 5))
       (exampleViewer _) eq_refl eq_refl)))).
Defined.

(** ** String helpers *)

Example stripAnsiCodes_test :
  stripAnsiCodes (Some (String escape "[32mHello" +:+ String escape "[0m World"))
  = "Hello World".
Proof. reflexivity. Qed.

Example extract_examples :
  extractMetadataType "classes/Foo.cls" = "classes"
  ∧ extractMetadataName "classes/Foo.cls" = "Foo"
  ∧ extractMetadataName "CustomField/Account.Phone" = "Account"
  ∧ extractMetadataName "a/b.c.d/e.f" = "b.c"
  ∧ extractMetadataType "Foo" = "Unknown"
  ∧ isSalesforceMetadataFile asciiLower "src/Foo.CLS" = true
  ∧ isSalesforceMetadataFile asciiLower "src/Foo.validationRule" = false
  ∧ isSalesforceMetadataFile asciiLower "a/force-app/x" = true
  ∧ isSalesforceMetadataFile asciiLower "noext" = false
  ∧ lowerCaseExtensions = [
  ".cls"; ".trigger"; ".page"; ".component"; ".object"; ".field";
  ".permissionset"; ".profile"; ".layout"; ".tab"; ".app"; ".workflow";
  ".queue"; ".group"; ".role"; ".flow"; ".letterhead"; ".document"; ".staticresource";
  ".aura"; ".lwc"; ".wave"; ".dashboard"; ".report"].
Proof. repeat split; vm_compute; reflexivity. Qed.

Lemma codeLength_no_escape (c : ascii) (s : string) :
  Ascii.eqb c escape = false → codeLength (String c s) = None.
Proof. intros Hc. simpl. destruct s; [done|]. by rewrite Hc. Qed.

Lemma stripFrom_lacks (t : string) :
  lacks escape t = true → stripFrom 0 t = t.
Proof.
  induction t as [|c t IH]; [done|].
  cbn [lacks]. intros [Hc Ht]%andb_true_iff.
  apply negb_true_iff in Hc.
  cbn [stripFrom]. rewrite (codeLength_no_escape _ _ Hc).
  by rewrite IH.
Qed.

Lemma stripFrom_length (skip : nat) (s : string) :
  (String.length (stripFrom skip s) ≤ String.length s)%nat.
Proof.
  revert skip. induction s as [|c s IH]; intros skip; [simpl; lia|].
  cbn [stripFrom]. destruct skip as [|k].
  - destruct (codeLength (String c s)) as [n|].
    + specialize (IH (n - 1)). simpl. lia.
    + specialize (IH 0). simpl. lia.
  - specialize (IH k). simpl. lia.
Qed.

Lemma stripFrom_skip (a b : string) :
  stripFrom (String.length a) (a +:+ b) = stripFrom 0 b.
Proof.
  induction a as [|c a IH]; [done|].
  change (String c a +:+ b) with (String c (a +:+ b)).
  cbn [String.length stripFrom]. apply IH.
Qed.

Lemma paramsThenM_run (params post : string) :
  allParams params = true →
  paramsThenM (params +:+ String "m" post) = Some (S (String.length params)).
Proof.
  induction params as [|c p IH]; [done|].
  cbn [allParams]. intros [Hc Hp]%andb_true_iff.
  change (String c p +:+ String "m" post) with (String c (p +:+ String "m" post)).
  cbn [paramsThenM String.length]. rewrite Hc.
  by rewrite (IH Hp).
Qed.

Lemma length_append (a b : string) :
  String.length (a +:+ b) = (String.length a + String.length b)%nat.
Proof.
  induction a as [|c a IH]; [done|].
  change (String c a +:+ b) with (String c (a +:+ b)).
  cbn [String.length]. by rewrite IH.
Qed.

Lemma stripFrom_code_head (rest : string) (n : nat) :
  paramsThenM rest = Some n →
  stripFrom 0 (String escape (String "[" rest)) = stripFrom n rest.
Proof.
  intros Hn. cbn [stripFrom codeLength]. rewrite Hn.
  change (Ascii.eqb escape escape && Ascii.eqb "[" "[") with true.
  cbn match. by replace (n + 2 - 1) with (S n) by lia.
Qed.

Lemma stripFrom_code (pre params post : string) :
  lacks escape pre = true → allParams params = true →
  stripFrom 0 (pre +:+ String escape (String "[" (params +:+ String "m" post)))
  = pre +:+ stripFrom 0 post.
Proof.
  intros Hpre Hparams.
  induction pre as [|c pre IH].
  - change ("" +:+ ?x) with x.
    rewrite (stripFrom_code_head _ _ (paramsThenM_run _ post Hparams)).
    change ("" +:+ ?x) with x.
    replace (S (String.length params)) with (String.length (params +:+ "m")).
    + replace (params +:+ String "m" post) with ((params +:+ "m") +:+ post)
        by by rewrite append_assoc.
      apply stripFrom_skip.
    + rewrite length_append. simpl. lia.
  - cbn [lacks] in Hpre. apply andb_true_iff in Hpre as [Hc Hpre].
    apply negb_true_iff in Hc.
    match goal with |- context [String c pre +:+ ?x] =>
      change (String c pre +:+ x) with (String c (pre +:+ x)) end.
    cbn [stripFrom].
    match goal with |- context [codeLength (String c ?r)] =>
      rewrite (codeLength_no_escape c r Hc) end.
    change (String c pre +:+ ?x) with (String c (pre +:+ x)).
    f_equal. apply (IH Hpre).
Qed.

(** X18. [stripAnsiCodes] removes colour codes and nothing else: a text
    without the escape character comes back unchanged, the result is never
    longer than the text, and a code [ESC [ params m] (parameters being
    digits and semicolons) that follows escape-free text is dropped, the
    rest being stripped in turn.  The method makes one pass: its result can
    still contain a code, that two escape characters in a row leave
    behind. *)
Theorem stripAnsiCodes_removes_codes :
  stripAnsiCodes None = ""
  ∧ (∀ t, lacks escape t = true → stripAnsiCodes (Some t) = t)
  ∧ (∀ t, (String.length (stripAnsiCodes (Some t)) ≤ String.length t)%nat)
  ∧ (∀ pre params post,
       lacks escape pre = true → allParams params = true →
       stripAnsiCodes
         (Some (pre +:+ String escape (String "[" (params +:+ String "m" post))))
       = pre +:+ stripAnsiCodes (Some post))
  ∧ (∃ t, stripAnsiCodes (Some (stripAnsiCodes (Some t)))
          ≠ stripAnsiCodes (Some t)).
Proof.
  assert (Hstrip : ∀ t, stripAnsiCodes (Some t) = stripFrom 0 t).
  { intros [|c t]; reflexivity. }
  split; [done|]. split; [|split; [|split]].
  - intros t Ht. rewrite Hstrip. by apply stripFrom_lacks.
  - intros t. rewrite Hstrip. apply stripFrom_length.
  - intros pre params post Hpre Hparams. rewrite !Hstrip.
    by apply stripFrom_code.
  - exists (String escape (String escape "[0m[0m")). vm_compute. discriminate.
Qed.

Lemma split_lacks (sep : ascii) (s : string) :
  lacks sep s = true → split sep s = [s].
Proof.
  induction s as [|c s IH]; [done|].
  cbn [lacks split]. intros [Hc Hs]%andb_true_iff.
  apply negb_true_iff in Hc. rewrite Hc. by rewrite (IH Hs).
Qed.

Lemma split_segment (sep : ascii) (t rest : string) :
  lacks sep t = true →
  split sep (t +:+ String sep rest) = t :: split sep rest.
Proof.
  induction t as [|c t IH].
  - intros _. change ("" +:+ ?x) with x. cbn [split].
    by rewrite Ascii.eqb_refl.
  - cbn [lacks]. intros [Hc Ht]%andb_true_iff.
    apply negb_true_iff in Hc.
    change (String c t +:+ ?x) with (String c (t +:+ x)).
    cbn [split]. rewrite Hc. by rewrite (IH Ht).
Qed.

Lemma stripExtension_lacks (n : string) :
  lacks dot n = true → stripExtension n = n.
Proof.
  induction n as [|c n IH]; [done|].
  cbn [lacks stripExtension]. intros [Hc Hn]%andb_true_iff.
  apply negb_true_iff in Hc. rewrite Hc. cbn [andb]. by rewrite (IH Hn).
Qed.

Lemma allWord_dot (a e : string) : allWord (a +:+ String dot e) = false.
Proof.
  induction a as [|c a IH]; [done|].
  change (String c a +:+ ?x) with (String c (a +:+ x)).
  cbn [allWord]. rewrite IH. apply andb_false_r.
Qed.

Lemma stripExtension_suffix (b e : string) :
  e ≠ "" → allWord e = true → stripExtension (b +:+ String dot e) = b.
Proof.
  intros He Hword. induction b as [|c b IH].
  - change ("" +:+ ?x) with x. cbn [stripExtension].
    rewrite Ascii.eqb_refl, Hword. by destruct e.
  - change (String c b +:+ ?x) with (String c (b +:+ x)).
    cbn [stripExtension]. rewrite allWord_dot, andb_false_r. by rewrite IH.
Qed.

(** X19. A path is read as [type/name.ext/...]: without a slash the type is
    [Unknown] and the name is the path itself; otherwise the type is the
    text before the first slash and the name is the second segment without
    its extension, whatever follows a second slash.  The extension dropped
    is what follows the last dot when that is one or more word characters,
    so [Account.Phone] is named [Account]; a segment without a dot is kept
    whole. *)
Theorem extractMetadata_segments :
  (∀ p, lacks slash p = true →
        extractMetadataType p = "Unknown" ∧ extractMetadataName p = p)
  ∧ (∀ t n, lacks slash t = true → lacks slash n = true →
        extractMetadataType (t +:+ String slash n) = t
        ∧ extractMetadataName (t +:+ String slash n) = stripExtension n
        ∧ ∀ rest,
            extractMetadataType (t +:+ String slash (n +:+ String slash rest)) = t
            ∧ extractMetadataName (t +:+ String slash (n +:+ String slash rest))
              = stripExtension n)
  ∧ (∀ n, lacks dot n = true → stripExtension n = n)
  ∧ (∀ b e, e ≠ "" → allWord e = true →
        stripExtension (b +:+ String dot e) = b).
Proof.
  split; [|split; [|split]].
  - intros p Hp. unfold extractMetadataType, extractMetadataName.
    by rewrite (split_lacks _ _ Hp).
  - intros t n Ht Hn. unfold extractMetadataType, extractMetadataName.
    rewrite (split_segment _ _ _ Ht), (split_lacks _ _ Hn).
    split; [done|]. split; [done|].
    intros rest. rewrite (split_segment _ _ _ Ht), (split_segment _ _ _ Hn).
    done.
  - apply stripExtension_lacks.
  - apply stripExtension_suffix.
Qed.

Lemma hasUpper_substringFrom (k : nat) (s : string) :
  hasUpper s = false → hasUpper (substringFrom k s) = false.
Proof.
  revert s. induction k as [|k IH]; intros s Hs; [done|].
  destruct s as [|c s]; [done|].
  cbn [substringFrom]. apply IH.
  cbn [hasUpper] in Hs. by apply orb_false_iff in Hs as [_ Hs].
Qed.

Lemma lowerChar_not_upper (c : ascii) : isUpper (lowerChar c) = false.
Proof. by destruct c as [[] [] [] [] [] [] [] []]. Qed.

Lemma asciiLower_no_upper (s : string) : hasUpper (asciiLower s) = false.
Proof.
  induction s as [|c s IH]; [done|].
  cbn [asciiLower hasUpper]. by rewrite lowerChar_not_upper, IH.
Qed.

(** X20. The extension test of [isSalesforceMetadataFile] compares the
    lower-cased extension with a list in which seven entries are written in
    camel case ([.validationRule], [.sharingRule], [.customPermission],
    [.processBuilder], [.quickAction], [.emailTemplate], [.reportType]):
    as lower-casing leaves no upper-case letter, those entries never match,
    and the method accepts exactly the paths whose lower-cased extension is
    one of the other twenty-four or that contain [/force-app/] or
    [/metadata/]. *)
Theorem isSalesforceMetadataFile_lower_case
    (toLowerCase : string → string)
    (Hlower : ∀ s, hasUpper (toLowerCase s) = false) (filePath : string) :
  isSalesforceMetadataFile toLowerCase filePath
  = bool_decide (fileExtension toLowerCase filePath ∈ lowerCaseExtensions)
    || includes filePath "/force-app/"
    || includes filePath "/metadata/".
Proof.
  unfold isSalesforceMetadataFile. cbv zeta. do 2 f_equal.
  apply bool_decide_ext. unfold lowerCaseExtensions.
  rewrite !list_elem_of_In, List.filter_In.
  assert (hasUpper (fileExtension toLowerCase filePath) = false) as ->.
  { apply hasUpper_substringFrom, Hlower. }
  simpl negb. tauto.
Qed.

Lemma isSalesforceMetadataFile_lower_case_witness :
  isSalesforceMetadataFile asciiLower "src/Account.validationRule" = false.
Proof.
  exact (isSalesforceMetadataFile_lower_case asciiLower asciiLower_no_upper
           "src/Account.validationRule").
Defined.

(** ** Comparing what retrieval builds *)

Lemma fromGit_sourceValue (item : MetadataItem) :
  fromGit item → sourceValue item = Some ("Git file: " +:+ fullName item).
Proof.
  intros (toLowerCase & trim & clock & stdout & Hin).
  unfold gitMetadataItems in Hin.
  destruct stdout as [out|]; [|by apply elem_of_nil in Hin].
  destruct (truthy out); [|by apply elem_of_nil in Hin].
  cbv zeta in Hin.
  apply list_elem_of_lookup in Hin as [i Hi].
  rewrite list_lookup_imap in Hi.
  destruct (_ !! i) as [file|]; [|done].
  simpl in Hi. by injection Hi as <-.
Qed.

Lemma fromOrgList_sourceValue (item : MetadataItem) :
  fromOrgList item →
  sourceValue item
  = Some ("Metadata from " +:+ fullName item +:+ " (" +:+ type item +:+ ")").
Proof.
  intros (metadataList & metadataType & Hin).
  unfold parseMetadataListResponse in Hin.
  by apply list_elem_of_fmap in Hin as (md & -> & _).
Qed.

Lemma append_cancel_l (a x y : string) : a +:+ x = a +:+ y → x = y.
Proof.
  induction a as [|c a IH]; [done|].
  change (String c a +:+ ?z) with (String c (a +:+ z)).
  intros [= H]. by apply IH.
Qed.

Lemma append_cancel_char (c : ascii) (x y : string) :
  x +:+ String c "" = y +:+ String c "" → x = y.
Proof.
  revert y. induction x as [|a x IH]; intros [|b y].
  - done.
  - change ("" +:+ ?z) with z. change (String b y +:+ ?z) with (String b (y +:+ z)).
    intros [= _ H]. by destruct y.
  - change ("" +:+ ?z) with z. change (String a x +:+ ?z) with (String a (x +:+ z)).
    intros [= _ H]. by destruct x.
  - change (String a x +:+ ?z) with (String a (x +:+ z)).
    change (String b y +:+ ?z) with (String b (y +:+ z)).
    intros [= -> H]. f_equal. by apply IH.
Qed.

Lemma git_org_sourceValue (g o : MetadataItem) :
  fromGit g → fromOrgList o → sourceValue g ≠ sourceValue o.
Proof.
  intros Hg Ho. rewrite (fromGit_sourceValue _ Hg), (fromOrgList_sourceValue _ Ho).
  change ("Git file: " +:+ ?x) with (String "G" ("it file: " +:+ x)).
  change ("Metadata from " +:+ ?x) with (String "M" ("etadata from " +:+ x)).
  discriminate.
Qed.

Lemma org_org_sourceValue (a b : MetadataItem) :
  fromOrgList a → fromOrgList b → fullName a = fullName b →
  sourceValue a = sourceValue b ↔ type a = type b.
Proof.
  intros Ha Hb Hk.
  rewrite (fromOrgList_sourceValue _ Ha), (fromOrgList_sourceValue _ Hb), Hk.
  split; [|by intros ->].
  intros [= H].
  apply append_cancel_l, append_cancel_l, append_cancel_l in H.
  by apply append_cancel_char in H.
Qed.

(** X21. Two git listings never compare as changed, and a git listing never
    compares as unchanged with an org listing: [retrieveGitMetadata] gives
    every item the content [Git file: <path>], which is determined by the
    key, so for source items from git the component's [compareMetadata]
    reports no changed item when the target is from git too, and no
    unchanged item when the target comes from
    [parseMetadataListResponse]. *)
Theorem compareMetadata_git_source (σ : store) (source target : list ref) :
  (∀ s, s ∈ source → fromGit (σ s)) →
  let result := (OrgCompare.compareMetadata σ source target).2 in
  ((∀ t, t ∈ target → fromGit (σ t)) → changed result = [])
  ∧ ((∀ t, t ∈ target → fromOrgList (σ t)) → unchanged result = []).
Proof.
  intros Hsource result. subst result.
  destruct (component_compareMetadata_spec σ source target) as (σ' & -> & _).
  cbn [snd changed unchanged]. split; intros Htarget.
  - apply filter_all_false. intros s Hs. unfold differs.
    destruct (lastWithKey σ target (fullName (σ s))) as [t|] eqn:Ht; [|done].
    apply lastWithKey_Some in Ht as [Ht Hk].
    unfold OrgCompare.hasChanges. apply bool_decide_eq_false. intros Hne.
    apply Hne.
    by rewrite (fromGit_sourceValue _ (Hsource s Hs)),
               (fromGit_sourceValue _ (Htarget t Ht)), Hk.
  - apply filter_all_false. intros s Hs. unfold agrees.
    destruct (lastWithKey σ target (fullName (σ s))) as [t|] eqn:Ht; [|done].
    apply lastWithKey_Some in Ht as [Ht Hk].
    unfold OrgCompare.hasChanges. apply negb_false_iff, bool_decide_eq_true.
    apply git_org_sourceValue; auto.
Qed.

Lemma compareMetadata_git_source_witness :
  changed (OrgCompare.compareMetadata gitStore [0] [1]).2 = [].
Proof.
  assert (Hgit : ∀ r, r ∈ [0; 1] → fromGit (gitStore r)).
  { intros r Hr. exists asciiLower, id.
    apply elem_of_cons in Hr as [->|Hr]; [|apply list_elem_of_singleton in Hr as ->].
    - exists (λ _, "2024-01-01T00:00:00.000Z"), (Some "force-app/classes/Foo.cls").
      vm_compute. left.
    - exists (λ _, "2024-02-02T00:00:00.000Z"), (Some "force-app/classes/Foo.cls").
      vm_compute. left. }
  refine (proj1 (compareMetadata_git_source gitStore [0] [1] _) _).
  - intros s Hs. apply Hgit, elem_of_cons. left.
    by apply list_elem_of_singleton in Hs.
  - intros t Ht. apply Hgit, elem_of_cons. by right.
Defined.

(** X22. Between two org listings the component's [compareMetadata] reports
    a source item as changed exactly when the target item kept under its
    full name has another metadata type: [parseMetadataListResponse] sets
    the content of an item from its full name and type alone, and the keys
    of the comparison are full names without the type.  Against a git
    listing it reports no item as unchanged. *)
Theorem compareMetadata_org_source (σ : store) (source target : list ref) :
  (∀ s, s ∈ source → fromOrgList (σ s)) →
  let result := (OrgCompare.compareMetadata σ source target).2 in
  ((∀ t, t ∈ target → fromOrgList (σ t)) →
     ∀ s, s ∈ changed result ↔
          s ∈ source
          ∧ ∃ t, lastWithKey σ target (fullName (σ s)) = Some t
                 ∧ type (σ s) ≠ type (σ t))
  ∧ ((∀ t, t ∈ target → fromGit (σ t)) → unchanged result = []).
Proof.
  intros Hsource result. subst result.
  destruct (component_compareMetadata_spec σ source target) as (σ' & -> & _).
  cbn [snd changed unchanged]. split; intros Htarget.
  - intros s. rewrite elem_of_filter_bool. unfold differs.
    split.
    + intros [Hs Hd]. split; [done|].
      destruct (lastWithKey σ target (fullName (σ s))) as [t|] eqn:Ht; [|done].
      exists t. split; [done|].
      apply lastWithKey_Some in Ht as [Ht Hk].
      unfold OrgCompare.hasChanges in Hd. apply bool_decide_eq_true in Hd.
      intros Hty. apply Hd.
      by apply org_org_sourceValue; auto.
    + intros [Hs (t & Ht & Hty)]. split; [done|]. rewrite Ht.
      apply lastWithKey_Some in Ht as [Ht Hk].
      unfold OrgCompare.hasChanges. apply bool_decide_eq_true.
      intros Hsv. apply Hty.
      by apply (org_org_sourceValue (σ s) (σ t)); auto.
  - apply filter_all_false. intros s Hs. unfold agrees.
    destruct (lastWithKey σ target (fullName (σ s))) as [t|] eqn:Ht; [|done].
    apply lastWithKey_Some in Ht as [Ht Hk].
    unfold OrgCompare.hasChanges. apply negb_false_iff, bool_decide_eq_true.
    intros Heq. symmetry in Heq. revert Heq.
    apply git_org_sourceValue; auto.
Qed.

Lemma compareMetadata_org_source_witness :
  2 ∈ changed (OrgCompare.compareMetadata gitStore [2] [3]).2.
Proof.
  assert (Horg : ∀ r, r ∈ [2; 3] → fromOrgList (gitStore r)).
  { intros r Hr.
    exists [{| lm_fullName := "Account"; lm_lastModifiedDate := None;
               lm_lastModifiedByName := None |}].
    apply elem_of_cons in Hr as [->|Hr]; [|apply list_elem_of_singleton in Hr as ->].
    - exists "ApexClass". left.
    - exists "CustomObject". left. }
  refine (proj2 (proj1 (compareMetadata_org_source gitStore [2] [3] _) _ 2) _).
  - intros s Hs. apply Horg, elem_of_cons. left.
    by apply list_elem_of_singleton in Hs.
  - intros t Ht. apply Horg, elem_of_cons. by right.
  - split; [left|]. exists 3. split; [reflexivity|]. vm_compute. discriminate.
Defined.

(** ** The manifest keeps every item *)

Lemma memberCount_app (m1 m2 : list (string * list string)) :
  memberCount (m1 ++ m2) = (memberCount m1 + memberCount m2)%nat.
Proof. unfold memberCount. by rewrite map_app, list_sum_app. Qed.

Lemma memberCount_cons (e : string * list string) (m : list (string * list string)) :
  memberCount (e :: m) = (length e.2 + memberCount m)%nat.
Proof. done. Qed.

Lemma memberCount_pushName (m : list (string * list string)) (t n : string) :
  hasType m t = true → memberCount (pushName m t n) = S (memberCount m).
Proof.
  induction m as [|[x ns] m IH]; [done|].
  cbn [hasType pushName]. destruct (String.eqb x t); cbn [orb].
  - intros _. rewrite !memberCount_cons. cbn [snd].
    rewrite length_app. simpl. lia.
  - intros Hm. rewrite !memberCount_cons, (IH Hm). lia.
Qed.

Lemma hasType_snoc (m : list (string * list string)) (t : string) (ns : list string) :
  hasType (m ++ [(t, ns)]) t = true.
Proof.
  induction m as [|[x xs] m IH]; simpl.
  - by rewrite String.eqb_refl.
  - rewrite IH. apply orb_true_r.
Qed.

Lemma memberCount_collect (σ : store) (m : list (string * list string)) (r : ref) :
  memberCount (collect σ m r) = S (memberCount m).
Proof.
  unfold collect. cbv zeta.
  destruct (hasType m (type (σ r))) eqn:Hm.
  - by apply memberCount_pushName.
  - rewrite memberCount_pushName by apply hasType_snoc.
    rewrite memberCount_app. unfold memberCount at 2. simpl. lia.
Qed.

(** X23. The manifest neither loses nor invents an item: the [types]
    elements together have exactly one member line per item of the list,
    and no [types] element is without a member. *)
Theorem generatePackageXml_keeps_items (σ : store) (items : list ref) :
  memberCount (groupByType σ items) = length items
  ∧ ∀ e, e ∈ groupByType σ items → e.2 ≠ [].
Proof.
  split.
  - unfold groupByType.
    induction items as [|r items IH] using rev_ind; [done|].
    rewrite foldl_app. cbn [foldl]. rewrite memberCount_collect, IH.
    rewrite length_app. simpl. lia.
  - intros e. rewrite groupByType_spec.
    intros (t & -> & Ht)%list_elem_of_fmap.
    apply elem_of_firstSeen, list_elem_of_fmap in Ht as (r & -> & Hr).
    cbn [snd]. unfold namesOfType. intros Hnil.
    apply fmap_nil_inv in Hnil.
    assert (r ∈ List.filter (λ r0, String.eqb (type (σ r0)) (type (σ r))) items) as Hin.
    { apply elem_of_filter_bool. split; [done|]. apply String.eqb_refl. }
    rewrite Hnil in Hin. by apply elem_of_nil in Hin.
Qed.

(** ** What [autoWireDependencies] brings *)

Lemma prefix_append (p s : string) :
  String.prefix p s = true ↔ ∃ rest, s = p +:+ rest.
Proof.
  revert s. induction p as [|c p IH]; intros s.
  - split; [|by destruct s]. intros _. by exists s.
  - destruct s as [|d s].
    + split; [done|]. intros [rest H].
      change (String c p +:+ rest) with (String c (p +:+ rest)) in H. done.
    + cbn [String.prefix]. destruct (ascii_dec c d) as [->|Hne].
      * rewrite IH. split; intros [rest H]; exists rest.
        -- change (String d p +:+ rest) with (String d (p +:+ rest)). by f_equal.
        -- change (String d p +:+ rest) with (String d (p +:+ rest)) in H.
           by injection H.
      * split; [done|]. intros [rest H].
        change (String c p +:+ rest) with (String c (p +:+ rest)) in H.
        injection H as H1 H2. by destruct Hne.
Qed.

Lemma split_head_lacks (sep : ascii) (s : string) :
  lacks sep (default "" (split sep s !! 0)) = true.
Proof.
  induction s as [|c s IH]; [done|].
  cbn [split]. destruct (Ascii.eqb c sep) eqn:Hc; [done|].
  pose proof (split_nonempty sep s) as Hne.
  destruct (split sep s) as [|piece pieces]; [done|].
  simpl in IH |- *. by rewrite Hc, IH.
Qed.

Lemma split_head (sep : ascii) (s : string) :
  (1 < length (split sep s))%nat →
  ∃ rest, s = default "" (split sep s !! 0) +:+ String sep rest.
Proof.
  intros Hlen. pose proof (join_split sep s) as Hjoin.
  destruct (split sep s) as [|p [|q pieces]]; [simpl in Hlen; lia..|].
  exists (join sep (q :: pieces)). by rewrite <- Hjoin.
Qed.

Lemma related_broughtBy (σ : store) (comparisonResult : option MetadataComparison)
    (rule : AutoWire) (i x : ref) :
  x ∈ related σ comparisonResult rule i → broughtBy σ i x.
Proof.
  unfold related, broughtBy.
  destruct comparisonResult as [result|]; [|by intros ?%elem_of_nil].
  cbv zeta. destruct rule.
  - intros [_ [Hty Hpre]%andb_true_iff]%elem_of_filter_bool.
    left. split; [by apply String.eqb_eq|]. by apply prefix_append.
  - destruct (List.find _ _) as [y|] eqn:Hfind; [|by intros ?%elem_of_nil].
    intros ->%list_elem_of_singleton.
    apply List.find_some in Hfind as [_ [Hty Hname]%andb_true_iff].
    right. left. split; by apply String.eqb_eq.
  - intros [_ [Hty Hpre]%andb_true_iff]%elem_of_filter_bool.
    right. right. left. split; [|by apply prefix_append].
    apply orb_true_iff in Hty as [Hty|Hty]; [left|right]; by apply String.eqb_eq.
  - by intros ?%elem_of_nil.
  - destruct (Nat.ltb_spec 1 (length (split dot (name (σ i))))) as [Hlen|_];
      [|by intros ?%elem_of_nil].
    destruct (List.find _ _) as [y|] eqn:Hfind; [|by intros ?%elem_of_nil].
    intros ->%list_elem_of_singleton.
    apply List.find_some in Hfind as [_ [Hty Hname]%andb_true_iff].
    right. right. right. split; [by apply String.eqb_eq|].
    apply String.eqb_eq in Hname. rewrite Hname.
    split; [apply split_head_lacks|by apply split_head].
Qed.

Lemma append_neq_self (a b : string) : b ≠ "" → a +:+ b ≠ a.
Proof.
  intros Hb Heq. apply (f_equal String.length) in Heq.
  rewrite length_append in Heq. destruct b; [done|]. simpl in Heq. lia.
Qed.

Lemma broughtBy_other (σ : store) (i x : ref) : broughtBy σ i x → x ≠ i.
Proof.
  intros Hb ->. destruct Hb as [[_ [rest H]]|[[_ H]|[[_ [rest H]]|[_ [_ [rest H]]]]]];
    symmetry in H; revert H.
  - rewrite append_assoc. by apply append_neq_self.
  - by apply append_neq_self.
  - rewrite append_assoc. by apply append_neq_self.
  - by apply append_neq_self.
Qed.

(** X24. [autoWireDependencies] never brings an unrelated item: an item of
    the result that was not selected is an item of the comparison result,
    is not the selected item that brought it, and stands to it in one of
    four relations: a bundle file under the selected name followed by a
    slash, the item of the same type named with the suffix [-meta], a field
    or layout named with the selected name followed by a dot, or the custom
    object whose name is the part of the selected name before its first
    dot (the object's name has no dot, and the selected name is that name,
    a dot, and more). *)
Theorem autoWireDependencies_brings
    (table : list MetadataTypeConfig) (σ : store)
    (comparisonResult : option MetadataComparison) (selectedItems : list ref) (x : ref) :
  x ∈ autoWireDependenciesWith table σ comparisonResult selectedItems →
  x ∉ selectedItems →
  ∃ i result,
    i ∈ selectedItems ∧ x ≠ i
    ∧ comparisonResult = Some result ∧ x ∈ allItems result
    ∧ broughtBy σ i x.
Proof.
  intros Hx Hnot.
  apply elem_of_expand in Hx as [Hx|(i & Hi & Hx)]; [done|].
  destruct (candidates_universe _ _ _ _ _ Hx) as (result & Hres & Hall).
  assert (broughtBy σ i x) as Hb.
  { unfold candidates in Hx.
    destruct (typeConfigOf table σ i) as [c|]; [|by apply elem_of_nil in Hx].
    destruct (autoWire c) as [rule|]; [|by apply elem_of_nil in Hx].
    by apply related_broughtBy in Hx. }
  exists i, result. split_and!; try done. by apply broughtBy_other in Hb.
Qed.

Lemma autoWireDependencies_brings_witness :
  ∃ i result,
    i ∈ [0] ∧ 1 ≠ i
    ∧ Some exampleResult = Some result ∧ 1 ∈ allItems result
    ∧ broughtBy exampleStore i 1.
Proof.
  apply (autoWireDependencies_brings METADATA_TYPES exampleStore
           (Some exampleResult) [0] 1).
  - vm_compute. right. left.
  - intros Hin. apply list_elem_of_singleton in Hin. discriminate.
Defined.

(** X25. Which items are packaged depends on the set of selected items
    only: two selections with the same members, in whatever order and with
    whatever repetitions, are expanded to the same items, each once. *)
Theorem autoWireDependencies_selection_set
    (table : list MetadataTypeConfig) (σ : store)
    (comparisonResult : option MetadataComparison) (sel sel' : list ref) :
  (∀ x, x ∈ sel ↔ x ∈ sel') →
  autoWireDependenciesWith table σ comparisonResult sel
  ≡ₚ autoWireDependenciesWith table σ comparisonResult sel'.
Proof.
  intros Hsame. apply NoDup_Permutation; [apply NoDup_expand..|].
  intros x. rewrite !elem_of_expand. rewrite Hsame.
  split; (intros [Hx|(i & Hi & Hx)]; [by left|right; exists i]).
  - by rewrite <- Hsame.
  - by rewrite Hsame.
Qed.

Lemma autoWireDependencies_selection_set_witness :
  autoWireDependenciesWith METADATA_TYPES exampleStore (Some exampleResult) [0; 2]
  ≡ₚ autoWireDependenciesWith METADATA_TYPES exampleStore (Some exampleResult) [2; 0; 2].
Proof.
  apply autoWireDependencies_selection_set.
  intros x. rewrite !elem_of_cons. tauto.
Defined.

(** ** Package creation *)

Example handleCreatePackage_test :
  Package.handleCreatePackage (λ _, "") exampleStore (Some exampleResult) [0]
  = {| Package.commands := [
         "mkdir -p ./deployment-package";
         "echo '" +:+ generatePackageXml exampleStore [0; 1]
                  +:+ "' > ./deployment-package/package.xml";
         "mkdir -p ./deployment-package/force-app/main/default/objects";
         "mkdir -p ./deployment-package/force-app/main/default/objects";
         "cd ./deployment-package && zip -r ../deployment-package.zip ."];
       Package.toast := {| Package.message := "Deployment package created with 2 items";
                           Package.variant := "success" |} |}.
Proof. vm_compute. reflexivity. Qed.

Lemma length_itemCommands (builtinText : string → string) (σ : store) (items : list ref) :
  length (flat_map (Package.itemCommands builtinText σ) items)
  = (length items + length (List.filter (Package.hasContent σ) items))%nat.
Proof.
  induction items as [|r items IH]; [done|].
  cbn [flat_map List.filter]. rewrite length_app, IH.
  unfold Package.itemCommands. destruct (Package.hasContent σ r); simpl; lia.
Qed.

Lemma elem_of_namesOfType (σ : store) (items : list ref) (r : ref) :
  r ∈ items → name (σ r) ∈ namesOfType σ (type (σ r)) items.
Proof.
  intros Hr. unfold namesOfType. apply list_elem_of_fmap. exists r.
  split; [done|]. apply elem_of_filter_bool. split; [done|]. apply String.eqb_refl.
Qed.

(** X26. [handleCreatePackage] packages every selected item.  With an empty
    selection it issues no command and shows a warning.  Otherwise it
    issues, for the selected items and what they bring, the command that
    makes the package directory, the command that writes the manifest of
    those items, per item one command that makes its directory and, only
    when the item has content, one that writes its file, and last the zip
    command; every selected item is named in the manifest under its type,
    and the toast reports success with the number of packaged items. *)
Theorem handleCreatePackage_packages
    (builtinText : string → string) (σ : store)
    (comparisonResult : option MetadataComparison) (selectedItems : list ref) :
  let out := Package.handleCreatePackage builtinText σ comparisonResult selectedItems in
  let items := autoWireDependenciesWith METADATA_TYPES σ comparisonResult selectedItems in
  (selectedItems = [] →
     Package.commands out = [] ∧ Package.variant (Package.toast out) = "warning")
  ∧ (selectedItems ≠ [] →
     Package.toast out
     = {| Package.message := "Deployment package created with "
                             +:+ pretty.pretty (length items) +:+ " items";
          Package.variant := "success" |}
     ∧ (∃ perItem,
          Package.commands out
          = Package.makeDirectory Package.packageDir
            :: ("echo '" +:+ generatePackageXml σ items +:+ "' > "
                +:+ Package.packageDir +:+ "/package.xml")
            :: perItem
            ++ ["cd " +:+ Package.packageDir +:+ " && zip -r ../deployment-package.zip ."]
          ∧ length perItem
            = (length items + length (List.filter (Package.hasContent σ) items))%nat)
     ∧ ∀ r, r ∈ selectedItems →
         name (σ r) ∈ membersOf (groupByType σ items) (type (σ r))
         ∧ Package.makeDirectory (Package.metadataDirOf builtinText σ r)
           ∈ Package.commands out
         ∧ (Package.hasContent σ r = true →
            Package.writeFile (orEmpty (sourceValue (σ r)))
                              (Package.filePathOf builtinText σ r)
            ∈ Package.commands out)).
Proof.
  intros out items. subst out. unfold Package.handleCreatePackage.
  split.
  - by intros ->.
  - intros Hsel. destruct selectedItems as [|r0 sel]; [done|].
    cbn [length Nat.eqb]. cbv zeta. fold items.
    split; [done|]. split.
    + exists (flat_map (Package.itemCommands builtinText σ) items).
      split; [done|]. apply length_itemCommands.
    + intros r Hr.
      assert (r ∈ items) as Hin by (apply elem_of_expand; by left).
      split; [rewrite membersOf_groupByType; by apply elem_of_namesOfType|].
      assert (∀ c, c ∈ Package.itemCommands builtinText σ r →
                   c ∈ Package.commands (Package.createPackageZip builtinText σ items))
        as Hcmd.
      { intros c Hc. cbn [Package.commands Package.createPackageZip].
        unfold Package.packageCommands.
        apply elem_of_app. right. apply elem_of_app. left.
        apply list_elem_of_In, in_flat_map. exists r.
        split; by apply list_elem_of_In. }
      split.
      * apply Hcmd. left.
      * intros Hc. apply Hcmd. unfold Package.itemCommands. rewrite Hc.
        right. left.
Qed.

(** ** The target column of the diff viewer *)

Lemma contentRetrieved_frame (σ0 : store) (target : list ref)
    (result : MetadataComparison) (σ σ' : store) (x : ref) :
  contentRetrieved σ0 target result σ σ' →
  fullName (σ' x) = fullName (σ x)
  ∧ ((∀ s t, s ∈ changed result →
             lastWithKey σ0 target (fullName (σ0 s)) = Some t → x ≠ t) →
     targetValue (σ' x) = targetValue (σ x)).
Proof.
  induction 1 as [σ|σ σ1 σ2 s t Hs Ht Hwrite _ [IHk IHv]]; [done|].
  assert (fullName (σ1 x) = fullName (σ x)
          ∧ (x ≠ t → targetValue (σ1 x) = targetValue (σ x))) as [Hk Hv].
  { destruct Hwrite as [content|content].
    - destruct (decide (s = x)) as [->|Hne].
      + by rewrite fn_lookup_insert.
      + by rewrite fn_lookup_insert_ne.
    - destruct (decide (t = x)) as [->|Hne].
      + rewrite fn_lookup_insert. by split.
      + by rewrite fn_lookup_insert_ne. }
  split; [by rewrite IHk|].
  intros Hx. rewrite (IHv Hx). apply Hv. by apply (Hx s t).
Qed.

Lemma lineType_no_target (s : string) :
  OrgCompare.lineType s "" = if truthy s then Added else Unchanged.
Proof.
  unfold OrgCompare.lineType, truthy.
  by destruct (String.eqb_spec s "") as [->|Hne].
Qed.

(** X27. After [handleCompareClick] has compared freshly retrieved items
    ([compareMetadata], then [populateItemProperties]), the diff viewer of
    the component never shows target content: [retrieveMetadataContent]
    writes the target content to the target item of a changed pair, which is
    in none of the four result lists, so whatever item [handleViewDiff]
    finds there still has no [targetValue] whichever of those writes have
    happened.  Every row of the target column is empty, one row per line of
    the source content, and no row is labelled removed or changed. *)
Theorem handleViewDiff_target_column
    (σ σ1 σ2 : store) (source target : list ref) (result : MetadataComparison)
    (this : OrgCompare.State) (itemName : option string) :
  (∀ r, r ∈ source → r ∉ target) →
  (∀ r, r ∈ source ++ target → targetValue (σ r) = None) →
  OrgCompare.compareMetadata σ source target = (σ1, result) →
  contentRetrieved σ target result (populateItemProperties σ1 (Some result)) σ2 →
  OrgCompare.comparisonResult this = Some result →
  let this' := handleViewDiff itemName σ2 this in
  this' = this
  ∨ ∃ x, x ∈ allItems result
         ∧ itemName = Some (fullName (σ x))
         ∧ OrgCompare.selectedDiffItem this' = Some x
         ∧ targetValue (σ2 x) = None
         ∧ length (OrgCompare.targetLines (OrgCompare.diffViewerContent this'))
           = length (split newline (orEmpty (sourceValue (σ2 x))))
         ∧ ∀ l, l ∈ OrgCompare.targetLines (OrgCompare.diffViewerContent this') →
                OrgCompare.content l = ""
                ∧ (OrgCompare.line_type l = Added ∨ OrgCompare.line_type l = Unchanged).
Proof.
  intros Hdisj Hnone Hcmp Hret Hres this'. subst this'.
  unfold handleViewDiff. rewrite Hres.
  destruct itemName as [n|]; [|by left].
  destruct (truthy n); [|by left].
  destruct (List.find _ (allItems result)) as [x|] eqn:Hfind; [|by left].
  right. exists x.
  apply List.find_some in Hfind as [Hin%list_elem_of_In Hn%String.eqb_eq].
  destruct (component_compareMetadata_spec σ source target) as (σ1' & Hspec & Hsame).
  rewrite Hcmp in Hspec. injection Hspec as <- Hres0.
  assert (∀ r, fullName (populateItemProperties σ1 (Some result) r) = fullName (σ r)
               ∧ targetValue (populateItemProperties σ1 (Some result) r)
                 = targetValue (σ r)) as Hpop.
  { intros r. rewrite populateItemProperties_lookup.
    destruct (Hsame r) as (st & badge & ->).
    destruct (decide _); [|done].
    unfold populateItem. by destruct st. }
  subst result.
  assert (∀ r, fullName (σ2 r) = fullName (σ r)) as Hkey.
  { intros r.
    rewrite (proj1 (contentRetrieved_frame _ _ _ _ _ r Hret)).
    apply Hpop. }
  assert (targetValue (σ2 x) = None) as Htv.
  { rewrite (proj2 (contentRetrieved_frame _ _ _ _ _ x Hret)).
    - rewrite (proj2 (Hpop x)).
      apply Hnone. unfold allItems in Hin. cbn [added removed changed unchanged] in Hin.
      rewrite !elem_of_app, !elem_of_filter_bool in Hin.
      rewrite elem_of_app. tauto.
    - intros s t [Hs _]%elem_of_filter_bool [Ht Hk]%lastWithKey_Some ->.
      unfold allItems in Hin. cbn [added removed changed unchanged] in Hin.
      rewrite !elem_of_app, !elem_of_filter_bool in Hin.
      destruct Hin as [[Hx _]|[[_ Hx]|[[Hx _]|[Hx _]]]];
        try by apply (Hdisj t Hx).
      unfold onlyIn in Hx. apply bool_decide_eq_true in Hx. apply Hx.
      rewrite Hk. apply elem_of_keys. by exists s. }
  split; [done|]. split; [by rewrite <- Hn, Hkey|].
  split; [done|]. split; [done|].
  set (that := selectDiffItem x this).
  assert (OrgCompare.selectedDiffItem that = Some x) as Hsel by done.
  rewrite (view_rows σ2 x that Hsel). cbn [OrgCompare.targetLines].
  rewrite Htv. cbn [orEmpty default split].
  split.
  - rewrite !length_map, length_seq.
    pose proof (split_length newline (orEmpty (sourceValue (σ2 x)))) as Hlen.
    cbn [length]. unfold orEmpty in *. lia.
  - intros l Hl. rewrite map_map in Hl.
    apply list_elem_of_fmap in Hl as (i & -> & _).
    unfold OrgCompare.diffRow. cbv zeta. cbn [snd OrgCompare.content OrgCompare.line_type].
    assert (orEmpty ([""] !! i) = "") as ->.
    { destruct i as [|[|i]]; reflexivity. }
    split; [done|]. rewrite lineType_no_target.
    destruct (truthy _); [by left|by right].
Qed.

Lemma handleViewDiff_target_column_witness :
  let this' := handleViewDiff (Some "ApexClass/Foo") retrievedStore
                 (exampleView (Some (OrgCompare.compareMetadata exampleStore [3] [4]).2) None) in
  this' = exampleView (Some (OrgCompare.compareMetadata exampleStore [3] [4]).2) None
  ∨ ∃ x, x ∈ allItems (OrgCompare.compareMetadata exampleStore [3] [4]).2
         ∧ Some "ApexClass/Foo" = Some (fullName (exampleStore x))
         ∧ OrgCompare.selectedDiffItem this' = Some x
         ∧ targetValue (retrievedStore x) = None
         ∧ length (OrgCompare.targetLines (OrgCompare.diffViewerContent this'))
           = length (split newline (orEmpty (sourceValue (retrievedStore x))))
         ∧ ∀ l, l ∈ OrgCompare.targetLines (OrgCompare.diffViewerContent this') →
                OrgCompare.content l = ""
                ∧ (OrgCompare.line_type l = Added ∨ OrgCompare.line_type l = Unchanged).
Proof.
  apply (handleViewDiff_target_column exampleStore
           (OrgCompare.compareMetadata exampleStore [3] [4]).1 retrievedStore [3] [4]).
  - intros r ->%list_elem_of_singleton Hin. apply list_elem_of_singleton in Hin.
    discriminate.
  - intros r [Hr|Hr]%elem_of_app; apply list_elem_of_singleton in Hr as ->;
      reflexivity.
  - reflexivity.
  - eapply (retrieved_write _ _ _ _ _ _ 3 4).
    + vm_compute. left.
    + reflexivity.
    + apply (write_target _ _ _ "Y").
    + apply retrieved_none.
  - reflexivity.
Defined.
